(** * amz-ssh: bastion discovery, endpoint resolution, connection chains

    A shallow embedding of the Go sources of amz-ssh: package main
    ([main.go], its revision that reports the remote exit status), and of
    package sshutils the EC2 endpoint ([pkg/sshutils/ec2endpoint.go]) and
    the file that holds [Tunnel], [forward] and [Connect]; followed by the
    properties the specification states about them.

    Everything the program does to the outside (cloud queries, key pushes,
    dials, terminal control, logging, random draws) is an [event] appended to
    a trace; what the outside answers is read from a [World], a record of
    oracles that see the trace so far.  A computation either returns, ends
    the process ([os.Exit], [log.Fatal]) or panics. *)

From Stdlib Require Import String Ascii List ZArith Lia Bool Arith DecimalString.
Import ListNotations.
Open Scope string_scope.

(** ** Go runtime: errors, strings, strconv *)

Module Go.

(** Error values.  [WrapError] is what [fmt.Errorf] builds for a [%w] verb:
    a rendered message that still unwraps to its cause.  The two concrete
    error types the program inspects are kept apart from plain errors. *)
Inductive error : Type :=
| ErrorString (msg : string)
| WrapError (msg : string) (cause : error)
| ThrottlingException (msg : string)
| ExitError (status : Z) (msg : string).

(** [err.Error()] *)
Definition Error (e : error) : string :=
  match e with
  | ErrorString m => m
  | WrapError m _ => m
  | ThrottlingException m => "ThrottlingException: " ++ m
  | ExitError _ m => m
  end.

(** [errors.New(msg)] *)
Definition errors_New (msg : string) : error := ErrorString msg.

(** [errors.As(err, &te)] for [te *connecttypes.ThrottlingException]:
    walks the unwrap chain. *)
Fixpoint errors_As_Throttling (e : error) : bool :=
  match e with
  | ThrottlingException _ => true
  | WrapError _ c => errors_As_Throttling c
  | ErrorString _ | ExitError _ _ => false
  end.

(** [aws.ToString]: the string behind a pointer, empty for nil. *)
Definition aws_ToString (p : option string) : string :=
  match p with Some s => s | None => "" end.

(** [aws.String] *)
Definition aws_String (s : string) : option string := Some s.

(** [%d] of an int. *)
Definition itoa (n : Z) : string := NilZero.string_of_int (Z.to_int n).

(** [strings.Split(s, sep)] for a one-byte separator, the only kind the
    program passes ("@" and ":"). *)
Fixpoint Split_aux (s : string) (sep : ascii) (cur : string) : list string :=
  match s with
  | EmptyString => [cur]
  | String c rest =>
      if Ascii.eqb c sep
      then cur :: Split_aux rest sep EmptyString
      else Split_aux rest sep (cur ++ String c EmptyString)
  end.

Definition Split (s : string) (sep : ascii) : list string :=
  Split_aux s sep EmptyString.

Definition maxInt : Z := (2 ^ 63 - 1)%Z.
Definition minInt : Z := (- 2 ^ 63)%Z.

Definition digit_of (c : ascii) : option Z :=
  let n := Z.of_nat (nat_of_ascii c) in
  if ((48 <=? n) && (n <=? 57))%Z then Some (n - 48)%Z else None.

(** The digits of [s] read in base ten on top of [acc]; [None] on a byte
    that is not a digit.  This is the loop of the fast path of
    [strconv.Atoi]. *)
Fixpoint digits (s : string) (acc : Z) : option Z :=
  match s with
  | EmptyString => Some acc
  | String c rest =>
      match digit_of c with
      | Some d => digits rest (acc * 10 + d)%Z
      | None => None
      end
  end.

Definition maxUint64 : Z := (2 ^ 64 - 1)%Z.

(** The two errors of package strconv. *)
Inductive NumErr := ErrSyntax | ErrRange.

(** [NumError.Error()] without the quoted input, a text no function of
    the program reads. *)
Definition NumError (fn : string) (e : NumErr) : error :=
  ErrorString ("strconv." ++ fn ++ ": parsing: "
                 ++ match e with
                    | ErrSyntax => "invalid syntax"
                    | ErrRange => "value out of range"
                    end).

(** The loop of [strconv.ParseUint(s, 10, 64)] over the bytes of [s], with
    [n] the value read so far.  A byte that is not a digit is a syntax
    error; the digit at which the value leaves 64 bits is a range error,
    whatever follows that digit. *)
Fixpoint ParseUint_loop (s : string) (n : Z) : Z * option NumErr :=
  match s with
  | EmptyString => (n, None)
  | String c rest =>
      match digit_of c with
      | None => (0%Z, Some ErrSyntax)
      | Some d =>
          if (maxUint64 / 10 + 1 <=? n)%Z then (maxUint64, Some ErrRange)
          else
            let n1 := (n * 10 + d)%Z in
            if (maxUint64 <? n1)%Z then (maxUint64, Some ErrRange)
            else ParseUint_loop rest n1
      end
  end.

Definition ParseUint (s : string) : Z * option NumErr :=
  match s with
  | EmptyString => (0%Z, Some ErrSyntax)
  | _ => ParseUint_loop s 0
  end.

(** [strconv.ParseInt(s, 10, 0)] where int has 64 bits. *)
Definition ParseInt (s : string) : Z * option NumErr :=
  match s with
  | EmptyString => (0%Z, Some ErrSyntax)
  | String c rest =>
      let neg := Ascii.eqb c "-"%char in
      let s1 := if Ascii.eqb c "+"%char || neg then rest else s in
      match ParseUint s1 with
      | (_, Some ErrSyntax) => (0%Z, Some ErrSyntax)
      | (un, _) =>
          let cutoff := (2 ^ 63)%Z in
          if negb neg && (cutoff <=? un)%Z then ((cutoff - 1)%Z, Some ErrRange)
          else if neg && (cutoff <? un)%Z then ((- cutoff)%Z, Some ErrRange)
          else ((if neg then - un else un)%Z, None)
      end
  end.

(** [strconv.Atoi] where int has 64 bits: value and error.  Inputs of 1 to
    18 bytes take the fast path, whose loop is [digits]; the others go
    through [ParseInt].  A syntax error yields 0, a value out of range the
    nearest bound. *)
Definition Atoi (s : string) : Z * option error :=
  let syntax := (0%Z, Some (NumError "Atoi" ErrSyntax)) in
  let sLen := String.length s in
  if ((0 <? sLen) && (sLen <? 19))%nat then
    match s with
    | EmptyString => syntax
    | String c rest =>
        let signed := Ascii.eqb c "-"%char || Ascii.eqb c "+"%char in
        let s1 := if signed then rest else s in
        if signed && (String.length s1 <? 1)%nat then syntax
        else
          match digits s1 0 with
          | None => syntax
          | Some n => ((if Ascii.eqb c "-"%char then - n else n)%Z, None)
          end
    end
  else
    let '(i64, err) := ParseInt s in
    (i64, option_map (NumError "Atoi") err).

(** Substring test, used to say that a message carries an address. *)
Fixpoint contains (s sub : string) : bool :=
  if String.prefix sub s then true
  else match s with
       | EmptyString => false
       | String _ rest => contains rest sub
       end.

End Go.
Import Go.

(** ** Values exchanged with the AWS SDK, the SSH library and the terminal *)

Module Types.

(** [ec2types.Filter] *)
Record Filter := { Name : option string; Values : list string }.

(** [ec2types.SpotInstanceRequest], the field the program reads. *)
Record SpotInstanceRequest := { sir_InstanceId : option string }.

(** [ec2types.Placement] *)
Record Placement := { AvailabilityZone : option string }.

(** [ec2types.Instance], the fields the program reads.  The SDK fills
    [Placement] in every description of an instance; it is taken as
    present. *)
Record Instance := {
  InstanceId : option string;
  PrivateIpAddress : option string;
  PublicIpAddress : option string;
  Placement_ : Placement
}.

(** [ec2types.Reservation] *)
Record Reservation := { Instances : list Instance }.

(** [ec2.DescribeInstancesInput] *)
Record DescribeInstancesInput := {
  di_Filters : list Filter;
  di_InstanceIds : list string
}.

(** [connect.SendSSHPublicKeyInput] *)
Record SendSSHPublicKeyInput := {
  sk_AvailabilityZone : option string;
  sk_InstanceId : option string;
  sk_InstanceOSUser : option string;
  sk_SSHPublicKey : option string
}.

(** [connect.SendSSHPublicKeyOutput] *)
Record SendSSHPublicKeyOutput := {
  Success : bool;
  RequestId : option string
}.

(** [ssh.Signer], as returned by [ssh.ParsePrivateKey]: the key it signs
    with. *)
Inductive Signer := SignerOf (key : string).

Inductive AuthMethod := PublicKeys (s : Signer).

Inductive HostKeyCallback := InsecureIgnoreHostKey.

(** [ssh.ClientConfig] *)
Record ClientConfig := {
  cc_User : string;
  cc_Auth : list AuthMethod;
  cc_HostKeyCallback : HostKeyCallback
}.

(** Handles the libraries hand out. *)
Inductive Client := ClientH (h : nat).      (* *ssh.Client *)
Inductive Conn := ConnH (h : nat).          (* net.Conn *)
Inductive ClientConn := ClientConnH (h : nat). (* ssh.Conn with its channels and requests *)
Inductive Session := SessionH (h : nat).    (* *ssh.Session *)
Inductive Listener := ListenerH (h : nat) (addr : string). (* net.Listener and its bound address *)
Inductive TermState := TermStateH (h : nat). (* *term.State *)

(** [ssh.NewClient(ncc, chans, reqs)] *)
Definition NewClient (c : ClientConn) : Client :=
  match c with ClientConnH h => ClientH h end.

Inductive Level := LDebug | LInfo | LError | LFatal.

(** [ssh.TerminalModes] as the list of its entries. *)
Inductive TermMode := ECHO | TTY_OP_ISPEED | TTY_OP_OSPEED.
Definition TerminalModes := list (TermMode * Z).

(** Goroutines the program starts. *)
Inductive Goroutine :=
| GoForward (localConn : Conn)
| GoCopyConn (writer reader : Conn)
| GoSignalHandler.

(** What the program does to the outside, one constructor per call.  The
    calls that build or accept a connection and the switch to raw mode
    carry the answer they got, so that a trace tells which hop went through
    which client and which connection was handed to which goroutine.
    [EvConnClose] and [EvClientClose] stand for [net.Conn.Close] and
    [ssh.Client.Close]: no function of the program makes these calls, and
    the two events are there for a trace to tell a connection that was
    torn down from one that was left open. *)
Inductive event :=
| EvLog (lvl : Level) (msg : string)
| EvDescribeSpotInstanceRequests (filters : list Filter)
| EvDescribeInstances (input : DescribeInstancesInput)
| EvIntn (n : nat)
| EvGenerateKeys
| EvLoadDefaultConfig (region : string)
| EvSendSSHPublicKey (input : SendSSHPublicKeyInput)
| EvSshDial (network addr : string) (cfg : ClientConfig) (r : Client + error)
| EvClientDial (c : Client) (network addr : string) (r : Conn + error)
| EvNewClientConn (conn : Conn) (addr : string) (cfg : ClientConfig)
    (r : ClientConn + error)
| EvNewSession (c : Client)
| EvSessionClose (s : Session)
| EvIsTerminal (fd : Z)
| EvMakeRaw (fd : Z) (r : TermState + error)
| EvRestore (fd : Z) (st : TermState)
| EvGetSize (fd : Z)
| EvRequestPty (s : Session) (term : string) (h w : Z) (modes : TerminalModes)
| EvShell (s : Session)
| EvWait (s : Session)
| EvListen (network addr : string)
| EvAccept (l : Listener) (r : Conn + error)
| EvListenerClose (l : Listener)
| EvGo (g : Goroutine)
| EvCopy (writer reader : Conn)
| EvPrintln (msg : string)
| EvConnClose (c : Conn)
| EvClientClose (c : Client).

Definition trace := list event.

(** The outside: each oracle answers one kind of call and may depend on
    everything that happened before the call.  [GenerateKeys], a function
    of package sshutils that is not among the sources, is one of them. *)
Record World := {
  w_DescribeSpotInstanceRequests :
    trace -> list Filter -> list SpotInstanceRequest + error;
  w_DescribeInstances :
    trace -> DescribeInstancesInput -> list Reservation + error;
  (** the raw draw behind [rand.Intn] *)
  w_rand : trace -> nat;
  w_LoadDefaultConfig : trace -> option error;
  (** [GenerateKeys()]: private key, public key and error *)
  w_GenerateKeys : trace -> string * string * option error;
  w_SendSSHPublicKey :
    trace -> SendSSHPublicKeyInput -> SendSSHPublicKeyOutput + error;
  w_ParsePrivateKey : string -> Signer + error;
  w_sshDial : trace -> string -> ClientConfig -> Client + error;
  w_clientDial : trace -> Client -> string -> Conn + error;
  w_NewClientConn :
    trace -> Conn -> string -> ClientConfig -> ClientConn + error;
  w_NewSession : trace -> Client -> Session + error;
  w_IsTerminal : trace -> Z -> bool;
  w_MakeRaw : trace -> Z -> TermState + error;
  w_GetSize : trace -> Z -> (Z * Z) + error;
  w_RequestPty : trace -> Session -> option error;
  w_Shell : trace -> Session -> option error;
  w_Wait : trace -> Session -> option error;
  w_Listen : trace -> string -> Listener + error;
  w_Accept : trace -> Listener -> Conn + error;
  w_Copy : trace -> Conn -> Conn -> option error;
  (** the descriptor of standard input, [os.Stdin.Fd()] *)
  w_stdin : Z
}.

End Types.
Import Types.

(** ** Computations: a trace of events, and three ways to end *)

Module Eff.

Inductive Res (A : Type) : Type :=
| Ok (a : A)            (* the call returned *)
| Exit (code : Z)       (* os.Exit: the process is gone, nothing deferred runs *)
| Panic (msg : string). (* a run-time panic *)
Arguments Ok {A} a.
Arguments Exit {A} code.
Arguments Panic {A} msg.

Definition M (A : Type) : Type := trace -> Res A * trace.

Definition ret {A} (a : A) : M A := fun h => (Ok a, h).

Definition bind {A B} (m : M A) (k : A -> M B) : M B :=
  fun h =>
    match m h with
    | (Ok a, h') => k a h'
    | (Exit c, h') => (Exit c, h')
    | (Panic s, h') => (Panic s, h')
    end.

(** An effect with no answer. *)
Definition emit (e : event) : M unit := fun h => (Ok tt, (h ++ [e])%list).

(** An effect whose answer the oracle [f] gives from the trace so far. *)
Definition call {A} (e : event) (f : trace -> A) : M A :=
  fun h => (Ok (f h), (h ++ [e])%list).

(** The same, with the answer written into the event. *)
Definition callr {A} (e : A -> event) (f : trace -> A) : M A :=
  fun h => (Ok (f h), (h ++ [e (f h)])%list).

Definition os_Exit {A} (code : Z) : M A := fun h => (Exit code, h).

Definition panic {A} (msg : string) : M A := fun h => (Panic msg, h).

(** [defer cleanup; body]: the deferred call runs when the body returns or
    panics, never after [os.Exit]. *)
Definition defer {A} (cleanup : M unit) (body : M A) : M A :=
  fun h =>
    match body h with
    | (Ok a, h') =>
        match cleanup h' with
        | (Ok _, h'') => (Ok a, h'')
        | (Exit c, h'') => (Exit c, h'')
        | (Panic s, h'') => (Panic s, h'')
        end
    | (Exit c, h') => (Exit c, h')
    | (Panic s, h') =>
        match cleanup h' with
        | (Exit c, h'') => (Exit c, h'')
        | (_, h'') => (Panic s, h'')
        end
    end.

(** [xs[i]] *)
Definition index {A} (xs : list A) (i : nat) : M A :=
  match nth_error xs i with
  | Some x => ret x
  | None => panic "index out of range"
  end.

Definition slog (lvl : Level) (msg : string) : M unit := emit (EvLog lvl msg).

(** [log.Fatal(err)] of logrus: log, then exit with status 1. *)
Definition log_Fatal {A} (err : error) : M A :=
  bind (slog LFatal (Error err)) (fun _ => os_Exit 1%Z).

End Eff.
Import Eff.

Declare Scope eff_scope.
Delimit Scope eff_scope with eff.
Notation "x <- c ;; k" := (bind c (fun x => k))
  (at level 61, c at next level, right associativity) : eff_scope.
Notation "c ;;; k" := (bind c (fun _ => k))
  (at level 61, right associativity) : eff_scope.
Open Scope eff_scope.

(** ** Package sshutils *)

Module Sshutils.

(** Modelled from the spec: the interface [EndpointIface], whose
    declaration is not among the sources; "a small capability interface
    with exactly two operations (resolve address; produce auth config)".
    The sources call it through [String()] and [GetSSHConfig()], the
    latter returning Go's pair of a pointer and an error. *)
Record EndpointIface := {
  ep_String : M string;
  ep_GetSSHConfig : option ClientConfig * option error
}.

Record EC2Endpoint := {
  InstanceID : string;
  Port : Z;
  User : string;
  PrivateKey : string;
  PublicKey : string;
  UsePrivate : bool;
  Instance_ : option Instance
}.

Definition set_UsePrivate (e : EC2Endpoint) (b : bool) : EC2Endpoint :=
  {| InstanceID := InstanceID e; Port := Port e; User := User e;
     PrivateKey := PrivateKey e; PublicKey := PublicKey e;
     UsePrivate := b; Instance_ := Instance_ e |}.

(** What a loop of [Connect] or [Tunnel] leaves behind: it ran to its end
    with a value, or the enclosing function returned from inside it. *)
Inductive Flow (A R : Type) : Type :=
| Next (a : A)
| Return (r : R).
Arguments Next {A R} a.
Arguments Return {A R} r.

(** A loop with no bound either returned or is still going when the fuel
    given to it ran out. *)
Inductive Ran (A : Type) : Type :=
| Returned (a : A)
| StillRunning.
Arguments Returned {A} a.
Arguments StillRunning {A}.

Definition modes : TerminalModes :=
  [(ECHO, 1%Z); (TTY_OP_ISPEED, 14400%Z); (TTY_OP_OSPEED, 14400%Z)].

Section WithWorld.
Variable w : World.

(** [getEC2Instance] *)
Definition getEC2Instance (id : string) : M (option Instance * option error) :=
  let input := {| di_Filters := []; di_InstanceIds := [id] |} in
  instanceOutput <- call (EvDescribeInstances input)
                         (fun h => w_DescribeInstances w h input) ;;
  match instanceOutput with
  | inr err => ret (None, Some err)
  | inl reservations =>
      match reservations with
      | [] => ret (None, Some (errors_New "instance not found"))
      | r0 :: _ =>
          match Instances r0 with
          | [] => ret (None, Some (errors_New "instance not found"))
          | i0 :: _ => ret (Some i0, None)
          end
      end
  end.

(** [NewEC2Endpoint]: the endpoint is returned with whatever was filled
    in so far, also next to an error. *)
Definition NewEC2Endpoint (InstanceID0 : string) : M (EC2Endpoint * option error) :=
  let user0 := "ec2-user" in
  let port0 := 22%Z in
  let '(user1, id1) :=
    match Split InstanceID0 "@"%char with
    | p0 :: p1 :: _ => (p0, p1)
    | _ => (user0, InstanceID0)
    end in
  let '(id2, port2) :=
    match Split id1 ":"%char with
    | p0 :: p1 :: _ => (p0, fst (Atoi p1))
    | _ => (id1, port0)
    end in
  keys <- call EvGenerateKeys (w_GenerateKeys w) ;;
  let '(priv, pub, err) := keys in
  let endpoint := {| InstanceID := id2; Port := port2; User := user1;
                     PrivateKey := priv; PublicKey := pub;
                     UsePrivate := false; Instance_ := None |} in
  match err with
  | Some e => ret (endpoint, Some e)
  | None =>
      r <- getEC2Instance id2 ;;
      let '(inst, err) := r in
      let endpoint := {| InstanceID := id2; Port := port2; User := user1;
                         PrivateKey := priv; PublicKey := pub;
                         UsePrivate := false; Instance_ := inst |} in
      match err with
      | Some e => ret (endpoint, Some e)
      | None => ret (endpoint, None)
      end
  end.

(** [sendPublicKey] *)
Definition sendPublicKey (instance : option Instance) (user publicKey : string)
  : M (option error) :=
  match instance with
  | None => panic "invalid memory address or nil pointer dereference"
  | Some instance =>
      let input := {| sk_AvailabilityZone := AvailabilityZone (Placement_ instance);
                      sk_InstanceId := InstanceId instance;
                      sk_InstanceOSUser := aws_String user;
                      sk_SSHPublicKey := aws_String publicKey |} in
      r <- call (EvSendSSHPublicKey input)
                (fun h => w_SendSSHPublicKey w h input) ;;
      match r with
      | inr err =>
          if errors_As_Throttling err then
            slog LDebug "Got throttling exception, usually just means the key is already valid" ;;;
            ret None
          else
            ret (Some (WrapError ("send public key error: " ++ Error err) err))
      | inl out =>
          if negb (Success out) then
            ret (Some (ErrorString
              ("request failed but no error was returned. Request ID: "
                 ++ aws_ToString (RequestId out))))
          else ret None
      end
  end.

(** [EC2Endpoint.String], a method on the pointer *)
Definition String_ (e : EC2Endpoint) : M string :=
  err <- sendPublicKey (Instance_ e) (User e) (PublicKey e) ;;
  match err with
  | Some err => log_Fatal err
  | None =>
      match Instance_ e with
      | None => panic "invalid memory address or nil pointer dereference"
      | Some inst =>
          if UsePrivate e then
            ret (aws_ToString (PrivateIpAddress inst) ++ ":" ++ itoa (Port e))
          else
            ret (aws_ToString (PublicIpAddress inst) ++ ":" ++ itoa (Port e))
      end
  end.

(** [EC2Endpoint.GetSSHConfig], a method on the pointer *)
Definition GetSSHConfig (e : EC2Endpoint) : option ClientConfig * option error :=
  match w_ParsePrivateKey w (PrivateKey e) with
  | inr err => (None, Some err)
  | inl key =>
      (Some {| cc_User := User e;
               cc_Auth := [PublicKeys key];
               cc_HostKeyCallback := InsecureIgnoreHostKey |}, None)
  end.

(** A pointer to an [EC2Endpoint] as an [EndpointIface]. *)
Definition EC2Endpoint_iface (e : EC2Endpoint) : EndpointIface :=
  {| ep_String := String_ e; ep_GetSSHConfig := GetSSHConfig e |}.

(** [ssh.Dial(network, addr, config)]: transport dial and handshake.  It
    reads [config.Timeout] first, so a nil configuration panics. *)
Definition ssh_Dial (network addr : string) (config : option ClientConfig)
  : M (Client + error) :=
  match config with
  | None => panic "invalid memory address or nil pointer dereference"
  | Some cfg => callr (EvSshDial network addr cfg) (fun h => w_sshDial w h addr cfg)
  end.

(** [client.Dial(network, addr)]: a channel through an established client. *)
Definition client_Dial (c : Client) (network addr : string) : M (Conn + error) :=
  callr (EvClientDial c network addr) (fun h => w_clientDial w h c addr).

(** [ssh.NewClientConn(conn, addr, config)]: handshake over [conn]. *)
Definition ssh_NewClientConn (conn : Conn) (addr : string) (config : option ClientConfig)
  : M (ClientConn + error) :=
  match config with
  | None => panic "invalid memory address or nil pointer dereference"
  | Some cfg =>
      callr (EvNewClientConn conn addr cfg) (fun h => w_NewClientConn w h conn addr cfg)
  end.

(** The [for ... range bastionEndpoints] loop of [Connect]. *)
Fixpoint Connect_loop (bastionEndpoints : list EndpointIface) (client : option Client)
  : M (Flow (option Client) (option error)) :=
  match bastionEndpoints with
  | [] => ret (Next client)
  | bastionEndpoint :: rest =>
      let '(sshConfig, err) := ep_GetSSHConfig bastionEndpoint in
      match err with
      | Some _ => ret (Return None)
      | None =>
          serviceAddr <- ep_String bastionEndpoint ;;
          slog LInfo ("Attempting to connect to " ++ serviceAddr) ;;;
          match client with
          | None =>
              r <- ssh_Dial "tcp" serviceAddr sshConfig ;;
              match r with
              | inr err =>
                  ret (Return (Some (ErrorString ("failed to dial: " ++ Error err))))
              | inl c => Connect_loop rest (Some c)
              end
          | Some c =>
              r <- client_Dial c "tcp" serviceAddr ;;
              match r with
              | inr err =>
                  ret (Return (Some (ErrorString ("failed to dial: " ++ Error err))))
              | inl conn =>
                  r <- ssh_NewClientConn conn serviceAddr sshConfig ;;
                  match r with
                  | inr err =>
                      ret (Return (Some (ErrorString
                        ("failed to create new ssh connection to " ++ serviceAddr
                           ++ ": " ++ Error err))))
                  | inl ncc => Connect_loop rest (Some (NewClient ncc))
                  end
              end
          end
      end
  end.

(** The end of [Connect]: start the shell and wait for it. *)
Definition Connect_shell (sess : Session) : M (option error) :=
  err <- call (EvShell sess) (fun h => w_Shell w h sess) ;;
  match err with
  | Some err =>
      slog LError ("failed to start shell err=" ++ Error err) ;;;
      os_Exit 1%Z
  | None => call (EvWait sess) (fun h => w_Wait w h sess)
  end.

(** [Connect] after its loop: the interactive session on the last client. *)
Definition Connect_session (client : option Client) : M (option error) :=
  match client with
  | None => panic "invalid memory address or nil pointer dereference"
  | Some client =>
      r <- call (EvNewSession client) (fun h => w_NewSession w h client) ;;
      match r with
      | inr err =>
          ret (Some (ErrorString ("failed to create new session: " ++ Error err)))
      | inl sess =>
          defer (emit (EvSessionClose sess))
            (let fileDescriptor := w_stdin w in
             isTerm <- call (EvIsTerminal fileDescriptor)
                            (fun h => w_IsTerminal w h fileDescriptor) ;;
             if isTerm : bool then
               r <- callr (EvMakeRaw fileDescriptor)
                          (fun h => w_MakeRaw w h fileDescriptor) ;;
               match r with
               | inr _ => ret None
               | inl originalState =>
                   defer (emit (EvRestore fileDescriptor originalState))
                     (r <- call (EvGetSize fileDescriptor)
                                (fun h => w_GetSize w h fileDescriptor) ;;
                      match r with
                      | inr err => ret (Some err)
                      | inl (termWidth, termHeight) =>
                          err <- call (EvRequestPty sess "xterm-256color"
                                         termHeight termWidth modes)
                                      (fun h => w_RequestPty w h sess) ;;
                          match err with
                          | Some err => ret (Some err)
                          | None => Connect_shell sess
                          end
                      end)
               end
             else Connect_shell sess)
      end
  end.

(** [Connect] *)
Definition Connect (bastionEndpoints : list EndpointIface) : M (option error) :=
  r <- Connect_loop bastionEndpoints None ;;
  match r with
  | Return err => ret err
  | Next client => Connect_session client
  end.

(** The [copyConn] closure of [forward]. *)
Definition copyConn (writer reader : Conn) : M unit :=
  err <- call (EvCopy writer reader) (fun h => w_Copy w h writer reader) ;;
  match err with
  | Some err => slog LError ("io.Copy error err=" ++ Error err)
  | None => ret tt
  end.

(** [forward]: the body of the goroutine started per accepted
    connection.  The two copies are goroutines of their own. *)
Definition forward (remoteHost bastionEndpoint : EndpointIface) (localConn : Conn)
  : M unit :=
  let '(sshConfig, err) := ep_GetSSHConfig bastionEndpoint in
  match err with Some err => slog LError (Error err) | None => ret tt end ;;;
  addr <- ep_String bastionEndpoint ;;
  r <- ssh_Dial "tcp" addr sshConfig ;;
  match r with
  | inr err => slog LError ("server dial error err=" ++ Error err)
  | inl serverConn =>
      addr' <- ep_String bastionEndpoint ;;
      slog LDebug ("connected to " ++ addr' ++ " (1 of 2)") ;;;
      raddr <- ep_String remoteHost ;;
      r <- client_Dial serverConn "tcp" raddr ;;
      match r with
      | inr err => slog LError ("remote dial error err=" ++ Error err)
      | inl remoteConn =>
          raddr' <- ep_String remoteHost ;;
          slog LDebug ("connected to " ++ raddr' ++ " (2 of 2)") ;;;
          emit (EvGo (GoCopyConn localConn remoteConn)) ;;;
          emit (EvGo (GoCopyConn remoteConn localConn))
      end
  end.

(** The accept loop of [Tunnel], cut off after [fuel] iterations. *)
Fixpoint Tunnel_loop (fuel : nat) (listener : Listener) : M (Ran (option error)) :=
  match fuel with
  | O => ret StillRunning
  | S fuel =>
      r <- callr (EvAccept listener) (fun h => w_Accept w h listener) ;;
      match r with
      | inr err => ret (Returned (Some err))
      | inl conn =>
          slog LDebug "accepted connection" ;;;
          emit (EvGo (GoForward conn)) ;;;
          Tunnel_loop fuel listener
      end
  end.

(** [Tunnel]; the listener is closed when the function returns. *)
Definition Tunnel (fuel : nat) (localPort : Z) (remoteHost bastionHost : EndpointIface)
  : M (Ran (option error)) :=
  slog LDebug "Opening tunnel" ;;;
  let addr := "localhost" ++ ":" ++ itoa localPort in
  r <- call (EvListen "tcp" addr) (fun h => w_Listen w h addr) ;;
  match r with
  | inr err => ret (Returned (Some err))
  | inl listener =>
      r <- (slog LInfo ("listening on " ++
               match listener with ListenerH _ a => a end) ;;;
            Tunnel_loop fuel listener) ;;
      match r with
      | Returned err => emit (EvListenerClose listener) ;;; ret (Returned err)
      | StillRunning => ret StillRunning
      end
  end.

End WithWorld.

End Sshutils.
Import Sshutils.

(** ** Package main

    [main.go] holds two revisions of the package.  The one embedded here is
    the first, whose [main] turns an [ssh.ExitError] into the exit status
    of the process; [resolveBastionInstanceID] and [run] read the same in
    both, up to the level of their log lines and the source of the
    destination list.  Log lines are recorded whatever the configured
    level. *)

Module Main.

(** The parsed command line, as [cli.Context] serves it to [run]. *)
Record Context := {
  c_debug : bool;
  c_tag : string;
  c_region : string;
  c_instance_id : string;
  c_user : string;
  c_port : Z;
  c_tunnel : string;
  c_local_port : Z;
  c_args : list string
}.

(** Modelled from the spec: the endpoint of the tunnel target ("remote
    target address (host:port, not necessarily a cloud instance)"), whose
    type [sshutils.Endpoint] and constructor [sshutils.NewEndpoint] are not
    among the sources.  [run] reads its host and port and hands it to
    [Tunnel] as an [EndpointIface]; the constructor is a parameter of
    [run]. *)
Record Endpoint := {
  Host : string;
  EPort : Z;
  Endpoint_iface : EndpointIface
}.

Section WithWorld.
Variable w : World.
Variable NewEndpoint : string -> Endpoint.

(** [getSpotRequestByTag] *)
Definition getSpotRequestByTag (tagName tagValue : string)
  : M (list SpotInstanceRequest + error) :=
  let filters :=
    [ {| Name := aws_String ("tag:" ++ tagName); Values := [tagValue] |};
      {| Name := aws_String "state"; Values := ["active"] |};
      {| Name := aws_String "status-code"; Values := ["fulfilled"] |} ] in
  call (EvDescribeSpotInstanceRequests filters)
       (fun h => w_DescribeSpotInstanceRequests w h filters).

(** [getInstanceByTag] *)
Definition getInstanceByTag (tagName tagValue : string)
  : M (list Reservation + error) :=
  let input :=
    {| di_Filters :=
         [ {| Name := aws_String ("tag:" ++ tagName); Values := [tagValue] |};
           {| Name := aws_String "instance-state-name"; Values := ["running"] |} ];
       di_InstanceIds := [] |} in
  call (EvDescribeInstances input) (fun h => w_DescribeInstances w h input).

(** [rand.Intn(n)]: panics unless [n] is positive. *)
Definition rand_Intn (n : nat) : M nat :=
  match n with
  | O => panic "invalid argument to Intn"
  | S _ => call (EvIntn n) (fun h => w_rand w h mod n)
  end.

(** [resolveBastionInstanceID]: the id and the error Go returns. *)
Definition resolveBastionInstanceID (tagName tagValue : string)
  : M (string * option error) :=
  slog LDebug "Looking for bastion spot request" ;;;
  siro <- getSpotRequestByTag tagName tagValue ;;
  match siro with
  | inr err => ret ("", Some err)
  | inl SpotInstanceRequests =>
      if (0 <? length SpotInstanceRequests)%nat then
        i <- rand_Intn (length SpotInstanceRequests) ;;
        r <- index SpotInstanceRequests i ;;
        ret (aws_ToString (sir_InstanceId r), None)
      else
        slog LDebug "No spot requests found, looking for instance directly" ;;;
        dio <- getInstanceByTag tagName tagValue ;;
        match dio with
        | inr err => ret ("", Some err)
        | inl Reservations =>
            if (0 <? length Reservations)%nat then
              i <- rand_Intn (length Reservations) ;;
              res <- index Reservations i ;;
              j <- rand_Intn (length (Instances res)) ;;
              inst <- index (Instances res) j ;;
              ret (aws_ToString (InstanceId inst), None)
            else
              ret ("", Some (errors_New "unable to find any valid bastion instances"))
        end
  end.

(** [getClients]: the clients are the world; loading the configuration
    can fail, and then the process exits. *)
Definition getClients (region : string) : M unit :=
  err <- call (EvLoadDefaultConfig region) (w_LoadDefaultConfig w) ;;
  match err with
  | Some err =>
      slog LError ("unable to load SDK config err=" ++ Error err) ;;;
      os_Exit 1%Z
  | None => ret tt
  end.

(** The [for ... range c.Args().Slice()] loop of [run]. *)
Fixpoint run_chain (args : list string) (chain : list EndpointIface)
  : M (Flow (list EndpointIface) (option error)) :=
  match args with
  | [] => ret (Next chain)
  | ep :: rest =>
      r <- NewEC2Endpoint w ep ;;
      let '(destEndpoint, err) := r in
      match err with
      | Some err => ret (Return (Some err))
      | None =>
          let destEndpoint := set_UsePrivate destEndpoint true in
          run_chain rest (chain ++ [EC2Endpoint_iface w destEndpoint])%list
      end
  end.

(** [run], the action of the command.  [fuel] bounds the accept loop of
    the tunnel. *)
Definition run (fuel : nat) (c : Context) : M (Ran (option error)) :=
  match Split (c_tag c) ":"%char with
  | [tagName; tagValue] =>
      getClients (c_region c) ;;;
      r <- (if String.eqb (c_instance_id c) "" then
              resolveBastionInstanceID tagName tagValue
            else ret (c_instance_id c, None)) ;;
      let '(instanceID, err) := r in
      match err with
      | Some err => ret (Returned (Some err))
      | None =>
          let bastionAddr :=
            c_user c ++ "@" ++ instanceID ++ ":" ++ itoa (c_port c) in
          r <- NewEC2Endpoint w bastionAddr ;;
          let '(bastionEndpoint, err) := r in
          match err with
          | Some err => ret (Returned (Some err))
          | None =>
              let tunnel := NewEndpoint (c_tunnel c) in
              if negb (String.eqb (Host tunnel) "") then
                let p := if (c_local_port c =? 0)%Z then EPort tunnel
                         else c_local_port c in
                Tunnel w fuel p (Endpoint_iface tunnel)
                       (EC2Endpoint_iface w bastionEndpoint)
              else
                r <- run_chain (c_args c) [EC2Endpoint_iface w bastionEndpoint] ;;
                match r with
                | Return err => ret (Returned err)
                | Next chain =>
                    err <- Connect w chain ;;
                    ret (Returned err)
                end
          end
      end
  | _ =>
      ret (Returned (Some (ErrorString
        (c_tag c ++ " is not a valid tag definition, use key:value"))))
  end.

(** [main] after [app.Run] handed the parsed command line to [run]. *)
Definition main (fuel : nat) (c : Context) : M (Ran unit) :=
  emit (EvGo GoSignalHandler) ;;;
  r <- run fuel c ;;
  match r with
  | StillRunning => ret StillRunning
  | Returned None => ret (Returned tt)
  | Returned (Some err) =>
      match err with
      | ExitError status _ => os_Exit status
      | _ => slog LError (Error err) ;;; os_Exit 1%Z
      end
  end.

(** The exit status of the process as its parent reads it: 0 when [main]
    returns, the low eight bits of the argument of [os.Exit], 2 after a
    panic.  [None] while the tunnel is still accepting. *)
Definition exit_status (fuel : nat) (c : Context) (h : trace) : option Z :=
  match fst (main fuel c h) with
  | Ok (Returned _) => Some 0%Z
  | Ok StillRunning => None
  | Exit code => Some (code mod 256)%Z
  | Panic _ => Some 2%Z
  end.

(** The goroutine started by [setupSignalHandlers], from the arrival of a
    signal on: it prints its goodbye and ends the process with status 0.
    Until then it waits on its channel; in the interleaving of goroutines
    that is a goroutine not run yet. *)
Definition signal_goroutine : M unit :=
  emit (EvPrintln (String "010"%char "Goodbye!")) ;;;
  os_Exit 0%Z.

(** What a started goroutine runs. *)
Definition run_goroutine (remoteHost bastionHost : EndpointIface) (g : Goroutine)
  : M unit :=
  match g with
  | GoForward localConn => forward w remoteHost bastionHost localConn
  | GoCopyConn writer reader => copyConn w writer reader
  | GoSignalHandler => signal_goroutine
  end.

End WithWorld.

End Main.
Import Main.

(** ** Concrete worlds for the scenarios below *)

Module Scenario.

(** A world in which every call succeeds and nothing is found: no spot
    request, no reservation, standard input is not a terminal, every key
    parses, every dial is answered with a handle numbered by the length of
    the trace. *)
Definition calm : World :=
  {| w_DescribeSpotInstanceRequests := fun _ _ => inl [];
     w_DescribeInstances := fun _ _ => inl [];
     w_rand := fun _ => O;
     w_LoadDefaultConfig := fun _ => None;
     w_GenerateKeys := fun _ => ("PRIVATE", "PUBLIC", None);
     w_SendSSHPublicKey := fun _ _ => inl {| Success := true; RequestId := None |};
     w_ParsePrivateKey := fun k => inl (SignerOf k);
     w_sshDial := fun h _ _ => inl (ClientH (length h));
     w_clientDial := fun h _ _ => inl (ConnH (length h));
     w_NewClientConn := fun h _ _ _ => inl (ClientConnH (length h));
     w_NewSession := fun h _ => inl (SessionH (length h));
     w_IsTerminal := fun _ _ => false;
     w_MakeRaw := fun h _ => inl (TermStateH (length h));
     w_GetSize := fun _ _ => inl (80%Z, 24%Z);
     w_RequestPty := fun _ _ => None;
     w_Shell := fun _ _ => None;
     w_Wait := fun _ _ => None;
     w_Listen := fun h a => inl (ListenerH (length h) a);
     w_Accept := fun _ _ => inr (ErrorString "use of closed network connection");
     w_Copy := fun _ _ _ => None;
     w_stdin := 0%Z |}.

Section Setters.
Variable w : World.

Definition with_cloud
  (spot : trace -> list Filter -> list SpotInstanceRequest + error)
  (inst : trace -> DescribeInstancesInput -> list Reservation + error)
  (rnd : trace -> nat) : World :=
  {| w_DescribeSpotInstanceRequests := spot;
     w_DescribeInstances := inst;
     w_rand := rnd;
     w_LoadDefaultConfig := w_LoadDefaultConfig w;
     w_GenerateKeys := w_GenerateKeys w;
     w_SendSSHPublicKey := w_SendSSHPublicKey w;
     w_ParsePrivateKey := w_ParsePrivateKey w;
     w_sshDial := w_sshDial w;
     w_clientDial := w_clientDial w;
     w_NewClientConn := w_NewClientConn w;
     w_NewSession := w_NewSession w;
     w_IsTerminal := w_IsTerminal w;
     w_MakeRaw := w_MakeRaw w;
     w_GetSize := w_GetSize w;
     w_RequestPty := w_RequestPty w;
     w_Shell := w_Shell w;
     w_Wait := w_Wait w;
     w_Listen := w_Listen w;
     w_Accept := w_Accept w;
     w_Copy := w_Copy w;
     w_stdin := w_stdin w |}.

Definition with_keys
  (push : trace -> SendSSHPublicKeyInput -> SendSSHPublicKeyOutput + error)
  (parse : string -> Signer + error) : World :=
  {| w_DescribeSpotInstanceRequests := w_DescribeSpotInstanceRequests w;
     w_DescribeInstances := w_DescribeInstances w;
     w_rand := w_rand w;
     w_LoadDefaultConfig := w_LoadDefaultConfig w;
     w_GenerateKeys := w_GenerateKeys w;
     w_SendSSHPublicKey := push;
     w_ParsePrivateKey := parse;
     w_sshDial := w_sshDial w;
     w_clientDial := w_clientDial w;
     w_NewClientConn := w_NewClientConn w;
     w_NewSession := w_NewSession w;
     w_IsTerminal := w_IsTerminal w;
     w_MakeRaw := w_MakeRaw w;
     w_GetSize := w_GetSize w;
     w_RequestPty := w_RequestPty w;
     w_Shell := w_Shell w;
     w_Wait := w_Wait w;
     w_Listen := w_Listen w;
     w_Accept := w_Accept w;
     w_Copy := w_Copy w;
     w_stdin := w_stdin w |}.

Definition with_net
  (dial : trace -> string -> ClientConfig -> Client + error)
  (cdial : trace -> Client -> string -> Conn + error)
  (hshake : trace -> Conn -> string -> ClientConfig -> ClientConn + error) : World :=
  {| w_DescribeSpotInstanceRequests := w_DescribeSpotInstanceRequests w;
     w_DescribeInstances := w_DescribeInstances w;
     w_rand := w_rand w;
     w_LoadDefaultConfig := w_LoadDefaultConfig w;
     w_GenerateKeys := w_GenerateKeys w;
     w_SendSSHPublicKey := w_SendSSHPublicKey w;
     w_ParsePrivateKey := w_ParsePrivateKey w;
     w_sshDial := dial;
     w_clientDial := cdial;
     w_NewClientConn := hshake;
     w_NewSession := w_NewSession w;
     w_IsTerminal := w_IsTerminal w;
     w_MakeRaw := w_MakeRaw w;
     w_GetSize := w_GetSize w;
     w_RequestPty := w_RequestPty w;
     w_Shell := w_Shell w;
     w_Wait := w_Wait w;
     w_Listen := w_Listen w;
     w_Accept := w_Accept w;
     w_Copy := w_Copy w;
     w_stdin := w_stdin w |}.

Definition with_terminal
  (isterm : trace -> Z -> bool)
  (shell : trace -> Session -> option error)
  (wait : trace -> Session -> option error) : World :=
  {| w_DescribeSpotInstanceRequests := w_DescribeSpotInstanceRequests w;
     w_DescribeInstances := w_DescribeInstances w;
     w_rand := w_rand w;
     w_LoadDefaultConfig := w_LoadDefaultConfig w;
     w_GenerateKeys := w_GenerateKeys w;
     w_SendSSHPublicKey := w_SendSSHPublicKey w;
     w_ParsePrivateKey := w_ParsePrivateKey w;
     w_sshDial := w_sshDial w;
     w_clientDial := w_clientDial w;
     w_NewClientConn := w_NewClientConn w;
     w_NewSession := w_NewSession w;
     w_IsTerminal := isterm;
     w_MakeRaw := w_MakeRaw w;
     w_GetSize := w_GetSize w;
     w_RequestPty := w_RequestPty w;
     w_Shell := shell;
     w_Wait := wait;
     w_Listen := w_Listen w;
     w_Accept := w_Accept w;
     w_Copy := w_Copy w;
     w_stdin := w_stdin w |}.

Definition with_tunnel
  (accept : trace -> Listener -> Conn + error)
  (copy : trace -> Conn -> Conn -> option error) : World :=
  {| w_DescribeSpotInstanceRequests := w_DescribeSpotInstanceRequests w;
     w_DescribeInstances := w_DescribeInstances w;
     w_rand := w_rand w;
     w_LoadDefaultConfig := w_LoadDefaultConfig w;
     w_GenerateKeys := w_GenerateKeys w;
     w_SendSSHPublicKey := w_SendSSHPublicKey w;
     w_ParsePrivateKey := w_ParsePrivateKey w;
     w_sshDial := w_sshDial w;
     w_clientDial := w_clientDial w;
     w_NewClientConn := w_NewClientConn w;
     w_NewSession := w_NewSession w;
     w_IsTerminal := w_IsTerminal w;
     w_MakeRaw := w_MakeRaw w;
     w_GetSize := w_GetSize w;
     w_RequestPty := w_RequestPty w;
     w_Shell := w_Shell w;
     w_Wait := w_Wait w;
     w_Listen := w_Listen w;
     w_Accept := accept;
     w_Copy := copy;
     w_stdin := w_stdin w |}.
End Setters.

Definition inst (id priv pub : string) : Instance :=
  {| InstanceId := Some id;
     PrivateIpAddress := Some priv;
     PublicIpAddress := Some pub;
     Placement_ := {| AvailabilityZone := Some "eu-west-1a" |} |}.

Definition spot (id : string) : SpotInstanceRequest := {| sir_InstanceId := Some id |}.

(** An endpoint as [NewEC2Endpoint] leaves it. *)
Definition ec2 (user id : string) (port : Z) (private : bool) (i : Instance)
  : EC2Endpoint :=
  {| InstanceID := id; Port := port; User := user;
     PrivateKey := "PRIVATE-" ++ id; PublicKey := "PUBLIC-" ++ id;
     UsePrivate := private; Instance_ := Some i |}.

End Scenario.

(** ** Observations on traces and the inputs of the scenarios *)

Open Scope list_scope.

Module Obs.

(** The two debug lines [resolveBastionInstanceID] writes. *)
Definition log_spot : event := EvLog LDebug "Looking for bastion spot request".
Definition log_direct : event :=
  EvLog LDebug "No spot requests found, looking for instance directly".

(** No spot request; two reservations tagged as bastions, the first with
    no instance in it, the second holding i-ccc; the draw selects the
    first. *)
Definition empty_reservation : World :=
  Scenario.with_cloud Scenario.calm
    (fun _ _ => inl [])
    (fun _ _ => inl [ {| Instances := [] |};
                      {| Instances := [Scenario.inst "i-ccc" "10.0.0.3" "3.3.3.3"] |} ])
    (fun _ => O).

(** The scenario of the specification: two fulfilled spot requests holding
    i-aaa and i-bbb, three running instances i-ccc, i-ddd and i-eee tagged
    alike, and any sequence of draws. *)
Definition two_spots (draws : trace -> nat) : World :=
Scenario.with_cloud Scenario.calm
  (fun _ _ => inl [Scenario.spot "i-aaa"; Scenario.spot "i-bbb"])
  (fun _ _ => inl [ {| Instances := [Scenario.inst "i-ccc" "10.0.0.3" "3.3.3.3";
                                     Scenario.inst "i-ddd" "10.0.0.4" "4.4.4.4"] |};
                    {| Instances := [Scenario.inst "i-eee" "10.0.0.5" "5.5.5.5"] |} ])
  draws.

(** The request [sendPublicKey] sends for endpoint [e] on instance [i]. *)
Definition push_input (e : EC2Endpoint) (i : Instance) : SendSSHPublicKeyInput :=
{| sk_AvailabilityZone := AvailabilityZone (Placement_ i);
   sk_InstanceId := InstanceId i;
   sk_InstanceOSUser := Some (User e);
   sk_SSHPublicKey := Some (PublicKey e) |}.

(** How many key pushes a trace holds. *)
Fixpoint pushes (tr : trace) : nat :=
match tr with
| [] => 0
| EvSendSSHPublicKey _ :: tr => S (pushes tr)
| _ :: tr => pushes tr
end.

(** The address [String] is to return for [e] on instance [i]. *)
Definition selected_address (e : EC2Endpoint) (i : Instance) : string :=
((if UsePrivate e then aws_ToString (PrivateIpAddress i)
  else aws_ToString (PublicIpAddress i)) ++ ":" ++ itoa (Port e))%string.

(** The debug line of [sendPublicKey] on a throttling answer. *)
Definition log_throttled : event :=
EvLog LDebug "Got throttling exception, usually just means the key is already valid".

(** A world whose key push is throttled, as the SDK reports it: the service
    error wrapped in an operation error. *)
Definition throttled : World :=
Scenario.with_keys Scenario.calm
  (fun _ _ => inr (WrapError
     "operation error EC2 Instance Connect: SendSSHPublicKey, ThrottlingException: Rate exceeded"
     (ThrottlingException "Rate exceeded")))
  (fun k => inl (SignerOf k)).

(** A world whose key push is refused. *)
Definition denied : World :=
Scenario.with_keys Scenario.calm
  (fun _ _ => inr (ErrorString "AccessDeniedException: not authorized"))
  (fun k => inl (SignerOf k)).

(** A bastion and an inner host. *)
Definition bastion : EC2Endpoint :=
Scenario.ec2 "ec2-user" "i-aaa" 22 false (Scenario.inst "i-aaa" "10.0.0.1" "1.1.1.1").
Definition inner : EC2Endpoint :=
Scenario.ec2 "ec2-user" "i-bbb" 22 true (Scenario.inst "i-bbb" "10.0.0.2" "2.2.2.2").

(** The events that build a connection: the direct dial with its
    handshake, the dial through a client, the handshake over such a dial. *)
Definition is_conn (e : event) : bool :=
match e with
| EvSshDial _ _ _ _ | EvClientDial _ _ _ _ | EvNewClientConn _ _ _ _ => true
| _ => false
end.

Definition conns (tr : trace) : list event := filter is_conn tr.

Definition is_session (e : event) : bool :=
match e with EvNewSession _ => true | _ => false end.

Definition sessions (tr : trace) : list event := filter is_session tr.

Definition directs (tr : trace) : nat :=
length (filter (fun e => match e with EvSshDial _ _ _ _ => true | _ => false end) tr).

Definition nested_dials (tr : trace) : nat :=
length (filter (fun e => match e with EvClientDial _ _ _ _ => true | _ => false end) tr).

Definition nested_handshakes (tr : trace) : nat :=
length (filter (fun e => match e with EvNewClientConn _ _ _ _ => true | _ => false end) tr).

(** The events that touch no connection, session, listener, goroutine or
    terminal: log lines, key pushes, cloud queries, draws. *)
Definition passive (e : event) : bool :=
match e with
| EvLog _ _ | EvSendSSHPublicKey _ | EvDescribeInstances _
| EvDescribeSpotInstanceRequests _ | EvIntn _ | EvGenerateKeys
| EvLoadDefaultConfig _ => true
| _ => false
end.

(** An endpoint whose address resolution extends the trace by passive
    events only: it neither dials nor opens a session nor starts
    anything. *)
Definition quiet (ep : EndpointIface) : Prop :=
forall h, exists evs,
  snd (ep_String ep h) = h ++ evs /\ forallb passive evs = true.

(** [chain prev hops ds last]: the connection events [ds] connect the hops
    (address and auth configuration, in order) one through the other,
    starting from the client [prev] if there is one, and end with the
    client [last].  Without a previous client the hop is dialed directly;
    with one, it is dialed through that client and the handshake runs over
    the resulting channel. *)
Inductive chain :
  option Client -> list (string * ClientConfig) -> list event -> option Client -> Prop :=
| chain_done prev : chain prev [] [] prev
| chain_direct addr cfg c hops ds last :
    chain (Some c) hops ds last ->
    chain None ((addr, cfg) :: hops)
          (EvSshDial "tcp" addr cfg (inl c) :: ds) last
| chain_nested p addr cfg conn ncc hops ds last :
    chain (Some (NewClient ncc)) hops ds last ->
    chain (Some p) ((addr, cfg) :: hops)
          (EvClientDial p "tcp" addr (inl conn)
             :: EvNewClientConn conn addr cfg (inl ncc) :: ds) last.

(** The panic message of a nil dereference. *)
Definition nil_deref : string := "invalid memory address or nil pointer dereference".

(** What ties a hop to its endpoint: the auth configuration is the one the
    endpoint produced, the address is one its resolution returned. *)
Definition hop_of (ep : EndpointIface) (hop : string * ClientConfig) : Prop :=
ep_GetSSHConfig ep = (Some (snd hop), None)
/\ exists hi, fst (ep_String ep hi) = Ok (fst hop).

(** An endpoint whose auth configuration is built: [GetSSHConfig] returns
    a configuration and no error. *)
Definition configured (ep : EndpointIface) : Prop :=
exists cfg, ep_GetSSHConfig ep = (Some cfg, None).

(** The error [Connect] returns for a failed connection event. *)
Definition report (ev : event) : option error :=
match ev with
| EvSshDial _ _ _ (inr e) | EvClientDial _ _ _ (inr e) =>
    Some (ErrorString ("failed to dial: " ++ Error e)%string)
| EvNewClientConn _ a _ (inr e) =>
    Some (ErrorString ("failed to create new ssh connection to " ++ a ++ ": "
                         ++ Error e)%string)
| _ => None
end.

(** The first connection event that was answered with an error. *)
Fixpoint first_failed (tr : trace) : option event :=
match tr with
| [] => None
| EvSshDial n a c (inr e) :: _ => Some (EvSshDial n a c (inr e))
| EvClientDial p n a (inr e) :: _ => Some (EvClientDial p n a (inr e))
| EvNewClientConn k a c (inr e) :: _ => Some (EvNewClientConn k a c (inr e))
| _ :: tr => first_failed tr
end.

(** The address a connection event was aimed at. *)
Definition target (e : event) : option string :=
match e with
| EvSshDial _ a _ _ | EvClientDial _ _ a _ | EvNewClientConn _ a _ _ => Some a
| _ => None
end.

(** C4 as the specification states it, for a run of [Connect] from the
    empty trace: when a dial or handshake fails, [Connect] returns an error
    whose text carries the address of the failed hop, and no session is
    opened. *)
Definition failure_carries_address (w : World) (eps : list EndpointIface) : Prop :=
forall ev addr,
  first_failed (snd (Connect w eps [])) = Some ev ->
  target ev = Some addr ->
  exists err,
    fst (Connect w eps []) = Ok (Some err)
    /\ contains (Error err) addr = true
    /\ sessions (snd (Connect w eps [])) = [].

(** A world in which the bastion refuses the key: the handshake of the
    direct dial fails. *)
Definition refused : World :=
Scenario.with_net Scenario.calm
  (fun _ _ _ => inr (ErrorString
     "ssh: handshake failed: ssh: unable to authenticate, attempted methods [none publickey], no supported methods remain"))
  (fun h _ _ => inl (ConnH (length h)))
  (fun h _ _ _ => inl (ClientConnH (length h))).

(** A world in which the handshake with an inner host fails. *)
Definition inner_refused : World :=
Scenario.with_net Scenario.calm
  (fun h _ _ => inl (ClientH (length h)))
  (fun h _ _ => inl (ConnH (length h)))
  (fun _ _ _ _ => inr (ErrorString "ssh: handshake failed: EOF")).

Definition TermState_eqb (a b : TermState) : bool :=
match a, b with TermStateH x, TermStateH y => Nat.eqb x y end.

(** The mode of the terminal after a trace: [Some (fd, st)] when descriptor
    [fd] was switched to raw mode and the state [st] it had before has not
    been restored since. *)
Fixpoint raw_after (raw : option (Z * TermState)) (tr : trace) : option (Z * TermState) :=
match tr with
| [] => raw
| EvMakeRaw fd (inl st) :: tr => raw_after (Some (fd, st)) tr
| EvRestore fd st :: tr =>
    match raw with
    | Some (fd', st') =>
        if (fd =? fd')%Z && TermState_eqb st st' then raw_after None tr
        else raw_after raw tr
    | None => raw_after None tr
    end
| _ :: tr => raw_after raw tr
end.

(** Switches to raw mode and pseudo-terminal requests in a trace. *)
Definition is_tty_setup (e : event) : bool :=
match e with
| EvMakeRaw _ _ | EvRequestPty _ _ _ _ _ => true
| _ => false
end.

(** A world with a terminal on standard input, 120 columns by 40 rows, in
    which the remote side refuses to start a shell. *)
Definition no_shell : World :=
Scenario.with_terminal
  {| w_DescribeSpotInstanceRequests := w_DescribeSpotInstanceRequests Scenario.calm;
     w_DescribeInstances := w_DescribeInstances Scenario.calm;
     w_rand := w_rand Scenario.calm;
     w_LoadDefaultConfig := w_LoadDefaultConfig Scenario.calm;
     w_GenerateKeys := w_GenerateKeys Scenario.calm;
     w_SendSSHPublicKey := w_SendSSHPublicKey Scenario.calm;
     w_ParsePrivateKey := w_ParsePrivateKey Scenario.calm;
     w_sshDial := w_sshDial Scenario.calm;
     w_clientDial := w_clientDial Scenario.calm;
     w_NewClientConn := w_NewClientConn Scenario.calm;
     w_NewSession := w_NewSession Scenario.calm;
     w_IsTerminal := w_IsTerminal Scenario.calm;
     w_MakeRaw := fun _ _ => inl (TermStateH 7);
     w_GetSize := fun _ _ => inl (120%Z, 40%Z);
     w_RequestPty := w_RequestPty Scenario.calm;
     w_Shell := w_Shell Scenario.calm;
     w_Wait := w_Wait Scenario.calm;
     w_Listen := w_Listen Scenario.calm;
     w_Accept := w_Accept Scenario.calm;
     w_Copy := w_Copy Scenario.calm;
     w_stdin := 0%Z |}
  (fun _ _ => true)
  (fun _ _ => Some (ErrorString "ssh: could not start shell"))
  (fun _ _ => None).

(** A world that knows instance i-aaa and in which the private key of an
    endpoint does not parse. *)
Definition bad_key : World :=
Scenario.with_keys
  (Scenario.with_cloud Scenario.calm
     (fun _ _ => inl [])
     (fun _ _ => inl [ {| Instances := [Scenario.inst "i-aaa" "10.0.0.1" "1.1.1.1"] |} ])
     (fun _ => O))
  (fun _ _ => inl {| Success := true; RequestId := None |})
  (fun _ => inr (ErrorString "ssh: no key found")).

(** A stand-in for [sshutils.NewEndpoint]: the host is the string given, so
    that no tunnel is asked for when the flag is empty. *)
Definition plain_endpoint (s : string) : Endpoint :=
{| Host := s; EPort := 0%Z;
   Endpoint_iface := {| ep_String := ret s; ep_GetSSHConfig := (None, None) |} |}.

(** amz-ssh -i i-aaa *)
Definition to_bastion : Context :=
{| c_debug := false; c_tag := "role:bastion"; c_region := "";
   c_instance_id := "i-aaa"; c_user := "ec2-user"; c_port := 22%Z;
   c_tunnel := ""; c_local_port := 0%Z; c_args := [] |}.

End Obs.
Import Obs.

(** ** The tunnel as a system of goroutines

    [Tunnel] starts one goroutine per accepted connection and [forward]
    starts two more for the copies.  The goroutines share nothing but the
    outside, so the system is modelled by interleaving: a configuration
    holds the trace, the goroutines started and not yet run, and what the
    accept loop is doing; a step is one round of the accept loop or the run
    of one pending goroutine, in any order. *)

Module Sched.

(** The goroutines started within a stretch of trace. *)
Definition spawned (evs : trace) : list Goroutine :=
flat_map (fun e => match e with EvGo g => [g] | _ => [] end) evs.

Definition is_forward (g : Goroutine) : bool :=
match g with GoForward _ => true | _ => false end.

(** Goroutines of [forward] started within a trace. *)
Definition forwards (tr : trace) : nat := length (filter is_forward (spawned tr)).

(** The connections [Accept] returned within a trace, in order. *)
Definition accepted_conns (tr : trace) : list Conn :=
flat_map (fun e => match e with EvAccept _ (inl c) => [c] | _ => [] end) tr.

(** How many connections were accepted within a trace. *)
Definition accepted (tr : trace) : nat := length (accepted_conns tr).

(** Calls of [Close] on a connection or on an SSH client within a trace. *)
Definition conn_closes (tr : trace) : list event :=
filter (fun e => match e with EvConnClose _ | EvClientClose _ => true | _ => false end) tr.

(** Goroutines of [forward] started and not yet run. *)
Definition pending_forwards (pool : list Goroutine) : nat :=
length (filter is_forward pool).

(** Listeners closed within a trace. *)
Definition closes (tr : trace) : list event :=
filter (fun e => match e with EvListenerClose _ => true | _ => false end) tr.

Inductive status :=
| Accepting (l : Listener)      (* the accept loop of [Tunnel] is running *)
| Stopped (err : option error)  (* [Tunnel] returned *)
| Ended (code : option Z).      (* a goroutine ended the process: [os.Exit], or a panic *)

Record config := {
  c_trace : trace;
  c_pool : list Goroutine;
  c_status : status
}.

Section WithTunnel.
Variable w : World.
Variables remoteHost bastionHost : EndpointIface.

Inductive step : config -> config -> Prop :=
| step_accept l tr pool r evs :
    Tunnel_loop w 1 l tr = (Ok r, tr ++ evs) ->
    step {| c_trace := tr; c_pool := pool; c_status := Accepting l |}
         {| c_trace := tr ++ evs;
            c_pool := pool ++ spawned evs;
            c_status := match r with
                        | StillRunning => Accepting l
                        | Returned err => Stopped err
                        end |}
| step_go l tr pool1 g pool2 r evs :
    run_goroutine w remoteHost bastionHost g tr = (r, tr ++ evs) ->
    step {| c_trace := tr; c_pool := pool1 ++ g :: pool2; c_status := Accepting l |}
         {| c_trace := tr ++ evs;
            c_pool := pool1 ++ pool2 ++ spawned evs;
            c_status := match r with
                        | Ok _ => Accepting l
                        | Exit code => Ended (Some code)
                        | Panic _ => Ended None
                        end |}.

Inductive steps : config -> config -> Prop :=
| steps_refl c : steps c c
| steps_step c1 c2 c3 : steps c1 c2 -> step c2 c3 -> steps c1 c3.

(** A scheduler that can be run: it takes the steps a script chooses, one
    round of the accept loop or the pending goroutine at a position. *)
Inductive choice := Accept | Go (i : nat).

Definition sched1 (ch : choice) (c : config) : option config :=
match c_status c, ch with
| Accepting l, Accept =>
    match Tunnel_loop w 1 l (c_trace c) with
    | (Ok r, tr') =>
        Some {| c_trace := tr';
                c_pool := c_pool c ++ spawned (skipn (length (c_trace c)) tr');
                c_status := match r with
                            | StillRunning => Accepting l
                            | Returned err => Stopped err
                            end |}
    | _ => None
    end
| Accepting l, Go i =>
    match nth_error (c_pool c) i with
    | Some g =>
        let '(r, tr') := run_goroutine w remoteHost bastionHost g (c_trace c) in
        Some {| c_trace := tr';
                c_pool := firstn i (c_pool c) ++ skipn (S i) (c_pool c)
                            ++ spawned (skipn (length (c_trace c)) tr');
                c_status := match r with
                            | Ok _ => Accepting l
                            | Exit code => Ended (Some code)
                            | Panic _ => Ended None
                            end |}
    | None => None
    end
| _, _ => None
end.

Fixpoint sched (script : list choice) (c : config) : option config :=
match script with
| [] => Some c
| ch :: script =>
    match sched1 ch c with
    | Some c' => sched script c'
    | None => None
    end
end.

End WithTunnel.

(** A goroutine met a failure of its own: a dial, handshake or channel
    open was answered with an error within its events, or it is a copy
    and the copy returned an error. *)
Definition failed_in (w : World) (g : Goroutine) (tr evs : trace) : Prop :=
first_failed evs <> None
\/ exists writer reader err, g = GoCopyConn writer reader /\ w_Copy w tr writer reader = Some err.

(** C6 as the specification states it, for the part that a failure tears
    the offending connection down: when the dial, handshake or channel
    open of the goroutine of a connection was answered with an error, the
    connection has been closed by the time the goroutine ends. *)
Definition failure_tears_down (w : World) (remoteHost bastionHost : EndpointIface) : Prop :=
forall localConn tr evs,
  snd (forward w remoteHost bastionHost localConn tr) = tr ++ evs ->
  first_failed evs <> None ->
  In (EvConnClose localConn) evs.

(** The tunnel target 10.1.2.3:5432 as an endpoint that resolves without
    any effect. *)
Definition target_endpoint : EndpointIface :=
{| ep_String := ret "10.1.2.3:5432"%string; ep_GetSSHConfig := (None, None) |}.

(** How often [Accept] was called within a trace. *)
Definition accepts (tr : trace) : nat :=
length (filter (fun e => match e with EvAccept _ _ => true | _ => false end) tr).

(** A world in which two clients connect to the local port and the
    listener then fails. *)
Definition two_clients : World :=
Scenario.with_tunnel Scenario.calm
  (fun tr _ =>
     if (accepts tr <? 2)%nat then inl (ConnH (100 + accepts tr))
     else inr (ErrorString "accept tcp 127.0.0.1:5432: use of closed network connection"))
  (fun _ _ _ => None).

End Sched.
Import Sched.

(** ** Further observations, for the properties beyond the specification *)

From Stdlib Require DecimalPos.

Module Obs2.

(** Cloud queries and draws within a trace. *)
Definition spot_queries (tr : trace) : nat :=
length (filter (fun e => match e with EvDescribeSpotInstanceRequests _ => true | _ => false end) tr).

Definition instance_queries (tr : trace) : nat :=
length (filter (fun e => match e with EvDescribeInstances _ => true | _ => false end) tr).

Definition draws (tr : trace) : nat :=
length (filter (fun e => match e with EvIntn _ => true | _ => false end) tr).

(** The filters of the spot query and the input of the running-instances
    query for a tag, as [getSpotRequestByTag] and [getInstanceByTag] build
    them. *)
Definition spot_filters (tagName tagValue : string) : list Filter :=
[ {| Name := Some ("tag:" ++ tagName)%string; Values := [tagValue] |};
  {| Name := Some "state"%string; Values := ["active"%string] |};
  {| Name := Some "status-code"%string; Values := ["fulfilled"%string] |} ].

Definition running_input (tagName tagValue : string) : DescribeInstancesInput :=
{| di_Filters :=
     [ {| Name := Some ("tag:" ++ tagName)%string; Values := [tagValue] |};
       {| Name := Some "instance-state-name"%string; Values := ["running"%string] |} ];
   di_InstanceIds := [] |}.

(** The events of the resolver: its two debug lines, the spot query and
    the running-instances query for the tag, and draws. *)
Definition resolver_event (tagName tagValue : string) (e : event) : Prop :=
match e with
| EvLog lvl msg => EvLog lvl msg = log_spot \/ EvLog lvl msg = log_direct
| EvDescribeSpotInstanceRequests f => f = spot_filters tagName tagValue
| EvDescribeInstances i => i = running_input tagName tagValue
| EvIntn _ => True
| _ => False
end.

(** The error of a resolver that found nothing. *)
Definition not_found : error := ErrorString "unable to find any valid bastion instances".

(** Whether the byte [c] occurs in [s]. *)
Fixpoint has (c : ascii) (s : string) : bool :=
match s with
| EmptyString => false
| String x rest => Ascii.eqb x c || has c rest
end.

(** A port text that [strconv.Atoi] rejects at its first byte: empty, or
    starting with a byte that is neither a digit nor a sign. *)
Definition not_a_number (p : string) : bool :=
match p with
| EmptyString => true
| String c _ =>
    match digit_of c with
    | Some _ => false
    | None => negb (Ascii.eqb c "-"%char) && negb (Ascii.eqb c "+"%char)
    end
end.

(** The lookup of one instance by id, as [getEC2Instance] sends it. *)
Definition lookup_input (id : string) : DescribeInstancesInput :=
{| di_Filters := []; di_InstanceIds := [id] |}.

(** A world in which the key of the bastion parses and the key of the
    inner host does not. *)
Definition inner_bad_key : World :=
Scenario.with_keys Scenario.calm
  (fun _ _ => inl {| Success := true; RequestId := None |})
  (fun k => if String.eqb k "PRIVATE-i-bbb" then inr (ErrorString "ssh: no key found")
            else inl (SignerOf k)).

(** A world with a terminal of 120 columns and 40 rows on standard input,
    in which the remote shell ends with status 3. *)
Definition shell_exits_3 : World :=
Scenario.with_terminal no_shell
  (fun _ _ => true)
  (fun _ _ => None)
  (fun _ _ => Some (ExitError 3 "Process exited with status 3")).

(** The same without a terminal. *)
Definition piped_exits_3 : World :=
Scenario.with_terminal Scenario.calm
  (fun _ _ => false)
  (fun _ _ => None)
  (fun _ _ => Some (ExitError 3 "Process exited with status 3")).

(** A world with a terminal that cannot be switched to raw mode. *)
Definition raw_fails : World :=
{| w_DescribeSpotInstanceRequests := w_DescribeSpotInstanceRequests Scenario.calm;
   w_DescribeInstances := w_DescribeInstances Scenario.calm;
   w_rand := w_rand Scenario.calm;
   w_LoadDefaultConfig := w_LoadDefaultConfig Scenario.calm;
   w_GenerateKeys := w_GenerateKeys Scenario.calm;
   w_SendSSHPublicKey := w_SendSSHPublicKey Scenario.calm;
   w_ParsePrivateKey := w_ParsePrivateKey Scenario.calm;
   w_sshDial := w_sshDial Scenario.calm;
   w_clientDial := w_clientDial Scenario.calm;
   w_NewClientConn := w_NewClientConn Scenario.calm;
   w_NewSession := w_NewSession Scenario.calm;
   w_IsTerminal := fun _ _ => true;
   w_MakeRaw := fun _ _ => inr (ErrorString "inappropriate ioctl for device");
   w_GetSize := w_GetSize Scenario.calm;
   w_RequestPty := w_RequestPty Scenario.calm;
   w_Shell := w_Shell Scenario.calm;
   w_Wait := w_Wait Scenario.calm;
   w_Listen := w_Listen Scenario.calm;
   w_Accept := w_Accept Scenario.calm;
   w_Copy := w_Copy Scenario.calm;
   w_stdin := 0%Z |}.

(** A world that knows the bastion i-aaa, has no terminal on standard
    input, and in which the remote shell ends with status 3. *)
Definition remote_exits_3 : World :=
Scenario.with_terminal
  (Scenario.with_cloud Scenario.calm
     (fun _ _ => inl [])
     (fun _ _ => inl [ {| Instances := [Scenario.inst "i-aaa" "10.0.0.1" "1.1.1.1"] |} ])
     (fun _ => O))
  (fun _ _ => false)
  (fun _ _ => None)
  (fun _ _ => Some (ExitError 3 "Process exited with status 3")).

(** The same where the remote shell reports status 256. *)
Definition remote_exits_256 : World :=
Scenario.with_terminal
  (Scenario.with_cloud Scenario.calm
     (fun _ _ => inl [])
     (fun _ _ => inl [ {| Instances := [Scenario.inst "i-aaa" "10.0.0.1" "1.1.1.1"] |} ])
     (fun _ => O))
  (fun _ _ => false)
  (fun _ _ => None)
  (fun _ _ => Some (ExitError 256 "Process exited with status 256")).

(** The status the parent of the process reads for what [run] returned:
    [main] hands the status of an [ssh.ExitError] to [os.Exit], of which
    the low eight bits arrive. *)
Definition status_of (err : option error) : Z :=
match err with
| None => 0%Z
| Some (ExitError status _) => (status mod 256)%Z
| Some _ => 1%Z
end.

(** How often the byte [c] occurs in [s]. *)
Fixpoint count_byte (c : ascii) (s : string) : nat :=
match s with
| EmptyString => O
| String x rest => (if Ascii.eqb x c then 1 else 0) + count_byte c rest
end.

(** An endpoint whose address is read without any effect. *)
Definition effect_free (ep : EndpointIface) : Prop :=
forall h, snd (ep_String ep h) = h.

(** The error line [forward] logs when the bastion has no auth
    configuration. *)
Definition config_log (ep : EndpointIface) : trace :=
match snd (ep_GetSSHConfig ep) with
| Some e => [EvLog LError (Error e)]
| None => []
end.

(** What is left of a computation that did not return. *)
Definition abort {A B : Type} (r : Res A) : option (Res B) :=
match r with
| Ok _ => None
| Exit c => Some (Exit c)
| Panic s => Some (Panic s)
end.

(** amz-ssh --tag zone:eu:west -i i-aaa *)
Definition two_colons : Context :=
{| c_debug := false; c_tag := "zone:eu:west"; c_region := "";
   c_instance_id := "i-aaa"; c_user := "ec2-user"; c_port := 22%Z;
   c_tunnel := ""; c_local_port := 0%Z; c_args := [] |}.

(** A world in which the SDK configuration cannot be loaded. *)
Definition no_sdk_config : World :=
{| w_DescribeSpotInstanceRequests := w_DescribeSpotInstanceRequests Scenario.calm;
   w_DescribeInstances := w_DescribeInstances Scenario.calm;
   w_rand := w_rand Scenario.calm;
   w_LoadDefaultConfig := fun _ => Some (ErrorString "failed to load shared config");
   w_GenerateKeys := w_GenerateKeys Scenario.calm;
   w_SendSSHPublicKey := w_SendSSHPublicKey Scenario.calm;
   w_ParsePrivateKey := w_ParsePrivateKey Scenario.calm;
   w_sshDial := w_sshDial Scenario.calm;
   w_clientDial := w_clientDial Scenario.calm;
   w_NewClientConn := w_NewClientConn Scenario.calm;
   w_NewSession := w_NewSession Scenario.calm;
   w_IsTerminal := w_IsTerminal Scenario.calm;
   w_MakeRaw := w_MakeRaw Scenario.calm;
   w_GetSize := w_GetSize Scenario.calm;
   w_RequestPty := w_RequestPty Scenario.calm;
   w_Shell := w_Shell Scenario.calm;
   w_Wait := w_Wait Scenario.calm;
   w_Listen := w_Listen Scenario.calm;
   w_Accept := w_Accept Scenario.calm;
   w_Copy := w_Copy Scenario.calm;
   w_stdin := w_stdin Scenario.calm |}.

Section Resolution.
Variable w : World.
Variables tagName tagValue : string.

(** The six ways a run of the resolver ends, with the answers that lead
    there. *)
Inductive resolved (h : trace) : Res (string * option error) -> trace -> Prop :=
| res_spot_error err :
    let f := spot_filters tagName tagValue in
    w_DescribeSpotInstanceRequests w (h ++ [log_spot]) f = inr err ->
    resolved h (Ok (""%string, Some err))
             (h ++ [log_spot; EvDescribeSpotInstanceRequests f])
| res_spot (srs : list SpotInstanceRequest) r :
    let f := spot_filters tagName tagValue in
    w_DescribeSpotInstanceRequests w (h ++ [log_spot]) f = inl srs ->
    In r srs ->
    resolved h (Ok (aws_ToString (sir_InstanceId r), None))
             (h ++ [log_spot; EvDescribeSpotInstanceRequests f; EvIntn (length srs)])
| res_instances_error err :
    let f := spot_filters tagName tagValue in
    let i := running_input tagName tagValue in
    w_DescribeSpotInstanceRequests w (h ++ [log_spot]) f = inl [] ->
    w_DescribeInstances w (h ++ [log_spot; EvDescribeSpotInstanceRequests f; log_direct]) i
    = inr err ->
    resolved h (Ok (""%string, Some err))
             (h ++ [log_spot; EvDescribeSpotInstanceRequests f; log_direct;
                    EvDescribeInstances i])
| res_not_found :
    let f := spot_filters tagName tagValue in
    let i := running_input tagName tagValue in
    w_DescribeSpotInstanceRequests w (h ++ [log_spot]) f = inl [] ->
    w_DescribeInstances w (h ++ [log_spot; EvDescribeSpotInstanceRequests f; log_direct]) i
    = inl [] ->
    resolved h (Ok (""%string, Some not_found))
             (h ++ [log_spot; EvDescribeSpotInstanceRequests f; log_direct;
                    EvDescribeInstances i])
| res_running (rs : list Reservation) res inst :
    let f := spot_filters tagName tagValue in
    let i := running_input tagName tagValue in
    w_DescribeSpotInstanceRequests w (h ++ [log_spot]) f = inl [] ->
    w_DescribeInstances w (h ++ [log_spot; EvDescribeSpotInstanceRequests f; log_direct]) i
    = inl rs ->
    In res rs -> In inst (Instances res) ->
    resolved h (Ok (aws_ToString (InstanceId inst), None))
             (h ++ [log_spot; EvDescribeSpotInstanceRequests f; log_direct;
                    EvDescribeInstances i; EvIntn (length rs);
                    EvIntn (length (Instances res))])
| res_panic (rs : list Reservation) res :
    let f := spot_filters tagName tagValue in
    let i := running_input tagName tagValue in
    w_DescribeSpotInstanceRequests w (h ++ [log_spot]) f = inl [] ->
    w_DescribeInstances w (h ++ [log_spot; EvDescribeSpotInstanceRequests f; log_direct]) i
    = inl rs ->
    In res rs -> Instances res = [] ->
    resolved h (Panic "invalid argument to Intn")
             (h ++ [log_spot; EvDescribeSpotInstanceRequests f; log_direct;
                    EvDescribeInstances i; EvIntn (length rs)]).

End Resolution.

Section Forwarding.
Variable w : World.
Variables remoteHost bastionHost : EndpointIface.

(** The ways [forward] ends once the bastion is dialed: [relayed localConn
    serverConn h2 res evs] when, from the trace [h2] on, it ends with [res]
    after the events [evs]. *)
Inductive relayed (localConn : Conn) (serverConn : Client) (h2 : trace)
  : Res unit -> trace -> Prop :=
| rl_no_address e3 r3 res :
    ep_String bastionHost h2 = (r3, h2 ++ e3) -> forallb passive e3 = true ->
    abort r3 = Some res ->
    relayed localConn serverConn h2 res e3
| rl_no_remote_address e3 addr' e5 r5 res :
    let log1 := EvLog LDebug ("connected to " ++ addr' ++ " (1 of 2)")%string in
    let h4 := (h2 ++ e3) ++ [log1] in
    ep_String bastionHost h2 = (Ok addr', h2 ++ e3) -> forallb passive e3 = true ->
    ep_String remoteHost h4 = (r5, h4 ++ e5) -> forallb passive e5 = true ->
    abort r5 = Some res ->
    relayed localConn serverConn h2 res (e3 ++ [log1] ++ e5)
| rl_dial_failed e3 addr' e5 raddr e :
    let log1 := EvLog LDebug ("connected to " ++ addr' ++ " (1 of 2)")%string in
    let h4 := (h2 ++ e3) ++ [log1] in
    let h5 := h4 ++ e5 in
    ep_String bastionHost h2 = (Ok addr', h2 ++ e3) -> forallb passive e3 = true ->
    ep_String remoteHost h4 = (Ok raddr, h5) -> forallb passive e5 = true ->
    w_clientDial w h5 serverConn raddr = inr e ->
    relayed localConn serverConn h2 (Ok tt)
      (e3 ++ [log1] ++ e5
         ++ [EvClientDial serverConn "tcp" raddr (inr e);
             EvLog LError ("remote dial error err=" ++ Error e)%string])
| rl_no_remote_address_again e3 addr' e5 raddr remoteConn e7 r7 res :
    let log1 := EvLog LDebug ("connected to " ++ addr' ++ " (1 of 2)")%string in
    let h4 := (h2 ++ e3) ++ [log1] in
    let h5 := h4 ++ e5 in
    let h6 := h5 ++ [EvClientDial serverConn "tcp" raddr (inl remoteConn)] in
    ep_String bastionHost h2 = (Ok addr', h2 ++ e3) -> forallb passive e3 = true ->
    ep_String remoteHost h4 = (Ok raddr, h5) -> forallb passive e5 = true ->
    w_clientDial w h5 serverConn raddr = inl remoteConn ->
    ep_String remoteHost h6 = (r7, h6 ++ e7) -> forallb passive e7 = true ->
    abort r7 = Some res ->
    relayed localConn serverConn h2 res
      (e3 ++ [log1] ++ e5
         ++ [EvClientDial serverConn "tcp" raddr (inl remoteConn)] ++ e7)
| rl_copying e3 addr' e5 raddr remoteConn e7 raddr' :
    let log1 := EvLog LDebug ("connected to " ++ addr' ++ " (1 of 2)")%string in
    let h4 := (h2 ++ e3) ++ [log1] in
    let h5 := h4 ++ e5 in
    let h6 := h5 ++ [EvClientDial serverConn "tcp" raddr (inl remoteConn)] in
    ep_String bastionHost h2 = (Ok addr', h2 ++ e3) -> forallb passive e3 = true ->
    ep_String remoteHost h4 = (Ok raddr, h5) -> forallb passive e5 = true ->
    w_clientDial w h5 serverConn raddr = inl remoteConn ->
    ep_String remoteHost h6 = (Ok raddr', h6 ++ e7) -> forallb passive e7 = true ->
    relayed localConn serverConn h2 (Ok tt)
      (e3 ++ [log1] ++ e5
         ++ [EvClientDial serverConn "tcp" raddr (inl remoteConn)] ++ e7
         ++ [EvLog LDebug ("connected to " ++ raddr' ++ " (2 of 2)")%string;
             EvGo (GoCopyConn localConn remoteConn);
             EvGo (GoCopyConn remoteConn localConn)]).

(** The ways a run of [forward] from the trace [h] ends. *)
Inductive forwarded (localConn : Conn) (h : trace) : Res unit -> trace -> Prop :=
| fw_no_address e1 r1 res :
    let h0 := h ++ config_log bastionHost in
    ep_String bastionHost h0 = (r1, h0 ++ e1) -> forallb passive e1 = true ->
    abort r1 = Some res ->
    forwarded localConn h res (config_log bastionHost ++ e1)
| fw_no_config e1 addr :
    let h0 := h ++ config_log bastionHost in
    ep_String bastionHost h0 = (Ok addr, h0 ++ e1) -> forallb passive e1 = true ->
    fst (ep_GetSSHConfig bastionHost) = None ->
    forwarded localConn h (Panic nil_deref) (config_log bastionHost ++ e1)
| fw_dial_failed e1 addr c e :
    let h0 := h ++ config_log bastionHost in
    let h1 := h0 ++ e1 in
    ep_String bastionHost h0 = (Ok addr, h1) -> forallb passive e1 = true ->
    fst (ep_GetSSHConfig bastionHost) = Some c ->
    w_sshDial w h1 addr c = inr e ->
    forwarded localConn h (Ok tt)
      (config_log bastionHost ++ e1
         ++ [EvSshDial "tcp" addr c (inr e);
             EvLog LError ("server dial error err=" ++ Error e)%string])
| fw_dialed e1 addr c serverConn res evs :
    let h0 := h ++ config_log bastionHost in
    let h1 := h0 ++ e1 in
    let h2 := h1 ++ [EvSshDial "tcp" addr c (inl serverConn)] in
    ep_String bastionHost h0 = (Ok addr, h1) -> forallb passive e1 = true ->
    fst (ep_GetSSHConfig bastionHost) = Some c ->
    w_sshDial w h1 addr c = inl serverConn ->
    relayed localConn serverConn h2 res evs ->
    forwarded localConn h res
      (config_log bastionHost ++ e1
         ++ [EvSshDial "tcp" addr c (inl serverConn)] ++ evs).

End Forwarding.

End Obs2.
Import Obs2.

(** * Properties *)

(** ** Generic facts about computations *)

Section EffFacts.

Lemma bind_ok {A B} (m : M A) (k : A -> M B) h a h' :
  m h = (Ok a, h') -> bind m k h = k a h'.
Proof. intros E. unfold bind. now rewrite E. Qed.

Lemma bind_exit {A B} (m : M A) (k : A -> M B) h c h' :
  m h = (Exit c, h') -> bind m k h = (Exit c, h').
Proof. intros E. unfold bind. now rewrite E. Qed.

Lemma bind_panic {A B} (m : M A) (k : A -> M B) h s h' :
  m h = (Panic s, h') -> bind m k h = (Panic s, h').
Proof. intros E. unfold bind. now rewrite E. Qed.

Lemma index_in {A} (xs : list A) i h :
  i < length xs ->
  exists x, nth_error xs i = Some x /\ In x xs /\ index xs i h = (Ok x, h).
Proof.
  intros Hi. destruct (nth_error xs i) as [x|] eqn:E.
  - exists x. split; [reflexivity|]. split; [eapply nth_error_In; eauto|].
    unfold index. now rewrite E.
  - apply nth_error_None in E. lia.
Qed.

Lemma rand_Intn_pos w n h :
  n <> 0 ->
  rand_Intn w n h = (Ok (w_rand w h mod n), (h ++ [EvIntn n])%list)
  /\ w_rand w h mod n < n.
Proof.
  intros Hn. split.
  - destruct n; [congruence|reflexivity].
  - apply Nat.mod_upper_bound; assumption.
Qed.

End EffFacts.

(** ** The instance resolver *)

Section Resolver.
Variable w : World.
Variables tagName tagValue : string.

Lemma length_pos_ltb {A} (xs : list A) : xs <> [] -> (0 <? length xs)%nat = true.
Proof. destruct xs; [congruence|reflexivity]. Qed.

(** A non-empty answer to the spot query settles the id: it is the id of
    a member of that answer, and the running-instances query is not sent. *)
Lemma resolve_spot_preferred h srs h2 :
  getSpotRequestByTag w tagName tagValue (h ++ [log_spot]) = (Ok (inl srs), h2) ->
  srs <> [] ->
  exists r, In r srs /\
    resolveBastionInstanceID w tagName tagValue h
    = (Ok (aws_ToString (sir_InstanceId r), None), (h2 ++ [EvIntn (length srs)])%list).
Proof.
  intros Hspot Hne.
  destruct (rand_Intn_pos w (length srs) h2) as [Hr Hlt].
  { destruct srs; simpl; congruence. }
  destruct (index_in srs _ (h2 ++ [EvIntn (length srs)])%list Hlt) as (r & _ & Hin & Hidx).
  exists r. split; [assumption|].
  unfold resolveBastionInstanceID.
  rewrite (bind_ok _ _ h tt (h ++ [log_spot])%list) by reflexivity.
  rewrite (bind_ok _ _ _ _ _ Hspot).
  rewrite (length_pos_ltb _ Hne).
  rewrite (bind_ok _ _ _ _ _ Hr).
  rewrite (bind_ok _ _ _ _ _ Hidx).
  reflexivity.
Qed.

(** A failing spot query is returned as it is, with no id. *)
Lemma resolve_spot_error h err h2 :
  getSpotRequestByTag w tagName tagValue (h ++ [log_spot]) = (Ok (inr err), h2) ->
  resolveBastionInstanceID w tagName tagValue h = (Ok ("", Some err), h2).
Proof.
  intros Hspot. unfold resolveBastionInstanceID.
  rewrite (bind_ok _ _ h tt (h ++ [log_spot])%list) by reflexivity.
  now rewrite (bind_ok _ _ _ _ _ Hspot).
Qed.

(** With no spot request, the run continues with the running-instances
    query. *)
Lemma resolve_falls_back h h2 :
  getSpotRequestByTag w tagName tagValue (h ++ [log_spot]) = (Ok (inl []), h2) ->
  resolveBastionInstanceID w tagName tagValue h
  = bind (getInstanceByTag w tagName tagValue)
      (fun dio =>
         match dio with
         | inr err => ret ("", Some err)
         | inl Reservations =>
             if (0 <? length Reservations)%nat then
               i <- rand_Intn w (length Reservations) ;;
               res <- index Reservations i ;;
               j <- rand_Intn w (length (Instances res)) ;;
               inst <- index (Instances res) j ;;
               ret (aws_ToString (InstanceId inst), None)
             else
               ret ("", Some (errors_New "unable to find any valid bastion instances"))
         end) (h2 ++ [log_direct])%list.
Proof.
  intros Hspot. unfold resolveBastionInstanceID.
  rewrite (bind_ok _ _ h tt (h ++ [log_spot])%list) by reflexivity.
  rewrite (bind_ok _ _ _ _ _ Hspot). simpl.
  rewrite (bind_ok _ _ h2 tt (h2 ++ [log_direct])%list) by reflexivity.
  reflexivity.
Qed.

(** Both answers empty: no id, and the not-found error. *)
Lemma resolve_not_found h h2 h3 :
  getSpotRequestByTag w tagName tagValue (h ++ [log_spot]) = (Ok (inl []), h2) ->
  getInstanceByTag w tagName tagValue (h2 ++ [log_direct]) = (Ok (inl []), h3) ->
  resolveBastionInstanceID w tagName tagValue h
  = (Ok ("", Some (ErrorString "unable to find any valid bastion instances")), h3).
Proof.
  intros Hspot Hinst. rewrite (resolve_falls_back _ _ Hspot).
  now rewrite (bind_ok _ _ _ _ _ Hinst).
Qed.

(** No spot request, and the reservation the draw selects holds an
    instance: the id is the id of an instance of that reservation. *)
Lemma resolve_running h h2 rs h3 res :
  getSpotRequestByTag w tagName tagValue (h ++ [log_spot]) = (Ok (inl []), h2) ->
  getInstanceByTag w tagName tagValue (h2 ++ [log_direct]) = (Ok (inl rs), h3) ->
  nth_error rs (w_rand w h3 mod length rs) = Some res ->
  Instances res <> [] ->
  exists inst, In res rs /\ In inst (Instances res) /\
    resolveBastionInstanceID w tagName tagValue h
    = (Ok (aws_ToString (InstanceId inst), None),
       (h3 ++ [EvIntn (length rs); EvIntn (length (Instances res))])%list).
Proof.
  intros Hspot Hinst Hsel Hne.
  assert (Hrs : rs <> []) by (destruct rs; [destruct (_ mod _); discriminate|congruence]).
  destruct (rand_Intn_pos w (length rs) h3) as [Hr _].
  { destruct rs; simpl; congruence. }
  set (h4 := (h3 ++ [EvIntn (length rs)])%list) in *.
  destruct (rand_Intn_pos w (length (Instances res)) h4) as [Hr2 Hlt2].
  { destruct (Instances res); simpl; congruence. }
  destruct (index_in (Instances res) _ (h4 ++ [EvIntn (length (Instances res))])%list Hlt2)
    as (inst & _ & Hin & Hidx).
  exists inst. split; [eapply nth_error_In; eauto|]. split; [assumption|].
  rewrite (resolve_falls_back _ _ Hspot).
  rewrite (bind_ok _ _ _ _ _ Hinst).
  rewrite (length_pos_ltb _ Hrs).
  rewrite (bind_ok _ _ _ _ _ Hr).
  assert (Hidx0 : index rs (w_rand w h3 mod length rs) h4 = (Ok res, h4))
    by (unfold index; now rewrite Hsel).
  rewrite (bind_ok _ _ _ _ _ Hidx0).
  rewrite (bind_ok _ _ _ _ _ Hr2).
  rewrite (bind_ok _ _ _ _ _ Hidx).
  unfold h4. rewrite <- app_assoc. reflexivity.
Qed.

(** No spot request, and the reservation the draw selects is empty: the
    second draw panics. *)
Lemma resolve_panics h h2 rs h3 res :
  getSpotRequestByTag w tagName tagValue (h ++ [log_spot]) = (Ok (inl []), h2) ->
  getInstanceByTag w tagName tagValue (h2 ++ [log_direct]) = (Ok (inl rs), h3) ->
  nth_error rs (w_rand w h3 mod length rs) = Some res ->
  Instances res = [] ->
  resolveBastionInstanceID w tagName tagValue h
  = (Panic "invalid argument to Intn", (h3 ++ [EvIntn (length rs)])%list).
Proof.
  intros Hspot Hinst Hsel Hemp.
  assert (Hrs : rs <> []) by (destruct rs; [destruct (_ mod _); discriminate|congruence]).
  destruct (rand_Intn_pos w (length rs) h3) as [Hr _].
  { destruct rs; simpl; congruence. }
  set (h4 := (h3 ++ [EvIntn (length rs)])%list) in *.
  rewrite (resolve_falls_back _ _ Hspot).
  rewrite (bind_ok _ _ _ _ _ Hinst).
  rewrite (length_pos_ltb _ Hrs).
  rewrite (bind_ok _ _ _ _ _ Hr).
  assert (Hidx0 : index rs (w_rand w h3 mod length rs) h4 = (Ok res, h4))
    by (unfold index; now rewrite Hsel).
  rewrite (bind_ok _ _ _ _ _ Hidx0).
  rewrite Hemp. reflexivity.
Qed.

End Resolver.

(** The scenario of the specification, for every sequence of draws: the id
    is i-aaa or i-bbb, and the running instances are not even asked for. *)
Example resolve_two_spots (draws : trace -> nat) :
  exists id h',
    resolveBastionInstanceID (two_spots draws) "role" "bastion" [] = (Ok (id, None), h')
    /\ (id = "i-aaa"%string \/ id = "i-bbb"%string)
    /\ forall input, ~ In (EvDescribeInstances input) h'.
Proof.
  destruct (resolve_spot_preferred (two_spots draws) "role" "bastion" []
              [Scenario.spot "i-aaa"; Scenario.spot "i-bbb"] _ eq_refl ltac:(discriminate))
    as (r & Hin & Hrun).
  do 2 eexists. split; [exact Hrun|]. split.
  - destruct Hin as [<-|[<-|[]]]; [left|right]; reflexivity.
  - intros input H. simpl in H.
    repeat (destruct H as [H|H]; [discriminate|]). exact H.
Qed.

(** C1, at the input where it fails: the spot query finds nothing, the
    running-instances query returns two reservations of which the second
    holds instance i-ccc, and the draw selects the first, which is empty.
    The claim has the run return the id of an instance of a returned
    reservation; [resolveBastionInstanceID] panics in [rand.Intn(0)]. *)
Theorem resolve_panics_though_an_instance_runs :
  let w := empty_reservation in
  exists h2 rs h3 res,
    getSpotRequestByTag w "role" "bastion" [log_spot] = (Ok (inl []), h2)
    /\ getInstanceByTag w "role" "bastion" (h2 ++ [log_direct]) = (Ok (inl rs), h3)
    /\ In res rs
    /\ In (Scenario.inst "i-ccc" "10.0.0.3" "3.3.3.3") (Instances res)
    /\ resolveBastionInstanceID w "role" "bastion" []
       = (Panic "invalid argument to Intn", h3 ++ [EvIntn (length rs)]).
Proof.
  cbv zeta. do 3 eexists.
  exists {| Instances := [Scenario.inst "i-ccc" "10.0.0.3" "3.3.3.3"] |}.
  split; [reflexivity|]. split; [reflexivity|].
  split; [right; left; reflexivity|].
  split; [left; reflexivity|].
  reflexivity.
Qed.

(** C10: with no spot request and at least one reservation returned,
    [resolveBastionInstanceID] returns an id whenever every reservation
    holds an instance, and whenever the reservation the draw selects holds
    none it panics in [rand.Intn] and returns neither an id nor the
    not-found error. *)
Theorem resolve_total_only_for_nonempty_reservations
  (w : World) (tagName tagValue : string) (h h2 h3 : trace) (rs : list Reservation) :
  getSpotRequestByTag w tagName tagValue (h ++ [log_spot]) = (Ok (inl []), h2) ->
  getInstanceByTag w tagName tagValue (h2 ++ [log_direct]) = (Ok (inl rs), h3) ->
  rs <> [] ->
  (Forall (fun r => Instances r <> []) rs ->
     exists res inst h',
       In res rs /\ In inst (Instances res) /\
       resolveBastionInstanceID w tagName tagValue h
       = (Ok (aws_ToString (InstanceId inst), None), h'))
  /\ (forall res,
        nth_error rs (w_rand w h3 mod length rs) = Some res ->
        Instances res = [] ->
        resolveBastionInstanceID w tagName tagValue h
        = (Panic "invalid argument to Intn", h3 ++ [EvIntn (length rs)])).
Proof.
  intros Hspot Hinst Hrs. split.
  - intros Hall.
    assert (Hlt : w_rand w h3 mod length rs < length rs).
    { apply Nat.mod_upper_bound. destruct rs; simpl; congruence. }
    destruct (nth_error rs (w_rand w h3 mod length rs)) as [res|] eqn:Hsel.
    2:{ apply nth_error_None in Hsel. lia. }
    assert (Hne : Instances res <> []).
    { rewrite Forall_forall in Hall. apply Hall. eapply nth_error_In; eauto. }
    destruct (resolve_running w tagName tagValue h h2 rs h3 res Hspot Hinst Hsel Hne)
      as (inst & Hres & Hin & Hrun).
    exists res, inst. eexists. repeat split; eauto.
  - intros res Hsel Hemp.
    exact (resolve_panics w tagName tagValue h h2 rs h3 res Hspot Hinst Hsel Hemp).
Qed.

(** The run of C10 on the world with an empty first reservation. *)
Lemma resolve_total_only_for_nonempty_reservations_witness :
  resolveBastionInstanceID empty_reservation "role" "bastion" []
  = (Panic "invalid argument to Intn",
     [log_spot;
      EvDescribeSpotInstanceRequests
        [ {| Name := Some "tag:role"; Values := ["bastion"] |};
          {| Name := Some "state"; Values := ["active"] |};
          {| Name := Some "status-code"; Values := ["fulfilled"] |} ];
      log_direct;
      EvDescribeInstances
        {| di_Filters :=
             [ {| Name := Some "tag:role"; Values := ["bastion"] |};
               {| Name := Some "instance-state-name"; Values := ["running"] |} ];
           di_InstanceIds := [] |};
      EvIntn 2]).
Proof.
  refine (proj2 (resolve_total_only_for_nonempty_reservations
                   empty_reservation "role" "bastion" []
                   (snd (getSpotRequestByTag empty_reservation "role" "bastion" [log_spot]))
                   (snd (getInstanceByTag empty_reservation "role" "bastion"
                      (snd (getSpotRequestByTag empty_reservation "role" "bastion" [log_spot])
                         ++ [log_direct])))
                   [ {| Instances := [] |};
                     {| Instances := [Scenario.inst "i-ccc" "10.0.0.3" "3.3.3.3"] |} ]
                   _ _ _)
                {| Instances := [] |} _ _).
  - reflexivity.
  - reflexivity.
  - discriminate.
  - reflexivity.
  - reflexivity.
Defined.

(** ** Endpoints: parsing, key push, address selection *)

Section Endpoint.
Variable w : World.

Lemma pushes_app tr1 tr2 : pushes (tr1 ++ tr2) = pushes tr1 + pushes tr2.
Proof.
  induction tr1 as [|e tr1 IH]; [reflexivity|].
  destruct e; simpl; rewrite IH; reflexivity.
Qed.

(** The four ways [sendPublicKey] ends on an endpoint that has its
    instance. *)
Lemma sendPublicKey_cases (e : EC2Endpoint) (i : Instance) (h : trace) :
  sendPublicKey w (Some i) (User e) (PublicKey e) h
  = match w_SendSSHPublicKey w h (push_input e i) with
    | inr err =>
        if errors_As_Throttling err
        then (Ok None, h ++ [EvSendSSHPublicKey (push_input e i); log_throttled])
        else (Ok (Some (WrapError ("send public key error: " ++ Error err)%string err)),
              h ++ [EvSendSSHPublicKey (push_input e i)])
    | inl out =>
        if Success out
        then (Ok None, h ++ [EvSendSSHPublicKey (push_input e i)])
        else (Ok (Some (ErrorString
                ("request failed but no error was returned. Request ID: "
                   ++ aws_ToString (RequestId out))%string)),
              h ++ [EvSendSSHPublicKey (push_input e i)])
    end.
Proof.
  unfold sendPublicKey, bind, call, push_input, aws_String. simpl.
  destruct (w_SendSSHPublicKey w h _) as [out|err].
  - destruct (Success out); reflexivity.
  - destruct (errors_As_Throttling err); simpl.
    + unfold slog, emit, ret, log_throttled. rewrite <- app_assoc. reflexivity.
    + reflexivity.
Qed.

(** [String] after [sendPublicKey]. *)
Lemma String_cases (e : EC2Endpoint) (i : Instance) (h : trace) :
  Instance_ e = Some i ->
  String_ w e h
  = match sendPublicKey w (Some i) (User e) (PublicKey e) h with
    | (Ok None, h') => (Ok (selected_address e i), h')
    | (Ok (Some err), h') => (Exit 1%Z, h' ++ [EvLog LFatal (Error err)])
    | (Exit c, h') => (Exit c, h')
    | (Panic s, h') => (Panic s, h')
    end.
Proof.
  intros Hi. unfold String_, bind. rewrite Hi.
  destruct (sendPublicKey w (Some i) (User e) (PublicKey e) h) as [[[err|]|c|s] h'];
    try reflexivity.
  unfold selected_address. destruct (UsePrivate e); reflexivity.
Qed.


(** An endpoint [NewEC2Endpoint] returns without an error has its instance. *)
Lemma NewEC2Endpoint_has_instance (s : string) (h h' : trace) (e : EC2Endpoint) :
  NewEC2Endpoint w s h = (Ok (e, None), h') -> Instance_ e <> None.
Proof.
  unfold NewEC2Endpoint.
  destruct (match Split s "@" with p0 :: p1 :: _ => (p0, p1) | _ => ("ec2-user"%string, s) end)
    as [user1 id1].
  destruct (match Split id1 ":" with p0 :: p1 :: _ => (p0, fst (Atoi p1)) | _ => (id1, 22%Z) end)
    as [id2 port2].
  unfold bind, call, getEC2Instance, bind, call, ret.
  destruct (w_GenerateKeys w h) as [[priv pub] [err|]]; [discriminate|].
  destruct (w_DescribeInstances w _ _) as [[|[[|i0 ins]] rs]|err]; try discriminate.
  intros E. injection E as <- _. discriminate.
Qed.

End Endpoint.

(** C2: when the send-public-key call fails, a throttling-class error makes
    [sendPublicKey] report success and [String] return the address; any
    other error is wrapped as a send-public-key error, [String] ends the
    process through [log.Fatal], and so does a [Connect] that was resolving
    the endpoint. *)
Theorem push_failure_aborts_unless_throttled
  (w : World) (e : EC2Endpoint) (i : Instance) (h : trace) (err : error) :
  Instance_ e = Some i ->
  w_SendSSHPublicKey w h (push_input e i) = inr err ->
  if errors_As_Throttling err
  then
    sendPublicKey w (Instance_ e) (User e) (PublicKey e) h
    = (Ok None, h ++ [EvSendSSHPublicKey (push_input e i); log_throttled])
    /\ String_ w e h
       = (Ok (selected_address e i),
          h ++ [EvSendSSHPublicKey (push_input e i); log_throttled])
  else
    sendPublicKey w (Instance_ e) (User e) (PublicKey e) h
    = (Ok (Some (WrapError ("send public key error: " ++ Error err)%string err)),
       h ++ [EvSendSSHPublicKey (push_input e i)])
    /\ String_ w e h
       = (Exit 1%Z,
          h ++ [EvSendSSHPublicKey (push_input e i);
                EvLog LFatal ("send public key error: " ++ Error err)%string])
    /\ forall rest cfg,
         GetSSHConfig w e = (cfg, None) ->
         Connect w (EC2Endpoint_iface w e :: rest) h
         = (Exit 1%Z,
            h ++ [EvSendSSHPublicKey (push_input e i);
                  EvLog LFatal ("send public key error: " ++ Error err)%string]).
Proof.
  intros Hi Herr.
  pose proof (sendPublicKey_cases w e i h) as Hs. rewrite Herr in Hs.
  pose proof (String_cases w e i h Hi) as HS. rewrite Hs in HS.
  rewrite Hi.
  destruct (errors_As_Throttling err).
  - split; assumption.
  - assert (HS' : String_ w e h
       = (Exit 1%Z, h ++ [EvSendSSHPublicKey (push_input e i);
             EvLog LFatal ("send public key error: " ++ Error err)%string])).
    { rewrite HS. simpl. rewrite <- app_assoc. reflexivity. }
    split; [assumption|]. split; [assumption|].
    intros rest cfg Hcfg. unfold Connect. simpl. rewrite Hcfg.
    erewrite bind_exit; [reflexivity|].
    erewrite bind_exit; [reflexivity|]. exact HS'.
Qed.

(** C2 on a bastion whose push is throttled and on one whose push is
    refused. *)
Lemma push_failure_aborts_unless_throttled_witness :
  String_ throttled bastion [] 
  = (Ok "1.1.1.1:22"%string,
     [EvSendSSHPublicKey (push_input bastion (Scenario.inst "i-aaa" "10.0.0.1" "1.1.1.1"));
      log_throttled])
  /\ fst (String_ denied bastion []) = Exit 1%Z.
Proof.
  split.
  - refine (proj2 (push_failure_aborts_unless_throttled throttled bastion
                     (Scenario.inst "i-aaa" "10.0.0.1" "1.1.1.1") []
                     (WrapError
     "operation error EC2 Instance Connect: SendSSHPublicKey, ThrottlingException: Rate exceeded"
                        (ThrottlingException "Rate exceeded")) _ _));
      reflexivity.
  - refine (f_equal fst (proj1 (proj2 (push_failure_aborts_unless_throttled denied bastion
                     (Scenario.inst "i-aaa" "10.0.0.1" "1.1.1.1") []
                     (ErrorString "AccessDeniedException: not authorized") _ _))));
      reflexivity.
Defined.

(** C7: every call of [String] on an endpoint that has its instance first
    pushes the endpoint's public key for its user to that instance, whatever
    happened before (a second call pushes again), and the address it returns
    is the private address and the port when [UsePrivate] is set, the public
    address and the port otherwise. *)
Theorem String_pushes_key_then_selects_address
  (w : World) (e : EC2Endpoint) (i : Instance) (h : trace) :
  Instance_ e = Some i ->
  (exists tl, snd (String_ w e h) = h ++ EvSendSSHPublicKey (push_input e i) :: tl)
  /\ pushes (snd (String_ w e h)) = S (pushes h)
  /\ (forall a h1, String_ w e h = (Ok a, h1) ->
        pushes (snd (String_ w e h1)) = S (S (pushes h)))
  /\ match fst (String_ w e h) with
     | Ok addr =>
         addr = ((if UsePrivate e then aws_ToString (PrivateIpAddress i)
                  else aws_ToString (PublicIpAddress i)) ++ ":" ++ itoa (Port e))%string
     | Exit code => code = 1%Z
     | Panic _ => False
     end.
Proof.
  intros Hi.
  assert (Hone : forall h0,
    (exists tl, snd (String_ w e h0) = h0 ++ EvSendSSHPublicKey (push_input e i) :: tl)
    /\ pushes (snd (String_ w e h0)) = S (pushes h0)
    /\ match fst (String_ w e h0) with
       | Ok addr => addr = selected_address e i
       | Exit code => code = 1%Z
       | Panic _ => False
       end).
  { intros h0. rewrite (String_cases w e i h0 Hi), (sendPublicKey_cases w e i h0).
    destruct (w_SendSSHPublicKey w h0 (push_input e i)) as [out|err].
    - destruct (Success out); simpl.
      + split; [eexists; reflexivity|]. split; [|reflexivity].
        rewrite pushes_app. simpl. lia.
      + split; [eexists; rewrite <- app_assoc; reflexivity|]. split; [|reflexivity].
        rewrite !pushes_app. simpl. lia.
    - destruct (errors_As_Throttling err); simpl.
      + split; [eexists; reflexivity|]. split; [|reflexivity].
        rewrite pushes_app. simpl. lia.
      + split; [eexists; rewrite <- app_assoc; reflexivity|]. split; [|reflexivity].
        rewrite !pushes_app. simpl. lia. }
  destruct (Hone h) as (Hfirst & Hcount & Haddr).
  split; [assumption|]. split; [assumption|]. split; [|exact Haddr].
  intros a h1 E. destruct (Hone h1) as (_ & Hc1 & _).
  rewrite Hc1. rewrite E in Hcount. simpl in Hcount. now rewrite Hcount.
Qed.

(** C7 on the inner host, which is marked private. *)
Lemma String_pushes_key_then_selects_address_witness :
  pushes (snd (String_ Scenario.calm inner [])) = 1
  /\ fst (String_ Scenario.calm inner []) = Ok "10.0.0.2:22"%string.
Proof.
  pose proof (String_pushes_key_then_selects_address Scenario.calm inner
                (Scenario.inst "i-bbb" "10.0.0.2" "2.2.2.2") [] eq_refl) as H.
  split.
  - exact (proj1 (proj2 H)).
  - reflexivity.
Defined.

(** C8: [NewEC2Endpoint] on "ec2-user@i-0123:2222" yields user ec2-user,
    instance id i-0123 and port 2222; on "i-0123" it yields the default
    user ec2-user, instance id i-0123 and the default port 22.  The fields
    are the same whether or not key generation and the instance lookup
    succeed. *)
Theorem NewEC2Endpoint_parses_user_id_port (w : World) (h : trace) :
  (exists e err h',
     NewEC2Endpoint w "ec2-user@i-0123:2222" h = (Ok (e, err), h')
     /\ User e = "ec2-user"%string /\ InstanceID e = "i-0123"%string /\ Port e = 2222%Z)
  /\ (exists e err h',
        NewEC2Endpoint w "i-0123" h = (Ok (e, err), h')
        /\ User e = "ec2-user"%string /\ InstanceID e = "i-0123"%string /\ Port e = 22%Z).
Proof.
  split.
  - unfold NewEC2Endpoint.
    replace (Split "ec2-user@i-0123:2222" "@") with ["ec2-user"; "i-0123:2222"]%string
      by reflexivity.
    cbv iota beta zeta.
    replace (Split "i-0123:2222" ":") with ["i-0123"; "2222"]%string by reflexivity.
    replace (Atoi "2222") with (2222%Z, @None error) by reflexivity.
    unfold bind, call, getEC2Instance, bind, call, ret. simpl fst.
    destruct (w_GenerateKeys w h) as [[priv pub] [err|]].
    + do 3 eexists. split; [reflexivity|]. repeat split.
    + destruct (w_DescribeInstances w _ _) as [[|[[|i0 ins]] rs]|err];
        (do 3 eexists; split; [reflexivity|]; repeat split).
  - unfold NewEC2Endpoint.
    replace (Split "i-0123" "@") with ["i-0123"]%string by reflexivity.
    cbv iota beta zeta.
    replace (Split "i-0123" ":") with ["i-0123"]%string by reflexivity.
    unfold bind, call, getEC2Instance, bind, call, ret.
    destruct (w_GenerateKeys w h) as [[priv pub] [err|]].
    + do 3 eexists. split; [reflexivity|]. repeat split.
    + destruct (w_DescribeInstances w _ _) as [[|[[|i0 ins]] rs]|err];
        (do 3 eexists; split; [reflexivity|]; repeat split).
Qed.

(** ** The connection chain *)

Section Chain.
Variable w : World.

(** One round of the loop of [Connect], call by call. *)
Lemma Connect_loop_step (ep : EndpointIface) (rest : list EndpointIface)
      (client : option Client) (h : trace) :
  Connect_loop w (ep :: rest) client h
  = match ep_GetSSHConfig ep with
    | (_, Some _) => (Ok (Return None), h)
    | (cfg, None) =>
        match ep_String ep h with
        | (Exit c, h1) => (Exit c, h1)
        | (Panic s, h1) => (Panic s, h1)
        | (Ok addr, h1) =>
            let h2 := h1 ++ [EvLog LInfo ("Attempting to connect to " ++ addr)%string] in
            match client with
            | None =>
                match cfg with
                | None => (Panic nil_deref, h2)
                | Some c =>
                    let r := w_sshDial w h2 addr c in
                    let h3 := h2 ++ [EvSshDial "tcp" addr c r] in
                    match r with
                    | inr e =>
                        (Ok (Return (Some (ErrorString
                           ("failed to dial: " ++ Error e)%string))), h3)
                    | inl cl => Connect_loop w rest (Some cl) h3
                    end
                end
            | Some p =>
                let r := w_clientDial w h2 p addr in
                let h3 := h2 ++ [EvClientDial p "tcp" addr r] in
                match r with
                | inr e =>
                    (Ok (Return (Some (ErrorString
                       ("failed to dial: " ++ Error e)%string))), h3)
                | inl conn =>
                    match cfg with
                    | None => (Panic nil_deref, h3)
                    | Some c =>
                        let r2 := w_NewClientConn w h3 conn addr c in
                        let h4 := h3 ++ [EvNewClientConn conn addr c r2] in
                        match r2 with
                        | inr e =>
                            (Ok (Return (Some (ErrorString
                               ("failed to create new ssh connection to " ++ addr
                                  ++ ": " ++ Error e)%string))), h4)
                        | inl ncc => Connect_loop w rest (Some (NewClient ncc)) h4
                        end
                    end
                end
            end
        end
    end.
Proof.
  simpl. destruct (ep_GetSSHConfig ep) as [cfg [e|]]; [reflexivity|].
  unfold bind at 1. destruct (ep_String ep h) as [[addr|c|s] h1]; try reflexivity.
  unfold bind at 1. unfold slog, emit. cbv zeta.
  destruct client as [p|].
  - unfold bind at 1. unfold client_Dial, callr.
    destruct (w_clientDial w _ p addr) as [conn|e]; [|reflexivity].
    destruct cfg as [c|]; [|reflexivity].
    unfold bind at 1. unfold ssh_NewClientConn, callr.
    destruct (w_NewClientConn w _ conn addr c) as [ncc|e]; reflexivity.
  - destruct cfg as [c|]; [|reflexivity].
    unfold bind at 1. unfold ssh_Dial, callr.
    destruct (w_sshDial w _ addr c) as [cl|e]; reflexivity.
Qed.


Lemma conns_app tr1 tr2 : conns (tr1 ++ tr2) = conns tr1 ++ conns tr2.
Proof. apply filter_app. Qed.

Lemma sessions_app tr1 tr2 : sessions (tr1 ++ tr2) = sessions tr1 ++ sessions tr2.
Proof. apply filter_app. Qed.

Lemma passive_filter (p : event -> bool) (evs : trace) :
  (forall e, passive e = true -> p e = false) ->
  forallb passive evs = true -> filter p evs = [].
Proof.
  intros Hp. induction evs as [|e evs IH]; [reflexivity|].
  simpl. intros H. apply andb_prop in H as [He Hevs].
  rewrite (Hp e He). auto.
Qed.

Lemma passive_conns (evs : trace) : forallb passive evs = true -> conns evs = [].
Proof. apply passive_filter. intros []; simpl; congruence. Qed.

Lemma passive_sessions (evs : trace) : forallb passive evs = true -> sessions evs = [].
Proof. apply passive_filter. intros []; simpl; congruence. Qed.

(** A loop of [Connect] that runs to its end connected every endpoint, in
    order, each through the client of the one before. *)
Lemma Connect_loop_chain (eps : list EndpointIface) :
  Forall quiet eps ->
  forall client0 h client h',
    Connect_loop w eps client0 h = (Ok (Next client), h') ->
    exists hops ds,
      conns h' = conns h ++ ds
      /\ sessions h' = sessions h
      /\ Forall2 hop_of eps hops
      /\ chain client0 hops ds client.
Proof.
  induction eps as [|ep rest IH]; intros Hq client0 h client h' Hrun.
  - simpl in Hrun. injection Hrun as <- <-.
    exists [], []. rewrite app_nil_r. repeat split; constructor.
  - inversion Hq as [|? ? Hep Hrest]; subst.
    rewrite Connect_loop_step in Hrun.
    destruct (ep_GetSSHConfig ep) as [cfg [e|]] eqn:Hcfg; [discriminate|].
    destruct (Hep h) as (evs & Hevs & Hpas).
    pose proof (passive_conns _ Hpas) as Hce.
    pose proof (passive_sessions _ Hpas) as Hse.
    destruct (ep_String ep h) as [[addr|c|s] h1] eqn:Hstr; try discriminate.
    simpl in Hevs. subst h1. cbv zeta in Hrun.
    destruct client0 as [p|].
    + destruct (w_clientDial w _ p addr) as [conn|e] eqn:Hd; [|discriminate].
      destruct cfg as [c|]; [|discriminate].
      destruct (w_NewClientConn w _ conn addr c) as [ncc|e] eqn:Hn; [|discriminate].
      destruct (IH Hrest _ _ _ _ Hrun) as (hops & ds & Hc & Hs & Hf & Hch).
      exists ((addr, c) :: hops),
        (EvClientDial p "tcp" addr (inl conn) :: EvNewClientConn conn addr c (inl ncc) :: ds).
      split; [|split; [|split]].
      * rewrite Hc, !conns_app, Hce. simpl. rewrite <- !app_assoc. reflexivity.
      * rewrite Hs, !sessions_app, Hse. simpl. rewrite !app_nil_r. reflexivity.
      * constructor; [|assumption]. split; [exact Hcfg|].
        exists h. rewrite Hstr. reflexivity.
      * constructor. assumption.
    + destruct cfg as [c|]; [|discriminate].
      destruct (w_sshDial w _ addr c) as [cl|e] eqn:Hd; [|discriminate].
      destruct (IH Hrest _ _ _ _ Hrun) as (hops & ds & Hc & Hs & Hf & Hch).
      exists ((addr, c) :: hops), (EvSshDial "tcp" addr c (inl cl) :: ds).
      split; [|split; [|split]].
      * rewrite Hc, !conns_app, Hce. simpl. rewrite <- !app_assoc. reflexivity.
      * rewrite Hs, !sessions_app, Hse. simpl. rewrite !app_nil_r. reflexivity.
      * constructor; [|assumption]. split; [exact Hcfg|].
        exists h. rewrite Hstr. reflexivity.
      * constructor. assumption.
Qed.

(** What a chain amounts to in numbers. *)
Lemma chain_counts prev hops ds last :
  chain prev hops ds last ->
  directs ds = (match prev, hops with None, _ :: _ => 1 | _, _ => 0 end)
  /\ nested_dials ds = length hops - (match prev with None => 1 | Some _ => 0 end)
  /\ nested_handshakes ds = length hops - (match prev with None => 1 | Some _ => 0 end).
Proof.
  induction 1 as [prev|addr cfg c hops ds last _ IH|p addr cfg conn ncc hops ds last _ IH].
  - destruct prev; repeat split.
  - destruct IH as (Hd & Hn & Hh).
    unfold directs, nested_dials, nested_handshakes in *. simpl.
    rewrite Hd, Hn, Hh. destruct hops; simpl; repeat split; lia.
  - destruct IH as (Hd & Hn & Hh).
    unfold directs, nested_dials, nested_handshakes in *. simpl.
    rewrite Hd, Hn, Hh. destruct hops; simpl; repeat split; lia.
Qed.


Lemma first_failed_app tr1 tr2 :
  first_failed (tr1 ++ tr2)
  = match first_failed tr1 with Some e => Some e | None => first_failed tr2 end.
Proof.
  induction tr1 as [|e tr1 IH]; [reflexivity|].
  destruct e; simpl; try exact IH; destruct r; simpl; try exact IH; reflexivity.
Qed.

Lemma first_failed_quiet evs : conns evs = [] -> first_failed evs = None.
Proof.
  induction evs as [|e evs IH]; [reflexivity|].
  destruct e; simpl; intros H; try discriminate; auto.
Qed.

(** Every run of the loop of [Connect], however it ends: it opens no
    session; if a dial or handshake was answered with an error, that event
    is the last thing the run did and the loop returned the error reported
    for it; otherwise the loop did not return an error; and a loop that
    starts without a client begins its connections with a direct dial to
    the first endpoint. *)
Lemma Connect_loop_post (eps : list EndpointIface) :
  Forall quiet eps ->
  forall client0 h, exists evs,
    snd (Connect_loop w eps client0 h) = h ++ evs
    /\ sessions evs = []
    /\ match first_failed evs with
       | Some ev =>
           fst (Connect_loop w eps client0 h) = Ok (Return (report ev))
           /\ exists pre, evs = pre ++ [ev]
       | None => forall e, fst (Connect_loop w eps client0 h) <> Ok (Return (Some e))
       end
    /\ (client0 = None ->
        conns evs = []
        \/ exists ep0 rest a cfg r tl,
             eps = ep0 :: rest
             /\ conns evs = EvSshDial "tcp" a cfg r :: tl
             /\ hop_of ep0 (a, cfg)).
Proof.
  induction eps as [|ep rest IH]; intros Hq client0 h.
  - exists []. simpl. rewrite app_nil_r. repeat split; auto. discriminate.
  - inversion Hq as [|? ? Hep Hrest]; subst.
    rewrite Connect_loop_step.
    destruct (ep_GetSSHConfig ep) as [cfg [e|]] eqn:Hcfg.
    { exists []. simpl. rewrite app_nil_r. repeat split; auto. discriminate. }
    destruct (Hep h) as (evs & Hevs & Hpas).
    pose proof (passive_conns _ Hpas) as Hce.
    pose proof (passive_sessions _ Hpas) as Hse.
    pose proof (first_failed_quiet _ Hce) as Hfe.
    destruct (ep_String ep h) as [[addr|c|s] h1] eqn:Hstr; simpl in Hevs; subst h1.
    2:{ exists evs. simpl. rewrite Hfe. repeat split; auto. discriminate. }
    2:{ exists evs. simpl. rewrite Hfe. repeat split; auto. discriminate. }
    cbv zeta.
    set (lg := EvLog LInfo ("Attempting to connect to " ++ addr)%string).
    assert (Hhop : forall c, cfg = Some c -> hop_of ep (addr, c)).
    { intros c ->. split; [exact Hcfg|]. exists h. rewrite Hstr. reflexivity. }
    destruct client0 as [p|].
    + set (h2 := (h ++ evs) ++ [lg]).
      destruct (w_clientDial w h2 p addr) as [conn|e] eqn:Hd.
      2:{ exists (evs ++ [lg; EvClientDial p "tcp" addr (inr e)]).
          simpl. split; [unfold h2; rewrite <- !app_assoc; reflexivity|].
          split; [rewrite sessions_app, Hse; reflexivity|].
          split; [|discriminate].
          rewrite first_failed_app, Hfe. simpl. split; [reflexivity|].
          exists (evs ++ [lg]). rewrite <- app_assoc. reflexivity. }
      set (h3 := h2 ++ [EvClientDial p "tcp" addr (inl conn)]).
      destruct cfg as [c|].
      2:{ exists (evs ++ [lg; EvClientDial p "tcp" addr (inl conn)]).
          simpl. split; [unfold h3, h2; rewrite <- !app_assoc; reflexivity|].
          split; [rewrite sessions_app, Hse; reflexivity|].
          split; [|discriminate].
          rewrite first_failed_app, Hfe. simpl. discriminate. }
      destruct (w_NewClientConn w h3 conn addr c) as [ncc|e] eqn:Hn.
      2:{ exists (evs ++ [lg; EvClientDial p "tcp" addr (inl conn);
                          EvNewClientConn conn addr c (inr e)]).
          simpl. split; [unfold h3, h2; rewrite <- !app_assoc; reflexivity|].
          split; [rewrite sessions_app, Hse; reflexivity|].
          split; [|discriminate].
          rewrite first_failed_app, Hfe. simpl. split; [reflexivity|].
          exists (evs ++ [lg; EvClientDial p "tcp" addr (inl conn)]).
          rewrite <- app_assoc. reflexivity. }
      destruct (IH Hrest (Some (NewClient ncc))
                   (h3 ++ [EvNewClientConn conn addr c (inl ncc)]))
        as (evs' & Hext & Hs' & Hf' & _).
      exists (evs ++ [lg; EvClientDial p "tcp" addr (inl conn);
                      EvNewClientConn conn addr c (inl ncc)] ++ evs').
      split; [rewrite Hext; unfold h3, h2; rewrite <- !app_assoc; reflexivity|].
      split; [rewrite !sessions_app, Hse, Hs'; reflexivity|].
      split; [|discriminate].
      rewrite first_failed_app, Hfe, first_failed_app. simpl.
      destruct (first_failed evs') as [ev|]; [|exact Hf'].
      destruct Hf' as (Hr & pre & ->). split; [exact Hr|].
      exists (evs ++ [lg; EvClientDial p "tcp" addr (inl conn);
                      EvNewClientConn conn addr c (inl ncc)] ++ pre).
      rewrite <- !app_assoc. reflexivity.
    + set (h2 := (h ++ evs) ++ [lg]).
      destruct cfg as [c|].
      2:{ exists (evs ++ [lg]).
          simpl. split; [unfold h2; rewrite <- !app_assoc; reflexivity|].
          split; [rewrite sessions_app, Hse; reflexivity|].
          split; [rewrite first_failed_app, Hfe; simpl; discriminate|].
          intros _. left. rewrite conns_app, Hce. reflexivity. }
      destruct (w_sshDial w h2 addr c) as [cl|e] eqn:Hd.
      2:{ exists (evs ++ [lg; EvSshDial "tcp" addr c (inr e)]).
          simpl. split; [unfold h2; rewrite <- !app_assoc; reflexivity|].
          split; [rewrite sessions_app, Hse; reflexivity|].
          split.
          - rewrite first_failed_app, Hfe. simpl. split; [reflexivity|].
            exists (evs ++ [lg]). rewrite <- app_assoc. reflexivity.
          - intros _. right. exists ep, rest, addr, c, (inr e), [].
            split; [reflexivity|]. split; [|auto].
            rewrite conns_app, Hce. reflexivity. }
      destruct (IH Hrest (Some cl) (h2 ++ [EvSshDial "tcp" addr c (inl cl)]))
        as (evs' & Hext & Hs' & Hf' & _).
      exists (evs ++ [lg; EvSshDial "tcp" addr c (inl cl)] ++ evs').
      split; [rewrite Hext; unfold h2; rewrite <- !app_assoc; reflexivity|].
      split; [rewrite !sessions_app, Hse, Hs'; reflexivity|].
      split.
      * rewrite first_failed_app, Hfe, first_failed_app. simpl.
        destruct (first_failed evs') as [ev|]; [|exact Hf'].
        destruct Hf' as (Hr & pre & ->). split; [exact Hr|].
        exists (evs ++ [lg; EvSshDial "tcp" addr c (inl cl)] ++ pre).
        rewrite <- !app_assoc. reflexivity.
      * intros _. right.
        exists ep, rest, addr, c, (inl cl), (conns evs').
        split; [reflexivity|]. split; [|auto].
        rewrite !conns_app, Hce. reflexivity.
Qed.


(** What stops the loop of [Connect], and what lets it run to its end:
    it returns nil at an endpoint whose auth configuration came with an
    error, it returns the report of the first dial or handshake answered
    with an error, it ends the process or panics where the resolution of
    an address does (or panics on a nil configuration that came without an
    error); in every other run it reaches the end of the chain. *)
Lemma Connect_loop_outcome (eps : list EndpointIface) :
  Forall quiet eps ->
  forall client0 h, exists evs,
    snd (Connect_loop w eps client0 h) = h ++ evs
    /\ match fst (Connect_loop w eps client0 h) with
       | Ok (Next _) => first_failed evs = None /\ Forall configured eps
       | Ok (Return (Some e)) =>
           exists ev, first_failed evs = Some ev /\ report ev = Some e
       | Ok (Return None) =>
           exists ep, In ep eps /\ snd (ep_GetSSHConfig ep) <> None
       | Exit code => exists ep hi, In ep eps /\ fst (ep_String ep hi) = Exit code
       | Panic msg =>
           exists ep, In ep eps
             /\ ((exists hi, fst (ep_String ep hi) = Panic msg)
                 \/ (ep_GetSSHConfig ep = (None, None) /\ msg = nil_deref))
       end.
Proof.
  induction eps as [|ep rest IH]; intros Hq client0 h.
  - exists []. simpl. rewrite app_nil_r. split; [reflexivity|].
    split; [reflexivity|constructor].
  - inversion Hq as [|? ? Hep Hrest]; subst.
    rewrite Connect_loop_step.
    destruct (ep_GetSSHConfig ep) as [cfg [e|]] eqn:Hcfg.
    { exists []. simpl. rewrite app_nil_r. split; [reflexivity|].
      exists ep. split; [left; reflexivity|]. rewrite Hcfg. discriminate. }
    destruct (Hep h) as (evs & Hevs & Hpas).
    pose proof (first_failed_quiet _ (passive_conns _ Hpas)) as Hfe.
    destruct (ep_String ep h) as [[addr|c|s] h1] eqn:Hstr; simpl in Hevs; subst h1.
    2:{ exists evs. simpl. split; [reflexivity|].
        exists ep, h. split; [left; reflexivity|]. rewrite Hstr. reflexivity. }
    2:{ exists evs. simpl. split; [reflexivity|].
        exists ep. split; [left; reflexivity|]. left. exists h. rewrite Hstr. reflexivity. }
    cbv zeta.
    set (lg := EvLog LInfo ("Attempting to connect to " ++ addr)%string).
    assert (Hstep : forall client' pre c,
              first_failed pre = None -> cfg = Some c ->
              exists evs0,
                snd (Connect_loop w rest client' (h ++ pre)) = h ++ evs0
                /\ match fst (Connect_loop w rest client' (h ++ pre)) with
                   | Ok (Next _) => first_failed evs0 = None /\ Forall configured (ep :: rest)
                   | Ok (Return (Some e)) =>
                       exists ev, first_failed evs0 = Some ev /\ report ev = Some e
                   | Ok (Return None) =>
                       exists ep', In ep' (ep :: rest) /\ snd (ep_GetSSHConfig ep') <> None
                   | Exit code =>
                       exists ep' hi, In ep' (ep :: rest) /\ fst (ep_String ep' hi) = Exit code
                   | Panic msg =>
                       exists ep', In ep' (ep :: rest)
                         /\ ((exists hi, fst (ep_String ep' hi) = Panic msg)
                             \/ (ep_GetSSHConfig ep' = (None, None) /\ msg = nil_deref))
                   end).
    { intros client' pre c Hpre ->.
      destruct (IH Hrest client' (h ++ pre)) as (evs' & Hext & Hres).
      exists (pre ++ evs'). split; [rewrite Hext, app_assoc; reflexivity|].
      rewrite first_failed_app, Hpre.
      destruct (fst (Connect_loop w rest client' (h ++ pre))) as [[cl|[e|]]|code|msg].
      - destruct Hres as [Hff Hall]. split; [exact Hff|].
        constructor; [exists c; exact Hcfg|exact Hall].
      - exact Hres.
      - destruct Hres as (ep' & Hin & Hne). exists ep'. split; [right; exact Hin|exact Hne].
      - destruct Hres as (ep' & hi & Hin & Hs). exists ep', hi.
        split; [right; exact Hin|exact Hs].
      - destruct Hres as (ep' & Hin & Hor). exists ep'.
        split; [right; exact Hin|exact Hor]. }
    destruct client0 as [p|].
    + set (h2 := (h ++ evs) ++ [lg]).
      destruct (w_clientDial w h2 p addr) as [conn|e] eqn:Hd.
      2:{ exists (evs ++ [lg; EvClientDial p "tcp" addr (inr e)]).
          simpl. split; [unfold h2; rewrite <- !app_assoc; reflexivity|].
          exists (EvClientDial p "tcp" addr (inr e)).
          rewrite first_failed_app, Hfe. split; reflexivity. }
      set (h3 := h2 ++ [EvClientDial p "tcp" addr (inl conn)]).
      destruct cfg as [c|].
      2:{ exists (evs ++ [lg; EvClientDial p "tcp" addr (inl conn)]).
          simpl. split; [unfold h3, h2; rewrite <- !app_assoc; reflexivity|].
          exists ep. split; [left; reflexivity|]. right. split; [exact Hcfg|reflexivity]. }
      destruct (w_NewClientConn w h3 conn addr c) as [ncc|e] eqn:Hn.
      2:{ exists (evs ++ [lg; EvClientDial p "tcp" addr (inl conn);
                          EvNewClientConn conn addr c (inr e)]).
          simpl. split; [unfold h3, h2; rewrite <- !app_assoc; reflexivity|].
          exists (EvNewClientConn conn addr c (inr e)).
          rewrite first_failed_app, Hfe. split; reflexivity. }
      replace (h3 ++ [EvNewClientConn conn addr c (inl ncc)])
        with (h ++ (evs ++ [lg; EvClientDial p "tcp" addr (inl conn);
                            EvNewClientConn conn addr c (inl ncc)]))
        by (unfold h3, h2; rewrite <- !app_assoc; reflexivity).
      apply (Hstep _ _ c); [|reflexivity].
      rewrite first_failed_app, Hfe. reflexivity.
    + set (h2 := (h ++ evs) ++ [lg]).
      destruct cfg as [c|].
      2:{ exists (evs ++ [lg]).
          simpl. split; [unfold h2; rewrite <- !app_assoc; reflexivity|].
          exists ep. split; [left; reflexivity|]. right. split; [exact Hcfg|reflexivity]. }
      destruct (w_sshDial w h2 addr c) as [cl|e] eqn:Hd.
      2:{ exists (evs ++ [lg; EvSshDial "tcp" addr c (inr e)]).
          simpl. split; [unfold h2; rewrite <- !app_assoc; reflexivity|].
          exists (EvSshDial "tcp" addr c (inr e)).
          rewrite first_failed_app, Hfe. split; reflexivity. }
      replace (h2 ++ [EvSshDial "tcp" addr c (inl cl)])
        with (h ++ (evs ++ [lg; EvSshDial "tcp" addr c (inl cl)]))
        by (unfold h2; rewrite <- !app_assoc; reflexivity).
      apply (Hstep _ _ c); [|reflexivity].
      rewrite first_failed_app, Hfe. reflexivity.
Qed.

(** A chain that starts from a client or has a hop ends with a client. *)
Lemma chain_last prev hops ds last :
  chain prev hops ds last -> prev <> None \/ hops <> [] -> exists c, last = Some c.
Proof.
  induction 1 as [prev|addr cfg c hops ds last _ IH|p addr cfg conn ncc hops ds last _ IH];
    intros Hne.
  - destruct prev as [c|]; [eauto|]. destruct Hne as [Hne|Hne]; congruence.
  - apply IH. left. discriminate.
  - apply IH. left. discriminate.
Qed.

(** The resolution of an EC2 endpoint pushes a key and writes to the log;
    it neither dials nor opens a session. *)
Lemma ec2_quiet (e : EC2Endpoint) : quiet (EC2Endpoint_iface w e).
Proof.
  intros h. simpl. destruct (Instance_ e) as [i|] eqn:Hi.
  - rewrite (String_cases w e i h Hi), (sendPublicKey_cases w e i h).
    destruct (w_SendSSHPublicKey w h (push_input e i)) as [out|err].
    + destruct (Success out); simpl; eexists;
        (split; [rewrite <- ?app_assoc; reflexivity|reflexivity]).
    + destruct (errors_As_Throttling err); simpl; eexists;
        (split; [rewrite <- ?app_assoc; reflexivity|reflexivity]).
  - exists []. unfold String_, sendPublicKey, bind, panic. rewrite Hi. simpl.
    rewrite app_nil_r. split; reflexivity.
Qed.

(** The hop of an EC2 endpoint carries the endpoint's own key, user and
    selected address. *)
Lemma ec2_hop_own_key_and_address (e : EC2Endpoint) (i : Instance)
      (a : string) (cfg : ClientConfig) :
  Instance_ e = Some i ->
  hop_of (EC2Endpoint_iface w e) (a, cfg) ->
  a = selected_address e i
  /\ exists key, w_ParsePrivateKey w (PrivateKey e) = inl key
       /\ cfg = {| cc_User := User e; cc_Auth := [PublicKeys key];
                   cc_HostKeyCallback := InsecureIgnoreHostKey |}.
Proof.
  intros Hi [Hcfg [hi Hstr]]. simpl in *. split.
  - rewrite (String_cases w e i hi Hi) in Hstr.
    destruct (sendPublicKey w (Some i) (User e) (PublicKey e) hi) as [[[err|]|c|s] h'];
      simpl in Hstr; congruence.
  - unfold GetSSHConfig in Hcfg.
    destruct (w_ParsePrivateKey w (PrivateKey e)) as [key|err]; [|discriminate].
    exists key. split; [reflexivity|]. congruence.
Qed.

End Chain.

(** ** The interactive session *)

(** Case analysis over the answers the session part of [Connect] gets. *)
Ltac crunch_session :=
  cbv beta iota zeta delta [Connect_session Connect_shell defer bind call callr
    emit slog os_Exit ret panic];
  repeat match goal with
         | |- context [match ?x with _ => _ end] =>
             lazymatch x with
             | context [match _ with _ => _ end] => fail
             | _ => destruct x eqn:?
             end
         end.

Section Session.
Variable w : World.

(** The session part of [Connect] only extends the trace, and neither dials
    nor shakes hands. *)
Lemma Connect_session_quiet (client : option Client) (h : trace) :
  exists evs, snd (Connect_session w client h) = h ++ evs /\ conns evs = [].
Proof.
  crunch_session; simpl.
  all: try (eexists; split;
       [first [rewrite <- ?app_assoc; reflexivity | symmetry; apply app_nil_r]
       |reflexivity]).
Qed.

(** Whatever happens in it, the session part of [Connect] asks the client
    it is given for one session, first of all, and for no other. *)
Lemma Connect_session_opens_one (client : Client) (h : trace) :
  exists evs,
    snd (Connect_session w (Some client) h) = h ++ EvNewSession client :: evs
    /\ sessions evs = [].
Proof.
  crunch_session; simpl.
  all: eexists; split; [rewrite <- ?app_assoc; reflexivity|reflexivity].
Qed.
End Session.

Lemma prefix_app (a s : string) : String.prefix a (a ++ s)%string = true.
Proof.
  induction a as [|c a IH]; simpl; [destruct s; reflexivity|].
  destruct (ascii_dec c c); [exact IH|congruence].
Qed.

Lemma contains_prefix (a s : string) : String.prefix a s = true -> contains s a = true.
Proof. intros H. destruct s; simpl; simpl in H; rewrite H; reflexivity. Qed.

Lemma contains_app (p a s : string) : contains (p ++ a ++ s)%string a = true.
Proof.
  induction p as [|c p IH].
  - simpl. apply contains_prefix, prefix_app.
  - change (contains (String c (p ++ a ++ s)) a = true). simpl. rewrite IH.
    destruct a as [|c' a']; [reflexivity|].
    destruct (ascii_dec c' c); [|reflexivity].
    destruct (String.prefix a' (p ++ String c' a' ++ s)); reflexivity.
Qed.

Lemma first_failed_shape (tr : trace) (ev : event) :
  first_failed tr = Some ev ->
  (exists n a c e, ev = EvSshDial n a c (inr e))
  \/ (exists p n a e, ev = EvClientDial p n a (inr e))
  \/ (exists k a c e, ev = EvNewClientConn k a c (inr e)).
Proof.
  induction tr as [|x tr IH]; [discriminate|].
  destruct x; simpl; auto; destruct r; auto; intros H; injection H as <-; eauto 10.
Qed.

(** C3: in a chain of N endpoints that resolve without dialing,
    (1) the first connection [Connect] makes is a direct dial, with its
    handshake, to the address the first endpoint resolved to, with the
    first endpoint's auth configuration, whatever happens later;
    (2) when the loop over the chain runs to its end, its connections are
    that one direct dial followed, for each of the N-1 endpoints after the
    first and in order, by one dial through the client of the endpoint
    before and one handshake over that dial, each at the endpoint's own
    resolved address with the endpoint's own auth configuration, and the
    one session [Connect] then asks for is asked of the client of the last
    endpoint;
    (3) the loop runs to its end unless an auth configuration fails to be
    built (it returns nil), a dial or handshake is answered with an error
    (it returns that report), or the resolution of an address ends the
    process or panics: when every configuration is built, every address
    resolves and no dial or handshake fails, all N endpoints are
    connected. *)
Theorem Connect_dials_each_hop_through_the_previous
  (w : World) (ep0 : EndpointIface) (rest : list EndpointIface) (h : trace) :
  Forall quiet (ep0 :: rest) ->
  (forall evs,
     snd (Connect w (ep0 :: rest) h) = h ++ evs ->
     conns evs = []
     \/ exists a cfg r tl,
          conns evs = EvSshDial "tcp" a cfg r :: tl /\ hop_of ep0 (a, cfg))
  /\ (forall client h',
        Connect_loop w (ep0 :: rest) None h = (Ok (Next client), h') ->
        exists hops ds,
          conns (snd (Connect w (ep0 :: rest) h)) = conns h ++ ds
          /\ Forall2 hop_of (ep0 :: rest) hops
          /\ chain None hops ds client
          /\ directs ds = 1
          /\ nested_dials ds = length rest
          /\ nested_handshakes ds = length rest
          /\ exists c,
               client = Some c
               /\ sessions (snd (Connect w (ep0 :: rest) h)) = sessions h ++ [EvNewSession c])
  /\ (exists evs,
        snd (Connect_loop w (ep0 :: rest) None h) = h ++ evs
        /\ match fst (Connect_loop w (ep0 :: rest) None h) with
           | Ok (Next _) =>
               first_failed evs = None /\ Forall configured (ep0 :: rest)
           | Ok (Return (Some e)) =>
               exists ev, first_failed evs = Some ev /\ report ev = Some e
           | Ok (Return None) =>
               exists ep, In ep (ep0 :: rest) /\ snd (ep_GetSSHConfig ep) <> None
           | Exit code =>
               exists ep hi, In ep (ep0 :: rest) /\ fst (ep_String ep hi) = Exit code
           | Panic msg =>
               exists ep, In ep (ep0 :: rest)
                 /\ ((exists hi, fst (ep_String ep hi) = Panic msg)
                     \/ (ep_GetSSHConfig ep = (None, None) /\ msg = nil_deref))
           end
        /\ (Forall configured (ep0 :: rest) ->
            (forall ep hi, In ep (ep0 :: rest) -> exists a, fst (ep_String ep hi) = Ok a) ->
            first_failed evs = None ->
            exists c, fst (Connect_loop w (ep0 :: rest) None h) = Ok (Next (Some c)))).
Proof.
  intros Hq. split; [|split].
  - intros evs Hevs.
    destruct (Connect_loop_post w (ep0 :: rest) Hq None h)
      as (evs0 & Hext & _ & _ & Hfirst).
    assert (Hc : conns evs = conns evs0).
    { unfold Connect, bind in Hevs.
      destruct (Connect_loop w (ep0 :: rest) None h) as [[[client|err]|c|s] h1];
        simpl in Hext; subst h1.
      - destruct (Connect_session_quiet w client (h ++ evs0)) as (evs1 & Hs & Hc1).
        rewrite Hs, <- app_assoc in Hevs. apply app_inv_head in Hevs. subst evs.
        rewrite conns_app, Hc1, app_nil_r. reflexivity.
      - simpl in Hevs. apply app_inv_head in Hevs. now subst.
      - simpl in Hevs. apply app_inv_head in Hevs. now subst.
      - simpl in Hevs. apply app_inv_head in Hevs. now subst. }
    rewrite Hc. destruct (Hfirst eq_refl) as [Hnone|Hsome]; [left; assumption|].
    destruct Hsome as (ep0' & rest' & a & cfg & r & tl & Heq & Hcs & Hhop).
    injection Heq as <- <-. right. eauto 10.
  - intros client h' Hrun.
    destruct (Connect_loop_chain w (ep0 :: rest) Hq None h client h' Hrun)
      as (hops & ds & Hc & Hses & Hf & Hch).
    exists hops, ds.
    assert (Hlen : length hops = S (length rest)).
    { apply Forall2_length in Hf. simpl in Hf. congruence. }
    destruct (chain_counts _ _ _ _ Hch) as (Hd & Hn & Hh).
    destruct hops as [|hop hops]; [discriminate|]. simpl in Hlen.
    split; [|split; [assumption|split; [assumption|]]].
    + unfold Connect. rewrite (bind_ok _ _ _ _ _ Hrun).
      destruct (Connect_session_quiet w client h') as (evs1 & Hs & Hc1).
      rewrite Hs, conns_app, Hc1, app_nil_r. exact Hc.
    + simpl in Hn, Hh. split; [exact Hd|]. split; [lia|]. split; [lia|].
      destruct (chain_last _ _ _ _ Hch) as (c & ->); [right; discriminate|].
      exists c. split; [reflexivity|].
      unfold Connect. rewrite (bind_ok _ _ _ _ _ Hrun).
      destruct (Connect_session_opens_one w c h') as (evs1 & Hs & Hs1).
      rewrite Hs, sessions_app, Hses. simpl. rewrite Hs1. reflexivity.
  - destruct (Connect_loop_outcome w (ep0 :: rest) Hq None h) as (evs & Hext & Hres).
    exists evs. split; [exact Hext|]. split; [exact Hres|].
    intros Hall Hstr Hff.
    destruct (Connect_loop w (ep0 :: rest) None h) as [[[client|[e|]]|code|msg] h'] eqn:Hrun;
      simpl in Hres, Hext.
    + destruct (Connect_loop_chain w (ep0 :: rest) Hq None h client h' Hrun)
        as (hops & ds & _ & _ & Hf & Hch).
      destruct (chain_last _ _ _ _ Hch) as (c & ->).
      * right. intros ->. inversion Hf.
      * exists c. reflexivity.
    + destruct Hres as (ev & Hev & _). congruence.
    + destruct Hres as (ep & Hin & Hne). exfalso.
      rewrite Forall_forall in Hall. destruct (Hall ep Hin) as (cfg & Hcfg).
      rewrite Hcfg in Hne. apply Hne. reflexivity.
    + destruct Hres as (ep & hi & Hin & Hs). destruct (Hstr ep hi Hin) as (a & Ha).
      congruence.
    + destruct Hres as (ep & Hin & [(hi & Hs)|(Hcfg & _)]).
      * destruct (Hstr ep hi Hin) as (a & Ha). congruence.
      * exfalso. rewrite Forall_forall in Hall. destruct (Hall ep Hin) as (cfg & Hc).
        congruence.
Qed.
(** C3 on the bastion followed by the inner host, every call succeeding:
    two hops, the second through the client of the first, and the session
    on the client of the second. *)
Lemma Connect_dials_each_hop_through_the_previous_witness :
  exists hops ds,
    conns (snd (Connect Scenario.calm
                  [EC2Endpoint_iface Scenario.calm bastion;
                   EC2Endpoint_iface Scenario.calm inner] [])) = ds
    /\ Forall2 hop_of [EC2Endpoint_iface Scenario.calm bastion;
                       EC2Endpoint_iface Scenario.calm inner] hops
    /\ chain None hops ds (Some (ClientH 6))
    /\ directs ds = 1 /\ nested_dials ds = 1 /\ nested_handshakes ds = 1
    /\ exists c,
         Some (ClientH 6) = Some c
         /\ sessions (snd (Connect Scenario.calm
                             [EC2Endpoint_iface Scenario.calm bastion;
                              EC2Endpoint_iface Scenario.calm inner] []))
            = [] ++ [EvNewSession c].
Proof.
  assert (Hq : Forall quiet [EC2Endpoint_iface Scenario.calm bastion;
                             EC2Endpoint_iface Scenario.calm inner]).
  { repeat constructor; apply ec2_quiet. }
  destruct (proj1 (proj2 (Connect_dials_each_hop_through_the_previous Scenario.calm
                     (EC2Endpoint_iface Scenario.calm bastion)
                     [EC2Endpoint_iface Scenario.calm inner] [] Hq))
                  (Some (ClientH 6))
                  (snd (Connect_loop Scenario.calm
                          [EC2Endpoint_iface Scenario.calm bastion;
                           EC2Endpoint_iface Scenario.calm inner] None []))
                  eq_refl)
    as (hops & ds & H).
  exists hops, ds. exact H.
Defined.

(** C4 as stated fails: the bastion refuses the key, [Connect] returns
    "failed to dial: ssh: handshake failed: ..." and the text does not carry
    the bastion's address 1.1.1.1:22. *)
Lemma failure_carries_address_fails :
  ~ failure_carries_address refused [EC2Endpoint_iface refused bastion].
Proof.
  intros H.
  destruct (H (EvSshDial "tcp" "1.1.1.1:22"
                 {| cc_User := "ec2-user";
                    cc_Auth := [PublicKeys (SignerOf "PRIVATE-i-aaa")];
                    cc_HostKeyCallback := InsecureIgnoreHostKey |}
                 (inr (ErrorString
     "ssh: handshake failed: ssh: unable to authenticate, attempted methods [none publickey], no supported methods remain")))
              "1.1.1.1:22"%string eq_refl eq_refl) as (err & Hr & Hc & _).
  vm_compute in Hr. injection Hr as <-. vm_compute in Hc. discriminate.
Qed.

(** C4, amended: in a chain whose endpoints resolve without dialing, when a
    dial or a handshake is answered with an error, [Connect] does nothing
    more and returns an error, and no session is opened.  The error of a
    failed handshake over a nested dial names the hop's address; the error
    of a failed direct dial (with its handshake) or nested dial is "failed
    to dial: " followed by the text of the cause. *)
Theorem Connect_stops_at_failed_hop
  (w : World) (eps : list EndpointIface) (h evs : trace) (ev : event) :
  Forall quiet eps ->
  snd (Connect w eps h) = h ++ evs ->
  first_failed evs = Some ev ->
  fst (Connect w eps h) = Ok (report ev)
  /\ (exists pre, evs = pre ++ [ev])
  /\ sessions evs = []
  /\ ((exists k a c e,
         ev = EvNewClientConn k a c (inr e)
         /\ report ev = Some (ErrorString
              ("failed to create new ssh connection to " ++ a ++ ": " ++ Error e)%string)
         /\ contains ("failed to create new ssh connection to " ++ a ++ ": " ++ Error e) a
            = true)
      \/ (exists e,
           ((exists n a c, ev = EvSshDial n a c (inr e))
            \/ (exists p n a, ev = EvClientDial p n a (inr e)))
           /\ report ev = Some (ErrorString ("failed to dial: " ++ Error e)%string))).
Proof.
  intros Hq Hevs Hff.
  destruct (Connect_loop_post w eps Hq None h) as (evs0 & Hext & Hs0 & Hf0 & _).
  assert (Hshape := first_failed_shape _ _ Hff).
  assert (Hmain : fst (Connect w eps h) = Ok (report ev)
                  /\ (exists pre, evs = pre ++ [ev]) /\ sessions evs = []).
  { unfold Connect, bind in *.
    destruct (Connect_loop w eps None h) as [[[client|err]|c|s] h1];
      simpl in Hext; subst h1; simpl in Hf0.
    - (* the loop ran to its end: nothing failed *)
      destruct (Connect_session_quiet w client (h ++ evs0)) as (evs1 & Hs & Hc1).
      rewrite Hs, <- app_assoc in Hevs. apply app_inv_head in Hevs. subst evs.
      rewrite first_failed_app, (first_failed_quiet _ Hc1) in Hff.
      destruct (first_failed evs0); [|discriminate].
      destruct Hf0 as [Hr _]. discriminate.
    - simpl in Hevs. apply app_inv_head in Hevs. subst evs0.
      rewrite Hff in Hf0. destruct Hf0 as [Hr Hpre]. simpl.
      injection Hr as ->. auto.
    - simpl in Hevs. apply app_inv_head in Hevs. subst evs0.
      rewrite Hff in Hf0. destruct Hf0 as [Hr _]. discriminate.
    - simpl in Hevs. apply app_inv_head in Hevs. subst evs0.
      rewrite Hff in Hf0. destruct Hf0 as [Hr _]. discriminate. }
  destruct Hmain as (Hr & Hpre & Hs). repeat (split; [assumption|]).
  destruct Hshape as [(n & a & c & e & ->)|[(p & n & a & e & ->)|(k & a & c & e & ->)]].
  - right. exists e. split; [left; eauto|reflexivity].
  - right. exists e. split; [right; eauto|reflexivity].
  - left. exists k, a, c, e. split; [reflexivity|]. split; [reflexivity|].
    apply (contains_app "failed to create new ssh connection to " a (": " ++ Error e)).
Qed.

(** The amended C4 where the handshake with the inner host fails. *)
Lemma Connect_stops_at_failed_hop_witness :
  fst (Connect inner_refused
         [EC2Endpoint_iface inner_refused bastion;
          EC2Endpoint_iface inner_refused inner] [])
  = Ok (Some (ErrorString
      "failed to create new ssh connection to 10.0.0.2:22: ssh: handshake failed: EOF")).
Proof.
  assert (Hq : Forall quiet [EC2Endpoint_iface inner_refused bastion;
                             EC2Endpoint_iface inner_refused inner]).
  { repeat constructor; apply ec2_quiet. }
  exact (proj1 (Connect_stops_at_failed_hop inner_refused
                  [EC2Endpoint_iface inner_refused bastion;
                   EC2Endpoint_iface inner_refused inner] []
                  (snd (Connect inner_refused
                          [EC2Endpoint_iface inner_refused bastion;
                           EC2Endpoint_iface inner_refused inner] []))
                  (EvNewClientConn (ConnH 5) "10.0.0.2:22"
                     {| cc_User := "ec2-user";
                        cc_Auth := [PublicKeys (SignerOf "PRIVATE-i-bbb")];
                        cc_HostKeyCallback := InsecureIgnoreHostKey |}
                     (inr (ErrorString "ssh: handshake failed: EOF")))
                  Hq eq_refl eq_refl)).
Defined.

(** ** The session and the exit status *)

Section SessionFacts.
Variable w : World.

Ltac trace_ext :=
  first [rewrite <- ?app_assoc; reflexivity | symmetry; apply app_nil_r].

Lemma TermState_eqb_refl (t : TermState) : TermState_eqb t t = true.
Proof. destruct t. apply Nat.eqb_refl. Qed.

(** Whenever the session part of [Connect] returns, with or without an
    error, the terminal is not left in raw mode. *)
Lemma Connect_session_restores_on_return (client : option Client) (h : trace) :
  exists evs,
    snd (Connect_session w client h) = h ++ evs
    /\ forall r, fst (Connect_session w client h) = Ok r -> raw_after None evs = None.
Proof.
  crunch_session; simpl;
    (eexists; split; [trace_ext|]); intros r Hr; try discriminate;
    simpl; rewrite ?Z.eqb_refl, ?TermState_eqb_refl; reflexivity.
Qed.

(** When standard input is a terminal and the session part of [Connect]
    ends the process, the terminal is left in raw mode: [os.Exit] does not
    run the deferred [term.Restore]. *)
Lemma Connect_session_exit_leaves_raw (client : Client) (h : trace) (code : Z) :
  w_IsTerminal w (h ++ [EvNewSession client]) (w_stdin w) = true ->
  fst (Connect_session w (Some client) h) = Exit code ->
  exists evs st,
    snd (Connect_session w (Some client) h) = h ++ evs
    /\ raw_after None evs = Some (w_stdin w, st)
    /\ code = 1%Z.
Proof.
  intros Hterm.
  crunch_session; simpl; intros Hx; try discriminate; try congruence;
    (do 2 eexists; split; [trace_ext|]); simpl; split; try reflexivity; congruence.
Qed.

(** When standard input is not a terminal, nothing is switched to raw mode
    and no pseudo-terminal is requested. *)
Lemma Connect_session_plain_without_terminal (client : Client) (h : trace) :
  w_IsTerminal w (h ++ [EvNewSession client]) (w_stdin w) = false ->
  exists evs,
    snd (Connect_session w (Some client) h) = h ++ evs
    /\ filter is_tty_setup evs = [].
Proof.
  intros Hterm.
  crunch_session; simpl; try congruence;
    (eexists; split; [trace_ext|reflexivity]).
Qed.

(** On a terminal where every call succeeds: raw mode first, then the
    pseudo-terminal with the height and width just read, then the shell;
    the original state is restored after the wait and before the session
    is closed. *)
Lemma Connect_session_on_terminal
      (client : Client) (h : trace) (sess : Session) (st : TermState)
      (width height : Z) :
  let fd := w_stdin w in
  let h1 := h ++ [EvNewSession client] in
  let h2 := h1 ++ [EvIsTerminal fd] in
  let h3 := h2 ++ [EvMakeRaw fd (inl st)] in
  let h4 := h3 ++ [EvGetSize fd] in
  let h5 := h4 ++ [EvRequestPty sess "xterm-256color" height width modes] in
  let h6 := h5 ++ [EvShell sess] in
  w_NewSession w h client = inl sess ->
  w_IsTerminal w h1 fd = true ->
  w_MakeRaw w h2 fd = inl st ->
  w_GetSize w h3 fd = inl (width, height) ->
  w_RequestPty w h4 sess = None ->
  w_Shell w h5 sess = None ->
  Connect_session w (Some client) h
  = (Ok (w_Wait w h6 sess),
     h6 ++ [EvWait sess; EvRestore fd st; EvSessionClose sess]).
Proof.
  intros fd h1 h2 h3 h4 h5 h6 Hs Ht Hm Hg Hp Hsh.
  subst fd h1 h2 h3 h4 h5 h6.
  cbv beta iota zeta delta [Connect_session Connect_shell defer bind call callr
    emit slog os_Exit ret panic].
  rewrite Hs, Ht, Hm, Hg, Hp, Hsh.
  rewrite <- !app_assoc. reflexivity.
Qed.

End SessionFacts.

Section MainFacts.
Variable w : World.
Variable NewEndpoint : string -> Endpoint.

(** How [main] turns the result of [run] into the end of the process. *)
Lemma main_after_run (fuel : nat) (c : Context) (h h' : trace) (r : Ran (option error)) :
  run w NewEndpoint fuel c (h ++ [EvGo GoSignalHandler]) = (Ok r, h') ->
  main w NewEndpoint fuel c h
  = match r with
    | StillRunning => (Ok StillRunning, h')
    | Returned None => (Ok (Returned tt), h')
    | Returned (Some (ExitError status _)) => (Exit status, h')
    | Returned (Some err) => (Exit 1%Z, h' ++ [EvLog LError (Error err)])
    end.
Proof.
  intros Hrun. unfold main.
  rewrite (bind_ok _ _ h tt (h ++ [EvGo GoSignalHandler])) by reflexivity.
  rewrite (bind_ok _ _ _ _ _ Hrun).
  destruct r as [[[m|m c0|m|st m]|]|]; reflexivity.
Qed.

End MainFacts.

(** C5, at the input where it fails: the private key of the bastion
    endpoint does not parse, so building its auth configuration fails.  The
    claim has the run return an error and the process exit non-zero;
    [Connect] returns nil from its loop, no dial is made and no session is
    opened, and the process exits with status 0. *)
Theorem main_exits_zero_when_auth_config_fails :
  GetSSHConfig bad_key bastion = (None, Some (ErrorString "ssh: no key found"))
  /\ Connect bad_key [EC2Endpoint_iface bad_key bastion] [] = (Ok None, [])
  /\ fst (run bad_key plain_endpoint 0 to_bastion [EvGo GoSignalHandler])
     = Ok (Returned None)
  /\ exit_status bad_key plain_endpoint 0 to_bastion [] = Some 0%Z
  /\ conns (snd (main bad_key plain_endpoint 0 to_bastion [])) = []
  /\ sessions (snd (main bad_key plain_endpoint 0 to_bastion [])) = [].
Proof. repeat split; reflexivity. Qed.

(** C9, at the input where it fails: standard input is a terminal, raw
    mode, the size and the pseudo-terminal (40 rows, 120 columns) succeed,
    and the remote side refuses to start the shell.  The claim has the
    original state restored on every exit path; [Connect] logs the failure
    and calls [os.Exit(1)], the deferred [term.Restore] never runs, and the
    terminal is left in raw mode. *)
Theorem shell_failure_leaves_terminal_raw :
  let r := Connect no_shell [EC2Endpoint_iface no_shell bastion] [] in
  fst r = Exit 1%Z
  /\ In (EvMakeRaw 0 (inl (TermStateH 7))) (snd r)
  /\ In (EvRequestPty (SessionH 3) "xterm-256color" 40 120 modes) (snd r)
  /\ (forall fd st, ~ In (EvRestore fd st) (snd r))
  /\ raw_after None (snd r) = Some (0%Z, TermStateH 7).
Proof.
  cbv zeta. split; [reflexivity|]. split; [vm_compute; tauto|].
  split; [vm_compute; tauto|]. split; [|reflexivity].
  intros fd st H. vm_compute in H.
  repeat (destruct H as [H|H]; [discriminate|]). exact H.
Qed.

(** ** The tunnel forwarder *)

Section Forwarder.
Variable w : World.
Variables remoteHost bastionHost : EndpointIface.

(** [forward], call by call. *)
Lemma forward_step (localConn : Conn) (h : trace) :
  forward w remoteHost bastionHost localConn h
  = let '(cfg, err) := ep_GetSSHConfig bastionHost in
    let h0 := match err with
              | Some e => h ++ [EvLog LError (Error e)]
              | None => h
              end in
    match ep_String bastionHost h0 with
    | (Exit c, h1) => (Exit c, h1)
    | (Panic s, h1) => (Panic s, h1)
    | (Ok addr, h1) =>
        match cfg with
        | None => (Panic nil_deref, h1)
        | Some c =>
            let r := w_sshDial w h1 addr c in
            let h2 := h1 ++ [EvSshDial "tcp" addr c r] in
            match r with
            | inr e => (Ok tt, h2 ++ [EvLog LError ("server dial error err=" ++ Error e)%string])
            | inl serverConn =>
                match ep_String bastionHost h2 with
                | (Exit c, h3) => (Exit c, h3)
                | (Panic s, h3) => (Panic s, h3)
                | (Ok addr', h3) =>
                    let h4 := h3 ++ [EvLog LDebug ("connected to " ++ addr' ++ " (1 of 2)")%string] in
                    match ep_String remoteHost h4 with
                    | (Exit c, h5) => (Exit c, h5)
                    | (Panic s, h5) => (Panic s, h5)
                    | (Ok raddr, h5) =>
                        let r2 := w_clientDial w h5 serverConn raddr in
                        let h6 := h5 ++ [EvClientDial serverConn "tcp" raddr r2] in
                        match r2 with
                        | inr e =>
                            (Ok tt, h6 ++ [EvLog LError ("remote dial error err=" ++ Error e)%string])
                        | inl remoteConn =>
                            match ep_String remoteHost h6 with
                            | (Exit c, h7) => (Exit c, h7)
                            | (Panic s, h7) => (Panic s, h7)
                            | (Ok raddr', h7) =>
                                (Ok tt,
                                 h7 ++ [EvLog LDebug ("connected to " ++ raddr' ++ " (2 of 2)")%string;
                                        EvGo (GoCopyConn localConn remoteConn);
                                        EvGo (GoCopyConn remoteConn localConn)])
                            end
                        end
                    end
                end
            end
        end
    end.
Proof.
  unfold forward. destruct (ep_GetSSHConfig bastionHost) as [cfg err].
  cbv zeta.
  assert (E0 : (match err with Some e => slog LError (Error e) | None => ret tt end) h
               = (Ok tt, match err with Some e => h ++ [EvLog LError (Error e)] | None => h end))
    by (destruct err; reflexivity).
  rewrite (bind_ok _ _ _ _ _ E0).
  set (h0 := match err with Some e => h ++ [EvLog LError (Error e)] | None => h end).
  unfold bind at 1. destruct (ep_String bastionHost h0) as [[addr|c|s] h1]; try reflexivity.
  destruct cfg as [c|]; [|reflexivity].
  unfold bind at 1. unfold ssh_Dial, callr.
  destruct (w_sshDial w h1 addr c) as [serverConn|e]; [|reflexivity].
  unfold bind at 1.
  destruct (ep_String bastionHost _) as [[addr'|c'|s] h3]; try reflexivity.
  unfold bind at 1. unfold slog at 1, emit at 1.
  unfold bind at 1.
  destruct (ep_String remoteHost _) as [[raddr|c'|s] h5]; try reflexivity.
  unfold bind at 1. unfold client_Dial, callr.
  destruct (w_clientDial w h5 serverConn raddr) as [remoteConn|e]; [|reflexivity].
  unfold bind at 1.
  destruct (ep_String remoteHost _) as [[raddr'|c'|s] h7]; try reflexivity.
  unfold bind, slog, emit. rewrite <- !app_assoc. reflexivity.
Qed.


Lemma directs_app tr1 tr2 : directs (tr1 ++ tr2) = directs tr1 + directs tr2.
Proof. unfold directs. now rewrite filter_app, length_app. Qed.

Lemma spawned_app tr1 tr2 : spawned (tr1 ++ tr2) = spawned tr1 ++ spawned tr2.
Proof. apply flat_map_app. Qed.

Lemma forwards_app tr1 tr2 : forwards (tr1 ++ tr2) = forwards tr1 + forwards tr2.
Proof. unfold forwards. now rewrite spawned_app, filter_app, length_app. Qed.

Lemma accepted_conns_app tr1 tr2 :
  accepted_conns (tr1 ++ tr2) = accepted_conns tr1 ++ accepted_conns tr2.
Proof. apply flat_map_app. Qed.

Lemma accepted_app tr1 tr2 : accepted (tr1 ++ tr2) = accepted tr1 + accepted tr2.
Proof. unfold accepted. now rewrite accepted_conns_app, length_app. Qed.

Lemma conn_closes_app tr1 tr2 : conn_closes (tr1 ++ tr2) = conn_closes tr1 ++ conn_closes tr2.
Proof. apply filter_app. Qed.

Lemma pending_forwards_app p1 p2 :
  pending_forwards (p1 ++ p2) = pending_forwards p1 + pending_forwards p2.
Proof. unfold pending_forwards. now rewrite filter_app, length_app. Qed.

Lemma closes_app tr1 tr2 : closes (tr1 ++ tr2) = closes tr1 ++ closes tr2.
Proof. apply filter_app. Qed.

Lemma passive_directs evs : forallb passive evs = true -> directs evs = 0.
Proof.
  intros H. unfold directs. rewrite passive_filter; [reflexivity| |assumption].
  intros []; simpl; congruence.
Qed.

Lemma passive_closes evs : forallb passive evs = true -> closes evs = [].
Proof. apply passive_filter. intros []; simpl; congruence. Qed.

Lemma passive_spawned evs : forallb passive evs = true -> spawned evs = [].
Proof.
  induction evs as [|e evs IH]; [reflexivity|].
  simpl. intros H. apply andb_prop in H as [He Hevs].
  rewrite (IH Hevs). destruct e; simpl in *; congruence.
Qed.

Lemma passive_accepted evs : forallb passive evs = true -> accepted_conns evs = [].
Proof.
  induction evs as [|e evs IH]; [reflexivity|].
  simpl. intros H. apply andb_prop in H as [He Hevs].
  rewrite (IH Hevs). destruct e; simpl in *; congruence.
Qed.

Lemma passive_conn_closes evs : forallb passive evs = true -> conn_closes evs = [].
Proof. apply passive_filter. intros []; simpl; congruence. Qed.

Ltac quiet_facts H :=
  pose proof (passive_closes _ H);
  pose proof (passive_directs _ H);
  pose proof (passive_spawned _ H);
  pose proof (passive_conns _ H);
  pose proof (first_failed_quiet _ (passive_conns _ H)).

Ltac counts :=
  repeat progress
    (rewrite ?closes_app, ?directs_app, ?spawned_app, ?conns_app, ?first_failed_app;
     repeat match goal with
       | H : closes ?e = [] |- context [closes ?e] => rewrite H
       | H : conns ?e = [] |- context [conns ?e] => rewrite H
       | H : directs ?e = 0 |- context [directs ?e] => rewrite H
       | H : spawned ?e = [] |- context [spawned ?e] => rewrite H
       | H : first_failed ?e = None |- context [first_failed ?e] => rewrite H
       end;
     simpl).

(** Every run of [forward] between quiet endpoints: it closes no listener;
    if it returns it made exactly one direct dial and started no further
    [forward]; and if its dial, handshake or channel open was answered with
    an error it returned, having started nothing. *)
Lemma forward_post (localConn : Conn) (h : trace) :
  quiet remoteHost -> quiet bastionHost ->
  exists evs,
    snd (forward w remoteHost bastionHost localConn h) = h ++ evs
    /\ closes evs = []
    /\ (fst (forward w remoteHost bastionHost localConn h) = Ok tt ->
        directs evs = 1
        /\ filter is_forward (spawned evs) = []
        /\ exists a c r tl,
             conns evs = EvSshDial "tcp" a c r :: tl
             /\ fst (ep_GetSSHConfig bastionHost) = Some c
             /\ exists hi, fst (ep_String bastionHost hi) = Ok a)
    /\ (first_failed evs <> None ->
        fst (forward w remoteHost bastionHost localConn h) = Ok tt
        /\ spawned evs = []).
Proof.
  intros Hr Hb. rewrite forward_step.
  destruct (ep_GetSSHConfig bastionHost) as [cfg err] eqn:Hcfg. cbv zeta.
  set (h0 := match err with Some e => h ++ [EvLog LError (Error e)] | None => h end).
  assert (H0 : exists l0, h0 = h ++ l0 /\ forallb passive l0 = true).
  { destruct err as [e|]; [exists [EvLog LError (Error e)]|exists []];
      subst h0; rewrite ?app_nil_r; split; reflexivity. }
  destruct H0 as (l0 & -> & Hp0). quiet_facts Hp0.
  destruct (Hb (h ++ l0)) as (e1 & He1 & Hp1). quiet_facts Hp1.
  destruct (ep_String bastionHost (h ++ l0)) as [[addr|c|s] h1] eqn:Hstr;
    simpl in He1; subst h1.
  2,3: exists (l0 ++ e1); split; [now rewrite app_assoc|]; counts;
       split; [reflexivity|split; [discriminate|congruence]].
  destruct cfg as [c|].
  2: exists (l0 ++ e1); split; [now rewrite app_assoc|]; counts;
     split; [reflexivity|split; [discriminate|congruence]].
  set (h1 := (h ++ l0) ++ e1).
  assert (Hdial : forall r tl,
            exists a c0 r0 tl0,
              EvSshDial "tcp" addr c r :: tl = EvSshDial "tcp" a c0 r0 :: tl0
              /\ fst (Some c, err) = Some c0
              /\ exists hi, fst (ep_String bastionHost hi) = Ok a).
  { intros r tl. exists addr, c, r, tl. split; [reflexivity|]. split; [reflexivity|].
    exists (h ++ l0). rewrite Hstr. reflexivity. }
  destruct (w_sshDial w h1 addr c) as [serverConn|e].
  2:{ exists (l0 ++ e1 ++ [EvSshDial "tcp" addr c (inr e);
                           EvLog LError ("server dial error err=" ++ Error e)%string]).
      split; [subst h1; now rewrite <- !app_assoc|]. counts.
      split; [reflexivity|]. split; intros _; [|split; reflexivity].
      split; [reflexivity|]. split; [reflexivity|]. apply Hdial. }
  set (h2 := h1 ++ [EvSshDial "tcp" addr c (inl serverConn)]).
  destruct (Hb h2) as (e3 & He3 & Hp3). quiet_facts Hp3.
  destruct (ep_String bastionHost h2) as [[addr'|c'|s] h3]; simpl in He3; subst h3.
  2,3: exists (l0 ++ e1 ++ [EvSshDial "tcp" addr c (inl serverConn)] ++ e3);
       (split; [subst h2 h1; now rewrite <- !app_assoc|]); counts;
       split; [reflexivity|split; [discriminate|congruence]].
  set (h4 := (h2 ++ e3) ++ [EvLog LDebug ("connected to " ++ addr' ++ " (1 of 2)")%string]).
  destruct (Hr h4) as (e5 & He5 & Hp5). quiet_facts Hp5.
  destruct (ep_String remoteHost h4) as [[raddr|c'|s] h5]; simpl in He5; subst h5.
  2,3: exists (l0 ++ e1 ++ [EvSshDial "tcp" addr c (inl serverConn)] ++ e3
                 ++ [EvLog LDebug ("connected to " ++ addr' ++ " (1 of 2)")%string] ++ e5);
       (split; [subst h4 h2 h1; now rewrite <- !app_assoc|]); counts;
       split; [reflexivity|split; [discriminate|congruence]].
  set (h5 := h4 ++ e5).
  destruct (w_clientDial w h5 serverConn raddr) as [remoteConn|e].
  2:{ exists (l0 ++ e1 ++ [EvSshDial "tcp" addr c (inl serverConn)] ++ e3
                ++ [EvLog LDebug ("connected to " ++ addr' ++ " (1 of 2)")%string] ++ e5
                ++ [EvClientDial serverConn "tcp" raddr (inr e);
                    EvLog LError ("remote dial error err=" ++ Error e)%string]).
      split; [subst h5 h4 h2 h1; now rewrite <- !app_assoc|]. counts.
      split; [reflexivity|]. split; intros _; [|split; reflexivity].
      split; [reflexivity|]. split; [reflexivity|]. apply Hdial. }
  set (h6 := h5 ++ [EvClientDial serverConn "tcp" raddr (inl remoteConn)]).
  destruct (Hr h6) as (e7 & He7 & Hp7). quiet_facts Hp7.
  destruct (ep_String remoteHost h6) as [[raddr'|c'|s] h7]; simpl in He7; subst h7.
  2,3: exists (l0 ++ e1 ++ [EvSshDial "tcp" addr c (inl serverConn)] ++ e3
                 ++ [EvLog LDebug ("connected to " ++ addr' ++ " (1 of 2)")%string] ++ e5
                 ++ [EvClientDial serverConn "tcp" raddr (inl remoteConn)] ++ e7);
       (split; [subst h6 h5 h4 h2 h1; now rewrite <- !app_assoc|]); counts;
       split; [reflexivity|split; [discriminate|congruence]].
  exists (l0 ++ e1 ++ [EvSshDial "tcp" addr c (inl serverConn)] ++ e3
            ++ [EvLog LDebug ("connected to " ++ addr' ++ " (1 of 2)")%string] ++ e5
            ++ [EvClientDial serverConn "tcp" raddr (inl remoteConn)] ++ e7
            ++ [EvLog LDebug ("connected to " ++ raddr' ++ " (2 of 2)")%string;
                EvGo (GoCopyConn localConn remoteConn);
                EvGo (GoCopyConn remoteConn localConn)]).
  split; [subst h6 h5 h4 h2 h1; now rewrite <- !app_assoc|]. counts.
  split; [reflexivity|]. split; [intros _|congruence].
  split; [reflexivity|]. split; [reflexivity|]. apply Hdial.
Qed.


Lemma config_log_passive : forallb passive (config_log bastionHost) = true.
Proof. unfold config_log. destruct (snd (ep_GetSSHConfig bastionHost)); reflexivity. Qed.

(** Reading the address of a quiet endpoint. *)
Lemma quiet_read (ep : EndpointIface) (h : trace) :
  quiet ep ->
  exists r evs, ep_String ep h = (r, h ++ evs) /\ forallb passive evs = true.
Proof.
  intros Hq. destruct (Hq h) as (evs & Hext & Hp).
  exists (fst (ep_String ep h)), evs. split; [|exact Hp].
  rewrite <- Hext. apply surjective_pairing.
Qed.

(** Every run of [forward] between quiet endpoints ends in one of the ways
    of [forwarded]. *)
Lemma forward_forwarded (localConn : Conn) (h : trace) :
  quiet remoteHost -> quiet bastionHost ->
  exists res evs,
    forward w remoteHost bastionHost localConn h = (res, h ++ evs)
    /\ forwarded w remoteHost bastionHost localConn h res evs.
Proof.
  intros Hr Hb. rewrite forward_step.
  destruct (ep_GetSSHConfig bastionHost) as [cfg err] eqn:Hcfg. cbv zeta.
  assert (Hh0 : match err with Some e => h ++ [EvLog LError (Error e)] | None => h end
                = h ++ config_log bastionHost).
  { unfold config_log. rewrite Hcfg. destruct err; simpl; rewrite ?app_nil_r; reflexivity. }
  rewrite Hh0. clear Hh0.
  assert (Hfst : fst (ep_GetSSHConfig bastionHost) = cfg) by now rewrite Hcfg.
  clear Hcfg.
  set (l0 := config_log bastionHost) in *.
  destruct (quiet_read bastionHost (h ++ l0) Hb) as (r1 & e1 & Hs1 & Hp1).
  rewrite Hs1.
  destruct r1 as [addr|c|s].
  2: exists (Exit c), (l0 ++ e1); split; [now rewrite app_assoc|];
     apply (fw_no_address w remoteHost bastionHost localConn h e1 (Exit c) (Exit c));
     [exact Hs1|exact Hp1|reflexivity].
  2: exists (Panic s), (l0 ++ e1); split; [now rewrite app_assoc|];
     apply (fw_no_address w remoteHost bastionHost localConn h e1 (Panic s) (Panic s));
     [exact Hs1|exact Hp1|reflexivity].
  destruct cfg as [c|].
  2: exists (Panic nil_deref), (l0 ++ e1); split; [now rewrite app_assoc|];
     apply (fw_no_config w remoteHost bastionHost localConn h e1 addr);
     [exact Hs1|exact Hp1|exact Hfst].
  set (h1 := (h ++ l0) ++ e1) in *.
  destruct (w_sshDial w h1 addr c) as [serverConn|e] eqn:Hd.
  2:{ exists (Ok tt), (l0 ++ e1 ++ [EvSshDial "tcp" addr c (inr e);
                              EvLog LError ("server dial error err=" ++ Error e)%string]).
      split; [subst h1; now rewrite <- !app_assoc|].
      apply (fw_dial_failed w remoteHost bastionHost localConn h e1 addr c e);
        assumption. }
  set (h2 := h1 ++ [EvSshDial "tcp" addr c (inl serverConn)]).
  assert (Hrel : exists res evs,
            match ep_String bastionHost h2 with
            | (Exit c', h3) => (Exit c', h3)
            | (Panic s, h3) => (Panic s, h3)
            | (Ok addr', h3) =>
                let h4 := h3 ++ [EvLog LDebug ("connected to " ++ addr' ++ " (1 of 2)")%string] in
                match ep_String remoteHost h4 with
                | (Exit c', h5) => (Exit c', h5)
                | (Panic s, h5) => (Panic s, h5)
                | (Ok raddr, h5) =>
                    let r2 := w_clientDial w h5 serverConn raddr in
                    let h6 := h5 ++ [EvClientDial serverConn "tcp" raddr r2] in
                    match r2 with
                    | inr e =>
                        (Ok tt, h6 ++ [EvLog LError ("remote dial error err=" ++ Error e)%string])
                    | inl remoteConn =>
                        match ep_String remoteHost h6 with
                        | (Exit c', h7) => (Exit c', h7)
                        | (Panic s, h7) => (Panic s, h7)
                        | (Ok raddr', h7) =>
                            (Ok tt,
                             h7 ++ [EvLog LDebug ("connected to " ++ raddr' ++ " (2 of 2)")%string;
                                    EvGo (GoCopyConn localConn remoteConn);
                                    EvGo (GoCopyConn remoteConn localConn)])
                        end
                    end
                end
            end = (res, h2 ++ evs)
            /\ relayed w remoteHost bastionHost localConn serverConn h2 res evs).
  { destruct (quiet_read bastionHost h2 Hb) as (r3 & e3 & Hs3 & Hp3). rewrite Hs3.
    destruct r3 as [addr'|c'|s].
    2: exists (Exit c'), e3; split; [reflexivity|];
       apply (rl_no_address w remoteHost bastionHost localConn serverConn h2 e3
                (Exit c') (Exit c')); [exact Hs3|exact Hp3|reflexivity].
    2: exists (Panic s), e3; split; [reflexivity|];
       apply (rl_no_address w remoteHost bastionHost localConn serverConn h2 e3
                (Panic s) (Panic s)); [exact Hs3|exact Hp3|reflexivity].
    cbv zeta.
    set (log1 := EvLog LDebug ("connected to " ++ addr' ++ " (1 of 2)")%string).
    set (h4 := (h2 ++ e3) ++ [log1]).
    destruct (quiet_read remoteHost h4 Hr) as (r5 & e5 & Hs5 & Hp5). rewrite Hs5.
    destruct r5 as [raddr|c'|s].
    2: exists (Exit c'), (e3 ++ [log1] ++ e5); split;
       [subst h4; now rewrite <- !app_assoc|];
       apply (rl_no_remote_address w remoteHost bastionHost localConn serverConn h2 e3
                addr' e5 (Exit c') (Exit c')); try assumption; reflexivity.
    2: exists (Panic s), (e3 ++ [log1] ++ e5); split;
       [subst h4; now rewrite <- !app_assoc|];
       apply (rl_no_remote_address w remoteHost bastionHost localConn serverConn h2 e3
                addr' e5 (Panic s) (Panic s)); try assumption; reflexivity.
    set (h5 := h4 ++ e5) in *.
    destruct (w_clientDial w h5 serverConn raddr) as [remoteConn|e] eqn:Hd2.
    2:{ exists (Ok tt), (e3 ++ [log1] ++ e5
                  ++ [EvClientDial serverConn "tcp" raddr (inr e);
                      EvLog LError ("remote dial error err=" ++ Error e)%string]).
        split; [subst h5 h4; now rewrite <- !app_assoc|].
        apply (rl_dial_failed w remoteHost bastionHost localConn serverConn h2 e3
                 addr' e5 raddr e); assumption. }
    set (h6 := h5 ++ [EvClientDial serverConn "tcp" raddr (inl remoteConn)]).
    destruct (quiet_read remoteHost h6 Hr) as (r7 & e7 & Hs7 & Hp7). rewrite Hs7.
    destruct r7 as [raddr'|c'|s].
    2: exists (Exit c'), (e3 ++ [log1] ++ e5
                 ++ [EvClientDial serverConn "tcp" raddr (inl remoteConn)] ++ e7); split;
       [subst h6 h5 h4; now rewrite <- !app_assoc|];
       apply (rl_no_remote_address_again w remoteHost bastionHost localConn serverConn h2
                e3 addr' e5 raddr remoteConn e7 (Exit c') (Exit c'));
       try assumption; reflexivity.
    2: exists (Panic s), (e3 ++ [log1] ++ e5
                 ++ [EvClientDial serverConn "tcp" raddr (inl remoteConn)] ++ e7); split;
       [subst h6 h5 h4; now rewrite <- !app_assoc|];
       apply (rl_no_remote_address_again w remoteHost bastionHost localConn serverConn h2
                e3 addr' e5 raddr remoteConn e7 (Panic s) (Panic s));
       try assumption; reflexivity.
    exists (Ok tt), (e3 ++ [log1] ++ e5
              ++ [EvClientDial serverConn "tcp" raddr (inl remoteConn)] ++ e7
              ++ [EvLog LDebug ("connected to " ++ raddr' ++ " (2 of 2)")%string;
                  EvGo (GoCopyConn localConn remoteConn);
                  EvGo (GoCopyConn remoteConn localConn)]).
    split; [subst h6 h5 h4; now rewrite <- !app_assoc|].
    apply (rl_copying w remoteHost bastionHost localConn serverConn h2
             e3 addr' e5 raddr remoteConn e7 raddr'); assumption. }
  destruct Hrel as (res & evs & Hrun & Hrel).
  exists res, (l0 ++ e1 ++ [EvSshDial "tcp" addr c (inl serverConn)] ++ evs).
  split; [transitivity (res, h2 ++ evs);
          [exact Hrun|subst h2 h1; now rewrite <- !app_assoc]|].
  apply (fw_dialed w remoteHost bastionHost localConn h e1 addr c serverConn res evs);
    assumption.
Qed.


Ltac sweep :=
  repeat progress
    (rewrite ?accepted_conns_app, ?conn_closes_app;
     repeat match goal with
       | H : forallb passive ?e = true |- context [accepted_conns ?e] =>
           rewrite (passive_accepted e H)
       | H : forallb passive ?e = true |- context [conn_closes ?e] =>
           rewrite (passive_conn_closes e H)
       end;
     simpl).

(** A run of [forward] between quiet endpoints accepts nothing and closes
    neither a connection nor a client, however it ends. *)
Lemma forward_leaves_open (localConn : Conn) (h : trace) :
  quiet remoteHost -> quiet bastionHost ->
  exists evs,
    snd (forward w remoteHost bastionHost localConn h) = h ++ evs
    /\ accepted_conns evs = [] /\ conn_closes evs = [].
Proof.
  intros Hr Hb.
  destruct (forward_forwarded localConn h Hr Hb) as (res & evs & Hrun & Hfw).
  rewrite Hrun. exists evs. split; [reflexivity|].
  pose proof config_log_passive as Hp0.
  inversion Hfw as [e1 r1 res' h0 Hs1 Hp1 Hab
                   |e1 addr h0 Hs1 Hp1 Hcfg
                   |e1 addr c e h0 h1 Hs1 Hp1 Hcfg Hd
                   |e1 addr c serverConn res' evs' h0 h1 h2 Hs1 Hp1 Hcfg Hd Hrel];
    subst; try (sweep; split; reflexivity).
  inversion Hrel; subst; sweep; split; reflexivity.
Qed.

(** One round of the accept loop. *)
Lemma Tunnel_loop_one (l : Listener) (tr : trace) :
  Tunnel_loop w 1 l tr
  = match w_Accept w tr l with
    | inl conn =>
        (Ok StillRunning,
         tr ++ [EvAccept l (inl conn); EvLog LDebug "accepted connection";
                EvGo (GoForward conn)])
    | inr err => (Ok (Returned (Some err)), tr ++ [EvAccept l (inr err)])
    end.
Proof.
  simpl. unfold bind, callr, slog, emit, ret.
  destruct (w_Accept w tr l); [rewrite <- !app_assoc|]; reflexivity.
Qed.

(** The goroutine of the signal handler, once a signal arrived. *)
Lemma signal_goroutine_run (tr : trace) :
  signal_goroutine tr = (Exit 0%Z, tr ++ [EvPrintln (String "010"%char "Goodbye!")]).
Proof. reflexivity. Qed.

(** A copy logs its error and returns. *)
Lemma copyConn_cases (writer reader : Conn) (tr : trace) :
  copyConn w writer reader tr
  = match w_Copy w tr writer reader with
    | Some e =>
        (Ok tt, tr ++ [EvCopy writer reader;
                       EvLog LError ("io.Copy error err=" ++ Error e)%string])
    | None => (Ok tt, tr ++ [EvCopy writer reader])
    end.
Proof.
  unfold copyConn, bind, call, slog, emit, ret.
  destruct (w_Copy w tr writer reader); [rewrite <- !app_assoc|]; reflexivity.
Qed.

(** While the process lives, every accepted connection either still waits
    for its goroutine or has had its own direct dial. *)
Lemma tunnel_invariant (c0 c : config) :
  quiet remoteHost -> quiet bastionHost ->
  steps w remoteHost bastionHost c0 c ->
  c_pool c0 = [] ->
  (forall code, c_status c <> Ended code) ->
  directs (c_trace c) + pending_forwards (c_pool c) + accepted (c_trace c0)
  = directs (c_trace c0) + accepted (c_trace c).
Proof.
  intros Hr Hb Hsteps. induction Hsteps as [c|c1 c2 c3 Hsteps IH Hstep]; intros Hpool Hlive.
  - rewrite Hpool. unfold pending_forwards. simpl. lia.
  - inversion Hstep as [l tr pool r evs Hrun|l tr pool1 g pool2 r evs Hrun]; subst;
      cbn [c_trace c_pool c_status] in *.
    + assert (IH' := IH Hpool ltac:(discriminate)). clear IH.
      rewrite Tunnel_loop_one in Hrun.
      destruct (w_Accept w tr l) as [conn|err]; injection Hrun as <- Hevs;
        apply app_inv_head in Hevs; subst evs;
        rewrite directs_app, accepted_app, pending_forwards_app; simpl;
        unfold pending_forwards, accepted, directs in *; simpl; lia.
    + assert (IH' := IH Hpool ltac:(discriminate)). clear IH.
      rewrite pending_forwards_app in IH'.
      rewrite directs_app, accepted_app, !pending_forwards_app.
      destruct g as [localConn|writer reader|]; simpl in Hrun.
      * destruct (forward_post localConn tr Hr Hb) as (evs' & Hext & _ & Hok & _).
        rewrite Hrun in Hext, Hok. simpl in Hext, Hok.
        apply app_inv_head in Hext. subst evs'.
        destruct (forward_leaves_open localConn tr Hr Hb) as (evs' & Hext & Hacc & _).
        rewrite Hrun in Hext. simpl in Hext. apply app_inv_head in Hext. subst evs'.
        destruct r as [[]|code|msg];
          [|exfalso; exact (Hlive _ eq_refl)|exfalso; exact (Hlive _ eq_refl)].
        destruct (Hok eq_refl) as (Hd & Hf & _).
        assert (Ha : accepted evs = 0) by (unfold accepted; now rewrite Hacc).
        assert (Hp : pending_forwards (spawned evs) = 0)
          by (unfold pending_forwards; now rewrite Hf).
        rewrite Ha, Hp, Hd.
        unfold pending_forwards in *. simpl in *. lia.
      * rewrite copyConn_cases in Hrun.
        destruct (w_Copy w tr writer reader); injection Hrun as <- Hevs;
          apply app_inv_head in Hevs; subst evs;
          unfold pending_forwards, accepted, directs in *; simpl in *; lia.
      * rewrite signal_goroutine_run in Hrun. injection Hrun as <- _.
        exfalso. exact (Hlive _ eq_refl).
Qed.

Lemma skipn_own_length {A} (xs ys : list A) : skipn (length xs) (xs ++ ys) = ys.
Proof. induction xs; simpl; auto. Qed.

Lemma nth_error_cut {A} (xs : list A) (i : nat) (x : A) :
  nth_error xs i = Some x -> xs = firstn i xs ++ x :: skipn (S i) xs.
Proof.
  revert i. induction xs as [|y xs IH]; intros [|i] H; try discriminate.
  - injection H as ->. reflexivity.
  - simpl in H. simpl. f_equal. apply IH, H.
Qed.

(** A goroutine only adds to the trace. *)
Lemma run_goroutine_extends (g : Goroutine) (tr : trace) :
  quiet remoteHost -> quiet bastionHost ->
  exists evs, snd (run_goroutine w remoteHost bastionHost g tr) = tr ++ evs.
Proof.
  intros Hr Hb. destruct g as [localConn|writer reader|]; simpl.
  - destruct (forward_post localConn tr Hr Hb) as (evs & Hext & _). eauto.
  - rewrite copyConn_cases. destruct (w_Copy w tr writer reader); eexists; reflexivity.
  - eexists. reflexivity.
Qed.

(** What the scheduler does is a step of the system. *)
Lemma sched1_step (ch : choice) (c c' : config) :
  quiet remoteHost -> quiet bastionHost ->
  sched1 w remoteHost bastionHost ch c = Some c' ->
  step w remoteHost bastionHost c c'.
Proof.
  intros Hr Hb. destruct c as [tr pool st]. unfold sched1.
  cbn [c_status c_trace c_pool].
  destruct st as [l| |]; try discriminate. destruct ch as [|i].
  - destruct (Tunnel_loop w 1 l tr) as [[r|c0|s] tr'] eqn:Hrun; try discriminate.
    intros H. injection H as <-.
    assert (Hext : exists evs, tr' = tr ++ evs).
    { rewrite Tunnel_loop_one in Hrun.
      destruct (w_Accept w tr l); injection Hrun as _ <-; eauto. }
    destruct Hext as (evs & ->). rewrite skipn_own_length.
    apply step_accept. exact Hrun.
  - destruct (nth_error pool i) as [g|] eqn:Hn; try discriminate.
    destruct (run_goroutine w remoteHost bastionHost g tr) as [r tr'] eqn:Hrun.
    intros H. injection H as <-.
    destruct (run_goroutine_extends g tr Hr Hb) as (evs & Hext).
    rewrite Hrun in Hext. simpl in Hext. subst tr'. rewrite skipn_own_length.
    pose proof (step_go w remoteHost bastionHost l tr (firstn i pool) g
                  (skipn (S i) pool) r evs Hrun) as S.
    rewrite <- (nth_error_cut _ _ _ Hn) in S. exact S.
Qed.

Lemma steps_head (c1 c2 c3 : config) :
  step w remoteHost bastionHost c1 c2 ->
  steps w remoteHost bastionHost c2 c3 ->
  steps w remoteHost bastionHost c1 c3.
Proof.
  intros H12 H23. induction H23 as [c|c2 c3 c4 _ IH H34].
  - eapply steps_step; [apply steps_refl|exact H12].
  - eapply steps_step; [exact (IH H12)|exact H34].
Qed.

(** Every script of the scheduler is a run of the system. *)
Lemma sched_steps (script : list choice) (c c' : config) :
  quiet remoteHost -> quiet bastionHost ->
  sched w remoteHost bastionHost script c = Some c' ->
  steps w remoteHost bastionHost c c'.
Proof.
  intros Hr Hb. revert c. induction script as [|ch script IH]; intros c H; simpl in H.
  - injection H as <-. apply steps_refl.
  - destruct (sched1 w remoteHost bastionHost ch c) as [c1|] eqn:H1; [|discriminate].
    eapply steps_head; [exact (sched1_step ch c c1 Hr Hb H1)|exact (IH c1 H)].
Qed.

End Forwarder.

(** Two clients connect, then the listener fails: [Tunnel] started one
    [forward] per client, returned the listener's error and closed the
    listener; five rounds of fuel are more than it needs. *)
Example Tunnel_two_clients :
  let r := Tunnel two_clients 5 5432 target_endpoint
             (EC2Endpoint_iface two_clients bastion) [] in
  fst r = Ok (Returned (Some (ErrorString
            "accept tcp 127.0.0.1:5432: use of closed network connection")))
  /\ spawned (snd r) = [GoForward (ConnH 100); GoForward (ConnH 101)]
  /\ closes (snd r) = [EvListenerClose (ListenerH 1 "localhost:5432")].
Proof. cbv zeta. repeat split; reflexivity. Qed.

(** The plain tunnel target resolves without any effect. *)
Lemma target_endpoint_quiet : quiet target_endpoint.
Proof. intros h. exists []. simpl. rewrite app_nil_r. split; reflexivity. Qed.

(** Two clients are accepted one after the other and their goroutines run
    in the opposite order: the system reaches a configuration with two
    direct dials for the two accepted connections, the four copies pending
    and the loop still accepting. *)
Example two_clients_two_dials :
  let l := ListenerH 1 "localhost:5432" in
  let b := EC2Endpoint_iface two_clients bastion in
  let c0 := {| c_trace := []; c_pool := []; c_status := Accepting l |} in
  exists c,
    steps two_clients target_endpoint b c0 c
    /\ accepted (c_trace c) = 2
    /\ directs (c_trace c) = 2
    /\ c_pool c = [GoCopyConn (ConnH 101) (ConnH 10); GoCopyConn (ConnH 10) (ConnH 101);
                   GoCopyConn (ConnH 100) (ConnH 18); GoCopyConn (ConnH 18) (ConnH 100)]
    /\ c_status c = Accepting l.
Proof.
  cbv zeta.
  destruct (sched two_clients target_endpoint (EC2Endpoint_iface two_clients bastion)
              [Accept; Accept; Go 1; Go 0]
              {| c_trace := []; c_pool := [];
                 c_status := Accepting (ListenerH 1 "localhost:5432") |})
    as [c|] eqn:Hs; [|discriminate Hs].
  exists c. split.
  - exact (sched_steps two_clients target_endpoint _ _ _ _
             target_endpoint_quiet (ec2_quiet two_clients bastion) Hs).
  - vm_compute in Hs. injection Hs as <-. repeat split.
Qed.

(** C6, the part of the specification that fails: where the bastion
    refuses the key, the goroutine of an accepted connection logs the
    failed dial and returns, and the connection is not closed: [forward]
    makes no call of [Close] at all. *)
Theorem failure_tears_down_fails :
  ~ failure_tears_down refused target_endpoint (EC2Endpoint_iface refused bastion).
Proof.
  intros H.
  specialize (H (ConnH 1) []
                (snd (forward refused target_endpoint (EC2Endpoint_iface refused bastion)
                        (ConnH 1) []))
                eq_refl).
  assert (Hin := H ltac:(vm_compute; discriminate)). clear H.
  vm_compute in Hin.
  repeat (destruct Hin as [Hin|Hin]; [discriminate Hin|]). exact Hin.
Qed.

(** C6, amended: between endpoints that resolve without dialing,
    (1) a connection that [Accept] returns is handed to a goroutine of
    [forward] of its own, started in that round of the loop;
    (2) while the process lives every accepted connection either still
    waits for that goroutine or has had one direct dial with handshake of
    its own, so K accepted connections whose goroutines ran made K dials;
    (3) a run of [forward] that returns made exactly one such dial, before
    anything else it connects, to an address the bastion endpoint resolved
    to and with the bastion's auth configuration;
    (4) when the dial, handshake or channel open of a connection's
    goroutine, or the copy of a copying goroutine, fails, that goroutine
    ends and nothing else changes: the accept loop is still accepting,
    every other pending goroutine is still pending, nothing was started, no
    listener was closed, and no connection either;
    (5) no goroutine of the tunnel ever closes a connection or a client,
    whether it fails or not. *)
Theorem tunnel_connections_fail_alone
  (w : World) (remoteHost bastionHost : EndpointIface) :
  quiet remoteHost -> quiet bastionHost ->
  (forall l tr pool conn,
     w_Accept w tr l = inl conn ->
     step w remoteHost bastionHost
          {| c_trace := tr; c_pool := pool; c_status := Accepting l |}
          {| c_trace := tr ++ [EvAccept l (inl conn); EvLog LDebug "accepted connection";
                               EvGo (GoForward conn)];
             c_pool := pool ++ [GoForward conn];
             c_status := Accepting l |})
  /\ (forall c0 c,
        steps w remoteHost bastionHost c0 c ->
        c_pool c0 = [] ->
        (forall code, c_status c <> Ended code) ->
        directs (c_trace c) + pending_forwards (c_pool c) + accepted (c_trace c0)
        = directs (c_trace c0) + accepted (c_trace c))
  /\ (forall localConn tr evs,
        forward w remoteHost bastionHost localConn tr = (Ok tt, tr ++ evs) ->
        directs evs = 1
        /\ exists a c r tl,
             conns evs = EvSshDial "tcp" a c r :: tl
             /\ fst (ep_GetSSHConfig bastionHost) = Some c
             /\ exists hi, fst (ep_String bastionHost hi) = Ok a)
  /\ (forall l tr pool1 g pool2 r evs,
        run_goroutine w remoteHost bastionHost g tr = (r, tr ++ evs) ->
        failed_in w g tr evs ->
        step w remoteHost bastionHost
             {| c_trace := tr; c_pool := pool1 ++ g :: pool2; c_status := Accepting l |}
             {| c_trace := tr ++ evs; c_pool := pool1 ++ pool2; c_status := Accepting l |}
        /\ closes evs = []
        /\ conn_closes evs = [])
  /\ (forall g tr,
        conn_closes (snd (run_goroutine w remoteHost bastionHost g tr)) = conn_closes tr).
Proof.
  intros Hr Hb.
  assert (Hopen : forall g tr,
            exists evs, snd (run_goroutine w remoteHost bastionHost g tr) = tr ++ evs
                        /\ conn_closes evs = []).
  { intros g tr. destruct g as [localConn|writer reader|]; cbn [run_goroutine].
    - destruct (forward_leaves_open w remoteHost bastionHost localConn tr Hr Hb)
        as (evs & Hext & _ & Hcl). eauto.
    - rewrite copyConn_cases.
      destruct (w_Copy w tr writer reader); eexists; split; reflexivity.
    - rewrite signal_goroutine_run. eexists; split; reflexivity. }
  split; [|split; [|split; [|split]]].
  - intros l tr pool conn Hacc.
    pose proof (step_accept w remoteHost bastionHost l tr pool StillRunning
                  [EvAccept l (inl conn); EvLog LDebug "accepted connection";
                   EvGo (GoForward conn)]) as S.
    apply S. rewrite Tunnel_loop_one, Hacc. reflexivity.
  - intros c0 c Hsteps. exact (tunnel_invariant w remoteHost bastionHost c0 c Hr Hb Hsteps).
  - intros localConn tr evs Hrun.
    destruct (forward_post w remoteHost bastionHost localConn tr Hr Hb)
      as (evs' & Hext & _ & Hok & _).
    rewrite Hrun in Hext, Hok. simpl in Hext, Hok.
    apply app_inv_head in Hext. subst evs'.
    destruct (Hok eq_refl) as (Hd & _ & Hto). split; assumption.
  - intros l tr pool1 g pool2 r evs Hrun Hfail.
    assert (Hcc : conn_closes evs = []).
    { destruct (Hopen g tr) as (evs' & Hext & Hcl). rewrite Hrun in Hext. simpl in Hext.
      apply app_inv_head in Hext. now subst. }
    assert (H : r = Ok tt /\ spawned evs = [] /\ closes evs = []).
    { destruct g as [localConn|writer reader|]; cbn [run_goroutine] in Hrun.
      - destruct (forward_post w remoteHost bastionHost localConn tr Hr Hb)
          as (evs' & Hext & Hcl & _ & Hf).
        rewrite Hrun in Hext, Hf. simpl in Hext, Hf.
        apply app_inv_head in Hext. subst evs'.
        destruct Hfail as [Hff|(wr & rd & err & Hg & _)]; [|discriminate].
        destruct (Hf Hff) as [-> Hsp]. auto.
      - rewrite copyConn_cases in Hrun.
        destruct (w_Copy w tr writer reader); injection Hrun as <- Hevs;
          apply app_inv_head in Hevs; subst evs; repeat split.
      - rewrite signal_goroutine_run in Hrun. injection Hrun as <- Hevs.
        apply app_inv_head in Hevs. subst evs.
        destruct Hfail as [Hff|(wr & rd & err & Hg & _)]; [|discriminate].
        exfalso. apply Hff. reflexivity. }
    destruct H as (-> & Hsp & Hcl). split; [|split; [exact Hcl|exact Hcc]].
    pose proof (step_go w remoteHost bastionHost l tr pool1 g pool2 (Ok tt) evs Hrun) as S.
    rewrite Hsp, app_nil_r in S. exact S.
  - intros g tr. destruct (Hopen g tr) as (evs & -> & Hcl).
    rewrite conn_closes_app, Hcl, app_nil_r. reflexivity.
Qed.

(** C6 where the bastion refuses the key of the first of two accepted
    connections: its goroutine ends without closing anything, the second
    still waits, the loop still accepts. *)
Lemma tunnel_connections_fail_alone_witness :
  let l := ListenerH 0 "127.0.0.1:5432" in
  let evs := snd (forward refused target_endpoint (EC2Endpoint_iface refused bastion)
                    (ConnH 1) []) in
  step refused target_endpoint (EC2Endpoint_iface refused bastion)
       {| c_trace := [];
          c_pool := [GoForward (ConnH 1); GoForward (ConnH 2)];
          c_status := Accepting l |}
       {| c_trace := evs;
          c_pool := [GoForward (ConnH 2)];
          c_status := Accepting l |}
  /\ closes evs = []
  /\ conn_closes evs = [].
Proof.
  cbv zeta.
  refine (proj1 (proj2 (proj2 (proj2
            (tunnel_connections_fail_alone refused target_endpoint
               (EC2Endpoint_iface refused bastion)
               target_endpoint_quiet (ec2_quiet refused bastion)))))
            (ListenerH 0 "127.0.0.1:5432") [] [] (GoForward (ConnH 1))
            [GoForward (ConnH 2)] (Ok tt) _ eq_refl _).
  left. vm_compute. discriminate.
Defined.

(** * Properties beyond the specification *)

(** ** The instance resolver, on every run *)

Section ResolverRuns.
Variable w : World.
Variables tagName tagValue : string.

Lemma getSpotRequestByTag_run (h : trace) :
  getSpotRequestByTag w tagName tagValue h
  = (Ok (w_DescribeSpotInstanceRequests w h (spot_filters tagName tagValue)),
     h ++ [EvDescribeSpotInstanceRequests (spot_filters tagName tagValue)]).
Proof. reflexivity. Qed.

Lemma getInstanceByTag_run (h : trace) :
  getInstanceByTag w tagName tagValue h
  = (Ok (w_DescribeInstances w h (running_input tagName tagValue)),
     h ++ [EvDescribeInstances (running_input tagName tagValue)]).
Proof. reflexivity. Qed.

(** A failing running-instances query is returned as it is, with no id. *)
Lemma resolve_instances_error h h2 err h3 :
  getSpotRequestByTag w tagName tagValue (h ++ [log_spot]) = (Ok (inl []), h2) ->
  getInstanceByTag w tagName tagValue (h2 ++ [log_direct]) = (Ok (inr err), h3) ->
  resolveBastionInstanceID w tagName tagValue h = (Ok ("", Some err), h3).
Proof.
  intros Hspot Hinst. rewrite (resolve_falls_back _ _ _ _ _ Hspot).
  now rewrite (bind_ok _ _ _ _ _ Hinst).
Qed.


Lemma resolve_outcomes (h : trace) :
  resolved w tagName tagValue h (fst (resolveBastionInstanceID w tagName tagValue h))
             (snd (resolveBastionInstanceID w tagName tagValue h)).
Proof.
  pose proof (getSpotRequestByTag_run (h ++ [log_spot])) as Hspot.
  destruct (w_DescribeSpotInstanceRequests w (h ++ [log_spot])
              (spot_filters tagName tagValue)) as [srs|err] eqn:Ha.
  2:{ rewrite (resolve_spot_error _ _ _ _ _ _ Hspot). simpl.
      rewrite <- app_assoc. apply (res_spot_error w tagName tagValue h err). exact Ha. }
  destruct srs as [|s0 srs'].
  2:{ destruct (resolve_spot_preferred _ _ _ _ _ _ Hspot ltac:(discriminate))
        as (r & Hin & ->). simpl fst. simpl snd.
      rewrite <- !app_assoc. apply (res_spot w tagName tagValue h (s0 :: srs') r); assumption. }
  pose proof (getInstanceByTag_run
                (((h ++ [log_spot])
                    ++ [EvDescribeSpotInstanceRequests (spot_filters tagName tagValue)])
                   ++ [log_direct])) as Hinst.
  assert (Hh : ((h ++ [log_spot])
                  ++ [EvDescribeSpotInstanceRequests (spot_filters tagName tagValue)])
                 ++ [log_direct]
               = h ++ [log_spot;
                       EvDescribeSpotInstanceRequests (spot_filters tagName tagValue);
                       log_direct])
    by (rewrite <- !app_assoc; reflexivity).
  destruct (w_DescribeInstances w _ (running_input tagName tagValue)) as [rs|err] eqn:Hb.
  2:{ rewrite (resolve_instances_error _ _ _ _ Hspot Hinst). simpl.
      rewrite <- !app_assoc. apply (res_instances_error w tagName tagValue h err); [exact Ha|].
      rewrite <- Hh. exact Hb. }
  destruct rs as [|r0 rs'].
  { rewrite (resolve_not_found _ _ _ _ _ _ Hspot Hinst). simpl.
    rewrite <- !app_assoc. apply (res_not_found w tagName tagValue h); [exact Ha|].
    rewrite <- Hh. exact Hb. }
  rewrite Hh in Hb.
  set (rs := r0 :: rs') in *.
  set (h3 := (((h ++ [log_spot])
                 ++ [EvDescribeSpotInstanceRequests (spot_filters tagName tagValue)])
                ++ [log_direct])
               ++ [EvDescribeInstances (running_input tagName tagValue)]) in *.
  assert (Hlt : w_rand w h3 mod length rs < length rs)
    by (apply Nat.mod_upper_bound; discriminate).
  destruct (nth_error rs (w_rand w h3 mod length rs)) as [res|] eqn:Hsel.
  2:{ apply nth_error_None in Hsel. lia. }
  assert (Hres : In res rs) by (eapply nth_error_In; eauto).
  destruct (Instances res) as [|i0 is0] eqn:Hi.
  - rewrite (resolve_panics _ _ _ _ _ _ _ _ Hspot Hinst Hsel Hi). simpl.
    unfold h3. rewrite <- !app_assoc. apply (res_panic w tagName tagValue h rs res); assumption.
  - destruct (resolve_running _ _ _ _ _ _ _ _ Hspot Hinst Hsel
                ltac:(rewrite Hi; discriminate)) as (inst & _ & Hin & ->).
    simpl fst. simpl snd. unfold h3. rewrite <- !app_assoc.
    apply (res_running w tagName tagValue h rs res inst); assumption.
Qed.

End ResolverRuns.

(** X1: an id the resolver returns without error is an id it was given: the
    id of a request in the answer to the spot query or, that answer being
    empty, the id of an instance in a reservation of the answer to the
    running-instances query. *)
Theorem resolve_returns_only_ids_it_was_given
  (w : World) (tagName tagValue : string) (h h' : trace) (id : string) :
  resolveBastionInstanceID w tagName tagValue h = (Ok (id, None), h') ->
  (exists srs r,
     w_DescribeSpotInstanceRequests w (h ++ [log_spot]) (spot_filters tagName tagValue)
     = inl srs
     /\ In r srs /\ id = aws_ToString (sir_InstanceId r))
  \/ (exists rs res inst,
        w_DescribeSpotInstanceRequests w (h ++ [log_spot]) (spot_filters tagName tagValue)
        = inl []
        /\ w_DescribeInstances w
             (h ++ [log_spot; EvDescribeSpotInstanceRequests (spot_filters tagName tagValue);
                    log_direct])
             (running_input tagName tagValue) = inl rs
        /\ In res rs /\ In inst (Instances res)
        /\ id = aws_ToString (InstanceId inst)).
Proof.
  intros Hrun. pose proof (resolve_outcomes w tagName tagValue h) as Hout.
  rewrite Hrun in Hout. simpl in Hout.
  inversion Hout; subst.
  - left. eauto.
  - right. eauto 10.
Qed.

(** X1 on the scenario of the specification with the draw 0. *)
Lemma resolve_returns_only_ids_it_was_given_witness :
  (exists srs r,
     w_DescribeSpotInstanceRequests (two_spots (fun _ => 0)) ([] ++ [log_spot])
       (spot_filters "role" "bastion") = inl srs
     /\ In r srs /\ "i-aaa"%string = aws_ToString (sir_InstanceId r))
  \/ (exists rs res inst,
        w_DescribeSpotInstanceRequests (two_spots (fun _ => 0)) ([] ++ [log_spot])
          (spot_filters "role" "bastion") = inl []
        /\ w_DescribeInstances (two_spots (fun _ => 0))
             ([] ++ [log_spot; EvDescribeSpotInstanceRequests (spot_filters "role" "bastion");
                     log_direct])
             (running_input "role" "bastion") = inl rs
        /\ In res rs /\ In inst (Instances res)
        /\ "i-aaa"%string = aws_ToString (InstanceId inst)).
Proof.
  exact (resolve_returns_only_ids_it_was_given (two_spots (fun _ => 0)) "role" "bastion" []
           (snd (resolveBastionInstanceID (two_spots (fun _ => 0)) "role" "bastion" []))
           "i-aaa" eq_refl).
Defined.

(** X2: whenever the resolver returns an error the id is empty, and the
    error is the error of the spot query, the error of the
    running-instances query asked after an empty spot answer, or the
    not-found error after two empty answers. *)
Theorem resolve_error_comes_without_id
  (w : World) (tagName tagValue : string) (h h' : trace) (id : string) (err : error) :
  resolveBastionInstanceID w tagName tagValue h = (Ok (id, Some err), h') ->
  let f := spot_filters tagName tagValue in
  let i := running_input tagName tagValue in
  let h2 := h ++ [log_spot; EvDescribeSpotInstanceRequests f; log_direct] in
  id = ""%string
  /\ (w_DescribeSpotInstanceRequests w (h ++ [log_spot]) f = inr err
      \/ (w_DescribeSpotInstanceRequests w (h ++ [log_spot]) f = inl []
          /\ w_DescribeInstances w h2 i = inr err)
      \/ (w_DescribeSpotInstanceRequests w (h ++ [log_spot]) f = inl []
          /\ w_DescribeInstances w h2 i = inl []
          /\ err = not_found)).
Proof.
  intros Hrun. pose proof (resolve_outcomes w tagName tagValue h) as Hout.
  rewrite Hrun in Hout. simpl in Hout. cbv zeta.
  inversion Hout; subst; split; auto.
Qed.

(** X2 where nothing is tagged as a bastion. *)
Lemma resolve_error_comes_without_id_witness :
  ""%string = ""%string
  /\ (w_DescribeSpotInstanceRequests Scenario.calm ([] ++ [log_spot])
        (spot_filters "role" "bastion") = inr not_found
      \/ (w_DescribeSpotInstanceRequests Scenario.calm ([] ++ [log_spot])
            (spot_filters "role" "bastion") = inl []
          /\ w_DescribeInstances Scenario.calm
               ([] ++ [log_spot; EvDescribeSpotInstanceRequests (spot_filters "role" "bastion");
                       log_direct])
               (running_input "role" "bastion") = inr not_found)
      \/ (w_DescribeSpotInstanceRequests Scenario.calm ([] ++ [log_spot])
            (spot_filters "role" "bastion") = inl []
          /\ w_DescribeInstances Scenario.calm
               ([] ++ [log_spot; EvDescribeSpotInstanceRequests (spot_filters "role" "bastion");
                       log_direct])
               (running_input "role" "bastion") = inl []
          /\ not_found = not_found)).
Proof.
  exact (resolve_error_comes_without_id Scenario.calm "role" "bastion" []
           (snd (resolveBastionInstanceID Scenario.calm "role" "bastion" []))
           "" not_found eq_refl).
Defined.

(** X3: the resolver only reads.  Its events are its two debug lines, the
    spot query and the running-instances query for the tag, and draws,
    nothing else; it sends the spot query exactly once, the
    running-instances query at most once and only after an empty answer to
    the spot query, and draws at most twice. *)
Theorem resolve_only_reads (w : World) (tagName tagValue : string) (h : trace) :
  exists evs,
    snd (resolveBastionInstanceID w tagName tagValue h) = h ++ evs
    /\ Forall (resolver_event tagName tagValue) evs
    /\ spot_queries evs = 1
    /\ instance_queries evs <= 1
    /\ draws evs <= 2
    /\ (instance_queries evs = 1 ->
        w_DescribeSpotInstanceRequests w (h ++ [log_spot]) (spot_filters tagName tagValue)
        = inl []).
Proof.
  pose proof (resolve_outcomes w tagName tagValue h) as Hout.
  inversion Hout as [err f Ha E1 E2|srs r f Ha Hin E1 E2|err f i Ha Hb E1 E2
                    |f i Ha Hb E1 E2|rs res inst f i Ha Hb Hres Hin E1 E2
                    |rs res f i Ha Hb Hres Hemp E1 E2];
    eexists; (split; [reflexivity|]);
    (split; [repeat constructor; simpl; auto|]);
    unfold spot_queries, instance_queries, draws; simpl;
    repeat split; try lia; try (intros; assumption); intros; discriminate.
Qed.

(** X4: the resolver never ends the process and never indexes out of range.
    The one panic it can raise is that of [rand.Intn] on an empty instance
    list, after an empty spot answer and the selection of a reservation
    with no instance in it. *)
Theorem resolve_panics_only_in_Intn (w : World) (tagName tagValue : string) (h : trace) :
  match fst (resolveBastionInstanceID w tagName tagValue h) with
  | Ok _ => True
  | Exit _ => False
  | Panic msg =>
      msg = "invalid argument to Intn"%string
      /\ w_DescribeSpotInstanceRequests w (h ++ [log_spot]) (spot_filters tagName tagValue)
         = inl []
      /\ exists rs res,
           w_DescribeInstances w
             (h ++ [log_spot; EvDescribeSpotInstanceRequests (spot_filters tagName tagValue);
                    log_direct])
             (running_input tagName tagValue) = inl rs
           /\ In res rs /\ Instances res = []
  end.
Proof.
  pose proof (resolve_outcomes w tagName tagValue h) as Hout.
  inversion Hout; try exact I. repeat split; eauto.
Qed.

(** ** Endpoint strings: splitting, numbers, round trip *)

Lemma append_empty_r (s : string) : (s ++ "")%string = s.
Proof. induction s as [|c s IH]; simpl; [reflexivity|now rewrite IH]. Qed.

Lemma append_assoc (a b c : string) : ((a ++ b) ++ c)%string = (a ++ b ++ c)%string.
Proof. induction a as [|x a IH]; simpl; [reflexivity|now rewrite IH]. Qed.

Lemma Split_aux_skip (sep : ascii) (a s cur : string) :
  has sep a = false ->
  Split_aux (a ++ s) sep cur = Split_aux s sep (cur ++ a).
Proof.
  revert cur. induction a as [|c a IH]; intros cur Ha; simpl.
  - now rewrite append_empty_r.
  - simpl in Ha. apply orb_false_elim in Ha as [Hc Ha].
    rewrite Hc, (IH _ Ha), append_assoc. reflexivity.
Qed.

(** A string without the separator is its own single part. *)
Lemma Split_none (sep : ascii) (a : string) : has sep a = false -> Split a sep = [a].
Proof.
  intros Ha. unfold Split. rewrite <- (append_empty_r a) at 1.
  rewrite (Split_aux_skip sep a "" "" Ha). reflexivity.
Qed.

(** The part before the first separator is split off. *)
Lemma Split_first (sep : ascii) (a s : string) :
  has sep a = false -> Split (a ++ String sep s) sep = a :: Split s sep.
Proof.
  intros Ha. unfold Split. rewrite (Split_aux_skip sep a _ "" Ha).
  simpl. rewrite Ascii.eqb_refl. reflexivity.
Qed.

Lemma has_app (c : ascii) (a b : string) : has c (a ++ b) = has c a || has c b.
Proof. induction a as [|x a IH]; simpl; [reflexivity|]. now rewrite IH, orb_assoc. Qed.

Lemma digits_of_uint_acc (d : Decimal.uint) (acc : positive) :
  digits (NilEmpty.string_of_uint d) (Z.pos acc) = Some (Z.pos (Pos.of_uint_acc d acc)).
Proof.
  revert acc.
  induction d; intros acc; cbn [NilEmpty.string_of_uint digits Pos.of_uint_acc];
    [reflexivity|..];
    match goal with
    | |- context [digit_of ?c] =>
        let v := eval vm_compute in (digit_of c) in change (digit_of c) with v
    end; cbv iota beta; rewrite <- IHd; f_equal; lia.
Qed.

Lemma digits_of_uint (d : Decimal.uint) :
  digits (NilEmpty.string_of_uint d) 0 = Some (Z.of_N (Pos.of_uint d)).
Proof.
  induction d; cbn [NilEmpty.string_of_uint digits Pos.of_uint];
    [reflexivity|..];
    match goal with
    | |- context [digit_of ?c] =>
        let v := eval vm_compute in (digit_of c) in change (digit_of c) with v
    end; cbv iota beta;
    first [exact IHd | cbn [Z.of_N]; rewrite <- digits_of_uint_acc; reflexivity].
Qed.

Lemma string_of_uint_nonempty (d : Decimal.uint) :
  d <> Decimal.Nil -> NilEmpty.string_of_uint d <> ""%string.
Proof. destruct d; simpl; congruence. Qed.

Lemma digit_of_range (c : ascii) (d : Z) : digit_of c = Some d -> (0 <= d <= 9)%Z.
Proof.
  unfold digit_of.
  destruct ((48 <=? Z.of_nat (nat_of_ascii c)) && (Z.of_nat (nat_of_ascii c) <=? 57))%Z eqn:E;
    [|discriminate].
  intros [= <-]. apply andb_prop in E as [E1 E2].
  apply Z.leb_le in E1, E2. lia.
Qed.

Lemma digits_ge (s : string) :
  forall n v, (0 <= n)%Z -> digits s n = Some v -> (n <= v)%Z.
Proof.
  induction s as [|c s IH]; intros n v Hn Hd; cbn [digits] in Hd.
  - injection Hd as <-. lia.
  - destruct (digit_of c) as [d|] eqn:E; [|discriminate].
    pose proof (digit_of_range c d E). apply IH in Hd; lia.
Qed.

(** On digits whose value fits 64 bits the loop of [ParseUint] reads what
    the fast path reads. *)
Lemma ParseUint_loop_digits (s : string) :
  forall n v, (0 <= n)%Z -> digits s n = Some v -> (v <= maxUint64)%Z ->
              ParseUint_loop s n = (v, None).
Proof.
  induction s as [|c s IH]; intros n v Hn Hd Hv; cbn [digits ParseUint_loop] in *.
  - injection Hd as <-. reflexivity.
  - destruct (digit_of c) as [d|] eqn:E; [|discriminate].
    pose proof (digit_of_range c d E) as Hr.
    assert (Hge : (n * 10 + d <= v)%Z) by (apply (digits_ge s); [lia|exact Hd]).
    change (maxUint64 / 10 + 1)%Z with 1844674407370955162%Z.
    change maxUint64 with 18446744073709551615%Z in *.
    destruct (Z.leb_spec 1844674407370955162 n); [lia|].
    cbv zeta. destruct (Z.ltb_spec 18446744073709551615 (n * 10 + d)); [lia|].
    apply IH; [lia|exact Hd|exact Hv].
Qed.

(** [Atoi] on a string of digits. *)
Lemma Atoi_of_digits (s : string) (v : Z) :
  s <> ""%string -> digits s 0 = Some v ->
  (0 <= v <= maxInt)%Z -> Atoi s = (v, None).
Proof.
  intros Hs Hd Hv. destruct s as [|c rest]; [congruence|].
  assert (Hm : Ascii.eqb c "-" = false)
    by (destruct (Ascii.eqb_spec c "-"%char) as [->|_]; [discriminate Hd|reflexivity]).
  assert (Hp : Ascii.eqb c "+" = false)
    by (destruct (Ascii.eqb_spec c "+"%char) as [->|_]; [discriminate Hd|reflexivity]).
  change maxInt with 9223372036854775807%Z in Hv.
  cbv beta iota zeta delta [Atoi].
  destruct ((0 <? String.length (String c rest))%nat
            && (String.length (String c rest) <? 19)%nat)%bool.
  - rewrite Hm, Hp. cbn [orb andb]. rewrite Hd. reflexivity.
  - cbv beta iota zeta delta [ParseInt ParseUint]. rewrite Hm, Hp. cbn [orb negb andb].
    rewrite (ParseUint_loop_digits _ 0 v ltac:(lia) Hd)
      by (change maxUint64 with 18446744073709551615%Z; lia).
    change (2 ^ 63)%Z with 9223372036854775808%Z.
    destruct (Z.leb_spec 9223372036854775808 v); [lia|reflexivity].
Qed.

(** [Atoi] on a minus sign followed by digits. *)
Lemma Atoi_of_minus_digits (s : string) (v : Z) :
  s <> ""%string -> digits s 0 = Some v ->
  (0 <= v <= - minInt)%Z -> Atoi (String "-" s) = ((- v)%Z, None).
Proof.
  intros Hs Hd Hv. change (- minInt)%Z with 9223372036854775808%Z in Hv.
  cbv beta iota zeta delta [Atoi].
  destruct ((0 <? String.length (String "-" s))%nat
            && (String.length (String "-" s) <? 19)%nat)%bool.
  - rewrite Ascii.eqb_refl. cbn [orb andb].
    destruct s as [|c rest]; [congruence|]. cbn [String.length Nat.ltb Nat.leb].
    rewrite Hd. reflexivity.
  - cbv beta iota zeta delta [ParseInt ParseUint]. rewrite Ascii.eqb_refl.
    change (Ascii.eqb "-" "+") with false. cbn [orb negb andb].
    destruct s as [|c rest]; [congruence|].
    rewrite (ParseUint_loop_digits _ 0 v ltac:(lia) Hd)
      by (change maxUint64 with 18446744073709551615%Z; lia).
    change (2 ^ 63)%Z with 9223372036854775808%Z.
    destruct (Z.ltb_spec 9223372036854775808 v); [lia|reflexivity].
Qed.

(** Reading back what [%d] wrote. *)
Lemma Atoi_itoa (n : Z) : (minInt <= n <= maxInt)%Z -> Atoi (itoa n) = (n, None).
Proof.
  intros Hn. unfold itoa. destruct n as [|p|p]; [reflexivity| |].
  - simpl. unfold NilZero.string_of_uint.
    pose proof (DecimalPos.Unsigned.to_uint_nonnil p) as Hnil.
    pose proof (digits_of_uint (Pos.to_uint p)) as Hd.
    rewrite DecimalPos.Unsigned.of_to in Hd. simpl in Hd.
    destruct (Pos.to_uint p) eqn:E; [congruence|..];
      (apply Atoi_of_digits; [discriminate|exact Hd|lia]).
  - simpl. unfold NilZero.string_of_uint.
    pose proof (DecimalPos.Unsigned.to_uint_nonnil p) as Hnil.
    pose proof (digits_of_uint (Pos.to_uint p)) as Hd.
    rewrite DecimalPos.Unsigned.of_to in Hd. simpl in Hd.
    change (Z.neg p) with (- Z.pos p)%Z.
    destruct (Pos.to_uint p) eqn:E; [congruence|..];
      (apply Atoi_of_minus_digits; [discriminate|exact Hd|lia]).
Qed.

Lemma uint_string_has_not (c : ascii) (d : Decimal.uint) :
  digit_of c = None -> has c (NilEmpty.string_of_uint d) = false.
Proof.
  intros Hc. induction d; cbn [NilEmpty.string_of_uint has]; [reflexivity|..];
    rewrite IHd, orb_false_r;
    match goal with
    | |- Ascii.eqb ?k c = false =>
        destruct (Ascii.eqb_spec k c) as [<-|]; [discriminate Hc|reflexivity]
    end.
Qed.

(** What [%d] writes holds digits and at most a leading minus sign. *)
Lemma itoa_has_not (c : ascii) (n : Z) :
  digit_of c = None -> c <> "-"%char -> has c (itoa n) = false.
Proof.
  intros Hc Hm. unfold itoa.
  assert (Hu : forall d, has c (NilZero.string_of_uint d) = false).
  { intros d. unfold NilZero.string_of_uint.
    destruct d; try apply (uint_string_has_not c _ Hc).
    cbn [has]. rewrite orb_false_r.
    destruct (Ascii.eqb_spec "0"%char c) as [<-|]; [discriminate Hc|reflexivity]. }
  destruct n as [|p|p]; cbn [Z.to_int NilZero.string_of_int].
  - apply Hu.
  - apply Hu.
  - cbn [has]. rewrite Hu, orb_false_r.
    destruct (Ascii.eqb_spec "-"%char c) as [<-|]; [congruence|reflexivity].
Qed.

(** ** Endpoint construction *)

Section EndpointConstruction.
Variable w : World.

(** [NewEC2Endpoint] once its input is split: the fields, the error and the
    events, by the answers it gets. *)
Lemma NewEC2Endpoint_run (s u i1 i2 : string) (p : Z) (h : trace) :
  match Split s "@" with
  | p0 :: p1 :: _ => (p0, p1)
  | _ => ("ec2-user"%string, s)
  end = (u, i1) ->
  match Split i1 ":" with
  | p0 :: p1 :: _ => (p0, fst (Atoi p1))
  | _ => (i1, 22%Z)
  end = (i2, p) ->
  NewEC2Endpoint w s h
  = let '(priv, pub, kerr) := w_GenerateKeys w h in
    let mk inst := {| InstanceID := i2; Port := p; User := u; PrivateKey := priv;
                      PublicKey := pub; UsePrivate := false; Instance_ := inst |} in
    match kerr with
    | Some e => (Ok (mk None, Some e), h ++ [EvGenerateKeys])
    | None =>
        let h1 := h ++ [EvGenerateKeys; EvDescribeInstances (lookup_input i2)] in
        match w_DescribeInstances w (h ++ [EvGenerateKeys]) (lookup_input i2) with
        | inr e => (Ok (mk None, Some e), h1)
        | inl [] => (Ok (mk None, Some (ErrorString "instance not found")), h1)
        | inl (r0 :: _) =>
            match Instances r0 with
            | [] => (Ok (mk None, Some (ErrorString "instance not found")), h1)
            | i0 :: _ => (Ok (mk (Some i0), None), h1)
            end
        end
    end.
Proof.
  intros H1 H2. unfold NewEC2Endpoint. rewrite H1. cbv iota beta zeta.
  rewrite H2. cbv iota beta zeta.
  unfold bind, call, getEC2Instance, bind, call, ret, lookup_input, errors_New.
  destruct (w_GenerateKeys w h) as [[priv pub] [err|]]; [reflexivity|].
  destruct (w_DescribeInstances w _ _) as [[|[[|i0 ins]] rs]|err];
    rewrite <- ?app_assoc; reflexivity.
Qed.

Lemma NewEC2Endpoint_split (s : string) :
  exists u i1 i2 p,
    match Split s "@" with
    | p0 :: p1 :: _ => (p0, p1)
    | _ => ("ec2-user"%string, s)
    end = (u, i1)
    /\ match Split i1 ":" with
       | p0 :: p1 :: _ => (p0, fst (Atoi p1))
       | _ => (i1, 22%Z)
       end = (i2, p).
Proof.
  destruct (match Split s "@" with
            | p0 :: p1 :: _ => (p0, p1) | _ => ("ec2-user"%string, s) end) as [u i1].
  destruct (match Split i1 ":" with
            | p0 :: p1 :: _ => (p0, fst (Atoi p1)) | _ => (i1, 22%Z) end) as [i2 p] eqn:E.
  exists u, i1, i2, p. split; [reflexivity|exact E].
Qed.

(** The fields parsed from the input do not depend on the answers. *)
Lemma NewEC2Endpoint_parsed (s u i1 i2 : string) (p : Z) (h : trace) :
  match Split s "@" with
  | p0 :: p1 :: _ => (p0, p1)
  | _ => ("ec2-user"%string, s)
  end = (u, i1) ->
  match Split i1 ":" with
  | p0 :: p1 :: _ => (p0, fst (Atoi p1))
  | _ => (i1, 22%Z)
  end = (i2, p) ->
  exists e err h',
    NewEC2Endpoint w s h = (Ok (e, err), h')
    /\ User e = u /\ InstanceID e = i2 /\ Port e = p.
Proof.
  intros H1 H2. rewrite (NewEC2Endpoint_run s u i1 i2 p h H1 H2).
  destruct (w_GenerateKeys w h) as [[priv pub] [err|]].
  - do 3 eexists. split; [reflexivity|]. repeat split.
  - cbv zeta. destruct (w_DescribeInstances w _ _) as [[|[[|i0 ins]] rs]|err];
      (do 3 eexists; split; [reflexivity|]; repeat split).
Qed.

End EndpointConstruction.

(** X5: [NewEC2Endpoint] always returns, and it returns a nil error exactly
    when the endpoint holds its instance.  It generates keys once; it looks
    the instance up at most once, by the id it parsed, and not at all when
    key generation failed, whose error it then returns; the endpoint is
    never marked private. *)
Theorem NewEC2Endpoint_error_iff_no_instance (w : World) (s : string) (h : trace) :
  exists e err evs,
    NewEC2Endpoint w s h = (Ok (e, err), h ++ evs)
    /\ (err = None <-> Instance_ e <> None)
    /\ UsePrivate e = false
    /\ (evs = [EvGenerateKeys]
        \/ evs = [EvGenerateKeys; EvDescribeInstances (lookup_input (InstanceID e))])
    /\ (forall kerr, snd (w_GenerateKeys w h) = Some kerr ->
        err = Some kerr /\ evs = [EvGenerateKeys]).
Proof.
  destruct (NewEC2Endpoint_split s) as (u & i1 & i2 & p & H1 & H2).
  rewrite (NewEC2Endpoint_run w s u i1 i2 p h H1 H2).
  destruct (w_GenerateKeys w h) as [[priv pub] [kerr|]]; simpl.
  - do 3 eexists. split; [reflexivity|]. simpl.
    split; [split; [discriminate|congruence]|].
    split; [reflexivity|]. split; [left; reflexivity|].
    intros k [= <-]. split; reflexivity.
  - destruct (w_DescribeInstances w _ _) as [[|[[|i0 ins]] rs]|err];
      (do 3 eexists; split; [reflexivity|]; simpl;
       split; [split; [try discriminate; try congruence|try congruence; try discriminate]|];
       split; [reflexivity|]; split; [right; reflexivity|discriminate]).
Qed.

(** X6: an endpoint returned without error holds the keys that were
    generated for it and the first instance of the first reservation that
    the lookup by its own id returned. *)
Theorem NewEC2Endpoint_holds_first_instance
  (w : World) (s : string) (h h' : trace) (e : EC2Endpoint) :
  NewEC2Endpoint w s h = (Ok (e, None), h') ->
  exists r0 rs i0 more,
    w_GenerateKeys w h = (PrivateKey e, PublicKey e, None)
    /\ w_DescribeInstances w (h ++ [EvGenerateKeys]) (lookup_input (InstanceID e))
       = inl (r0 :: rs)
    /\ Instances r0 = i0 :: more
    /\ Instance_ e = Some i0.
Proof.
  destruct (NewEC2Endpoint_split s) as (u & i1 & i2 & p & H1 & H2).
  rewrite (NewEC2Endpoint_run w s u i1 i2 p h H1 H2).
  destruct (w_GenerateKeys w h) as [[priv pub] [kerr|]]; simpl; [discriminate|].
  destruct (w_DescribeInstances w _ _) as [[|[[|i0 ins]] rs]|err] eqn:Hl;
    try discriminate.
  intros [= <- <-]. simpl. exists {| Instances := i0 :: ins |}, rs, i0, ins.
  repeat split. exact Hl.
Qed.

(** X6 for the bastion i-aaa. *)
Lemma NewEC2Endpoint_holds_first_instance_witness :
  exists r0 rs i0 more,
    w_GenerateKeys bad_key [] = ("PRIVATE"%string, "PUBLIC"%string, None)
    /\ w_DescribeInstances bad_key ([] ++ [EvGenerateKeys]) (lookup_input "i-aaa")
       = inl (r0 :: rs)
    /\ Instances r0 = i0 :: more
    /\ Some (Scenario.inst "i-aaa" "10.0.0.1" "1.1.1.1") = Some i0.
Proof.
  exact (NewEC2Endpoint_holds_first_instance bad_key "ec2-user@i-aaa:22" []
           (snd (NewEC2Endpoint bad_key "ec2-user@i-aaa:22" []))
           (fst (match fst (NewEC2Endpoint bad_key "ec2-user@i-aaa:22" []) with
                 | Ok r => r
                 | _ => (bastion, None)
                 end))
           eq_refl).
Defined.

(** X7: [NewEC2Endpoint] reads back the address [run] formats with
    "%s@%s:%d": for a user without "@", an id without "@" and ":", and a
    port within the range of int, the endpoint built from
    user@id:port has that user, id and port. *)
Theorem NewEC2Endpoint_reads_back_formatted_address
  (w : World) (user id : string) (port : Z) (h : trace) :
  has "@" user = false ->
  has "@" id = false ->
  has ":" id = false ->
  (minInt <= port <= maxInt)%Z ->
  exists e err h',
    NewEC2Endpoint w (user ++ "@" ++ id ++ ":" ++ itoa port)%string h = (Ok (e, err), h')
    /\ User e = user /\ InstanceID e = id /\ Port e = port.
Proof.
  intros Hu Hi1 Hi2 Hp.
  assert (Hrest : has "@" (id ++ ":" ++ itoa port)%string = false).
  { rewrite has_app, Hi1. cbn [append has]. rewrite itoa_has_not; [reflexivity| |];
      [vm_compute; reflexivity|discriminate]. }
  apply (NewEC2Endpoint_parsed w _ user (id ++ ":" ++ itoa port)%string id port h).
  - change (user ++ "@" ++ id ++ ":" ++ itoa port)%string
      with (user ++ String "@" (id ++ ":" ++ itoa port))%string.
    rewrite (Split_first "@" user _ Hu), (Split_none "@" _ Hrest). reflexivity.
  - change (id ++ ":" ++ itoa port)%string with (id ++ String ":" (itoa port))%string.
    rewrite (Split_first ":" id _ Hi2), Split_none.
    + now rewrite (Atoi_itoa port Hp).
    + apply itoa_has_not; [vm_compute; reflexivity|discriminate].
Qed.

(** X7 for ec2-user@i-0f3a:2222. *)
Lemma NewEC2Endpoint_reads_back_formatted_address_witness :
  exists e err h',
    NewEC2Endpoint Scenario.calm ("ec2-user" ++ "@" ++ "i-0f3a" ++ ":" ++ itoa 2222)%string []
    = (Ok (e, err), h')
    /\ User e = "ec2-user"%string /\ InstanceID e = "i-0f3a"%string /\ Port e = 2222%Z.
Proof.
  apply (NewEC2Endpoint_reads_back_formatted_address Scenario.calm "ec2-user" "i-0f3a" 2222 []);
    [reflexivity|reflexivity|reflexivity|vm_compute; split; discriminate].
Defined.

(** X8: an input with neither "@" nor ":" is taken whole as the instance
    id, with the default user ec2-user and the default port 22. *)
Theorem NewEC2Endpoint_defaults (w : World) (s : string) (h : trace) :
  has "@" s = false ->
  has ":" s = false ->
  exists e err h',
    NewEC2Endpoint w s h = (Ok (e, err), h')
    /\ User e = "ec2-user"%string /\ InstanceID e = s /\ Port e = 22%Z.
Proof.
  intros Ha Hc. apply (NewEC2Endpoint_parsed w s "ec2-user" s s 22 h).
  - now rewrite (Split_none "@" s Ha).
  - now rewrite (Split_none ":" s Hc).
Qed.

(** X8 for the address 10.0.3.7. *)
Lemma NewEC2Endpoint_defaults_witness :
  exists e err h',
    NewEC2Endpoint Scenario.calm "10.0.3.7" [] = (Ok (e, err), h')
    /\ User e = "ec2-user"%string /\ InstanceID e = "10.0.3.7"%string /\ Port e = 22%Z.
Proof.
  apply (NewEC2Endpoint_defaults Scenario.calm "10.0.3.7" []); reflexivity.
Defined.

(** A port text that is empty, or whose first byte is neither a digit nor a
    sign, is a syntax error. *)
Lemma Atoi_not_a_number (p : string) :
  not_a_number p = true -> Atoi p = (0%Z, Some (NumError "Atoi" ErrSyntax)).
Proof.
  destruct p as [|c rest]; [reflexivity|]. unfold not_a_number.
  destruct (digit_of c) eqn:Hd; [discriminate|].
  intros H. apply andb_prop in H as [Hm Hp].
  apply negb_true_iff in Hm, Hp.
  cbv beta iota zeta delta [Atoi].
  destruct ((0 <? String.length (String c rest))%nat
            && (String.length (String c rest) <? 19)%nat)%bool.
  - rewrite Hm, Hp. cbn [orb andb digits]. rewrite Hd. reflexivity.
  - cbv beta iota zeta delta [ParseInt ParseUint]. rewrite Hm, Hp.
    cbn [orb ParseUint_loop]. rewrite Hd. reflexivity.
Qed.

(** X9: the error of [strconv.Atoi] is dropped.  For an id and a port text
    free of "@" and ":", when the port text is empty or starts with a byte
    that is neither a digit nor a sign, [Atoi] reports an error and
    [NewEC2Endpoint] goes on all the same: the user is ec2-user, the port
    is 0 and not the default 22, the keys are generated and the instance is
    looked up by the id; the error it returns is that of the key
    generation or of the lookup, never that of [Atoi]. *)
Theorem NewEC2Endpoint_bad_port_is_zero (w : World) (id p : string) (h : trace) :
  has "@" id = false -> has ":" id = false ->
  has "@" p = false -> has ":" p = false ->
  not_a_number p = true ->
  snd (Atoi p) <> None
  /\ NewEC2Endpoint w (id ++ ":" ++ p)%string h
     = let '(priv, pub, kerr) := w_GenerateKeys w h in
       let mk inst := {| InstanceID := id; Port := 0%Z; User := "ec2-user";
                         PrivateKey := priv; PublicKey := pub;
                         UsePrivate := false; Instance_ := inst |} in
       match kerr with
       | Some e => (Ok (mk None, Some e), h ++ [EvGenerateKeys])
       | None =>
           let h1 := h ++ [EvGenerateKeys; EvDescribeInstances (lookup_input id)] in
           match w_DescribeInstances w (h ++ [EvGenerateKeys]) (lookup_input id) with
           | inr e => (Ok (mk None, Some e), h1)
           | inl [] => (Ok (mk None, Some (ErrorString "instance not found")), h1)
           | inl (r0 :: _) =>
               match Instances r0 with
               | [] => (Ok (mk None, Some (ErrorString "instance not found")), h1)
               | i0 :: _ => (Ok (mk (Some i0), None), h1)
               end
           end
       end.
Proof.
  intros Hi1 Hi2 Hp1 Hp2 Hn. split.
  - rewrite (Atoi_not_a_number p Hn). discriminate.
  - apply (NewEC2Endpoint_run w _ "ec2-user" (id ++ ":" ++ p)%string id 0 h).
    + rewrite Split_none; [reflexivity|].
      rewrite has_app, Hi1. cbn [append has]. rewrite Hp1. reflexivity.
    + change (id ++ ":" ++ p)%string with (id ++ String ":" p)%string.
      rewrite (Split_first ":" id _ Hi2), (Split_none ":" p Hp2).
      now rewrite (Atoi_not_a_number p Hn).
Qed.

(** X9 for i-0f3a:ssh, an id no instance answers to: the error is that of
    the lookup. *)
Lemma NewEC2Endpoint_bad_port_is_zero_witness :
  snd (Atoi "ssh") <> None
  /\ NewEC2Endpoint Scenario.calm ("i-0f3a" ++ ":" ++ "ssh")%string []
     = (Ok ({| InstanceID := "i-0f3a"; Port := 0%Z; User := "ec2-user";
               PrivateKey := "PRIVATE"; PublicKey := "PUBLIC";
               UsePrivate := false; Instance_ := None |},
            Some (ErrorString "instance not found")),
        [EvGenerateKeys; EvDescribeInstances (lookup_input "i-0f3a")]).
Proof.
  exact (NewEC2Endpoint_bad_port_is_zero Scenario.calm "i-0f3a" "ssh" []
           eq_refl eq_refl eq_refl eq_refl eq_refl).
Defined.

(** ** Address resolution *)

(** X10: a push that the service answers without an error decides by its
    [Success] flag.  Set, [String] returns the selected address and logs
    nothing; unset, [sendPublicKey] returns an error that carries the
    request id and [String] ends the process with status 1, as for a failed
    push. *)
Theorem String_needs_a_successful_push
  (w : World) (e : EC2Endpoint) (i : Instance) (h : trace) (out : SendSSHPublicKeyOutput) :
  Instance_ e = Some i ->
  w_SendSSHPublicKey w h (push_input e i) = inl out ->
  if Success out
  then String_ w e h = (Ok (selected_address e i), h ++ [EvSendSSHPublicKey (push_input e i)])
  else
    sendPublicKey w (Instance_ e) (User e) (PublicKey e) h
    = (Ok (Some (ErrorString
         ("request failed but no error was returned. Request ID: "
            ++ aws_ToString (RequestId out))%string)),
       h ++ [EvSendSSHPublicKey (push_input e i)])
    /\ String_ w e h
       = (Exit 1%Z,
          h ++ [EvSendSSHPublicKey (push_input e i);
                EvLog LFatal
                  ("request failed but no error was returned. Request ID: "
                     ++ aws_ToString (RequestId out))%string]).
Proof.
  intros Hi Hout.
  pose proof (sendPublicKey_cases w e i h) as Hs. rewrite Hout in Hs.
  pose proof (String_cases w e i h Hi) as HS. rewrite Hs in HS. rewrite Hi.
  destruct (Success out).
  - exact HS.
  - split; [exact Hs|]. rewrite HS. simpl. rewrite <- app_assoc. reflexivity.
Qed.

(** X10 where every push succeeds. *)
Lemma String_needs_a_successful_push_witness :
  String_ Scenario.calm bastion []
  = (Ok "1.1.1.1:22"%string,
     [EvSendSSHPublicKey (push_input bastion (Scenario.inst "i-aaa" "10.0.0.1" "1.1.1.1"))]).
Proof.
  exact (String_needs_a_successful_push Scenario.calm bastion
           (Scenario.inst "i-aaa" "10.0.0.1" "1.1.1.1") []
           {| Success := true; RequestId := None |} eq_refl eq_refl).
Defined.

(** X11: an endpoint that [NewEC2Endpoint] returned together with an error
    has no instance, and resolving it panics on the nil instance before
    anything is pushed. *)
Theorem String_panics_on_failed_endpoint
  (w : World) (s : string) (h h' : trace) (e : EC2Endpoint) (err : error) :
  NewEC2Endpoint w s h = (Ok (e, Some err), h') ->
  Instance_ e = None
  /\ forall h2, String_ w e h2 = (Panic nil_deref, h2).
Proof.
  destruct (NewEC2Endpoint_split s) as (u & i1 & i2 & p & H1 & H2).
  rewrite (NewEC2Endpoint_run w s u i1 i2 p h H1 H2).
  intros Hrun.
  assert (Hn : Instance_ e = None).
  { destruct (w_GenerateKeys w h) as [[priv pub] [kerr|]]; simpl in Hrun.
    - injection Hrun as <- _ _. reflexivity.
    - destruct (w_DescribeInstances w _ _) as [[|[[|i0 ins]] rs]|err'];
        try discriminate; injection Hrun as <- _ _; reflexivity. }
  split; [exact Hn|]. intros h2. unfold String_, sendPublicKey, bind, panic.
  rewrite Hn. reflexivity.
Qed.

(** X11 for an id no instance answers to. *)
Lemma String_panics_on_failed_endpoint_witness :
  String_ Scenario.calm
    {| InstanceID := "i-gone"; Port := 22; User := "ec2-user"; PrivateKey := "PRIVATE";
       PublicKey := "PUBLIC"; UsePrivate := false; Instance_ := None |} []
  = (Panic nil_deref, []).
Proof.
  exact (proj2 (String_panics_on_failed_endpoint Scenario.calm "i-gone" []
                  (snd (NewEC2Endpoint Scenario.calm "i-gone" []))
                  {| InstanceID := "i-gone"; Port := 22; User := "ec2-user";
                     PrivateKey := "PRIVATE"; PublicKey := "PUBLIC";
                     UsePrivate := false; Instance_ := None |}
                  (ErrorString "instance not found") eq_refl) []).
Defined.

(** ** The chain, piece by piece *)

Section ChainPieces.
Variable w : World.

(** The loop of [Connect] over two chains laid end to end. *)
Lemma Connect_loop_app (a b : list EndpointIface) (client : option Client) (h : trace) :
  Connect_loop w (a ++ b) client h
  = match Connect_loop w a client h with
    | (Ok (Next client'), h') => Connect_loop w b client' h'
    | (Ok (Return err), h') => (Ok (Return err), h')
    | (Exit code, h') => (Exit code, h')
    | (Panic msg, h') => (Panic msg, h')
    end.
Proof.
  revert client h. induction a as [|ep a IH]; intros client h; [reflexivity|].
  change ((ep :: a) ++ b) with (ep :: (a ++ b)).
  rewrite !Connect_loop_step.
  destruct (ep_GetSSHConfig ep) as [cfg [e|]]; [reflexivity|].
  destruct (ep_String ep h) as [[addr|x|s] h1]; try reflexivity.
  cbv zeta. destruct client as [p|].
  - destruct (w_clientDial w _ p addr) as [conn|e]; [|reflexivity].
    destruct cfg as [c|]; [|reflexivity].
    destruct (w_NewClientConn w _ conn addr c) as [ncc|e]; [apply IH|reflexivity].
  - destruct cfg as [c|]; [|reflexivity].
    destruct (w_sshDial w _ addr c) as [cl|e]; [apply IH|reflexivity].
Qed.

(** The loop of [Connect] over EC2 endpoints that hold their instances
    never panics, and it ends without a client only if it started without
    one and had no endpoint to connect. *)
Lemma Connect_loop_ec2_safe (es : list EC2Endpoint) :
  Forall (fun e => Instance_ e <> None) es ->
  forall client h,
    match Connect_loop w (map (EC2Endpoint_iface w) es) client h with
    | (Panic _, _) => False
    | (Ok (Next None), _) => client = None /\ es = []
    | _ => True
    end.
Proof.
  induction es as [|e es IH]; intros Hall client h.
  - simpl. destruct client; auto.
  - inversion Hall as [|? ? Hi Hrest]; subst.
    change (map (EC2Endpoint_iface w) (e :: es))
      with (EC2Endpoint_iface w e :: map (EC2Endpoint_iface w) es).
    rewrite Connect_loop_step. cbn [ep_GetSSHConfig ep_String EC2Endpoint_iface].
    unfold GetSSHConfig.
    destruct (w_ParsePrivateKey w (PrivateKey e)) as [key|err]; [|exact I].
    destruct (Instance_ e) as [i|] eqn:Hie; [|congruence].
    rewrite (String_cases w e i h Hie), (sendPublicKey_cases w e i h).
    assert (Hgo : forall cl h',
              match Connect_loop w (map (EC2Endpoint_iface w) es) (Some cl) h' with
              | (Panic _, _) => False
              | (Ok (Next None), _) => client = None /\ e :: es = []
              | _ => True
              end).
    { intros cl h'. specialize (IH Hrest (Some cl) h').
      destruct (Connect_loop w (map (EC2Endpoint_iface w) es) (Some cl) h')
        as [[[[c|]|r]|x|s] h'']; auto. destruct IH; discriminate. }
    destruct (w_SendSSHPublicKey w h (push_input e i)) as [out|err];
      [destruct (Success out)|destruct (errors_As_Throttling err)];
      try exact I; cbv zeta;
      (destruct client as [p|];
       [destruct (w_clientDial w _ p _) as [conn|e1]; [|exact I];
        destruct (w_NewClientConn w _ conn _ _) as [ncc|e2]; [apply Hgo|exact I]
       |destruct (w_sshDial w _ _ _) as [cl|e1]; [apply Hgo|exact I]]).
Qed.

(** The session part of [Connect] on a client never panics. *)
Lemma Connect_session_no_panic (client : Client) (h : trace) (msg : string) :
  fst (Connect_session w (Some client) h) <> Panic msg.
Proof. crunch_session; simpl; discriminate. Qed.

End ChainPieces.

(** X12: connecting a chain laid end to end from two chains is connecting
    the first and then, from the client and the trace it ended with,
    connecting the second; when the first returns early, ends the process
    or panics, the second is never touched. *)
Theorem Connect_loop_composes
  (w : World) (a b : list EndpointIface) (client : option Client) (h : trace) :
  Connect_loop w (a ++ b) client h
  = match Connect_loop w a client h with
    | (Ok (Next client'), h') => Connect_loop w b client' h'
    | (Ok (Return err), h') => (Ok (Return err), h')
    | (Exit code, h') => (Exit code, h')
    | (Panic msg, h') => (Panic msg, h')
    end.
Proof. exact (Connect_loop_app w a b client h). Qed.

(** X13: on a chain of EC2 endpoints that hold their instances, [Connect]
    panics exactly when the chain is empty (the nil client is asked for a
    session); with at least one endpoint no configuration or client it uses
    is ever nil. *)
Theorem Connect_panics_only_on_empty_chain
  (w : World) (es : list EC2Endpoint) (h : trace) :
  Forall (fun e => Instance_ e <> None) es ->
  (exists msg, fst (Connect w (map (EC2Endpoint_iface w) es) h) = Panic msg) <-> es = [].
Proof.
  intros Hall. split.
  - intros [msg Hp]. unfold Connect, bind in Hp.
    pose proof (Connect_loop_ec2_safe w es Hall None h) as Hsafe.
    destruct (Connect_loop w (map (EC2Endpoint_iface w) es) None h)
      as [[[[c|]|r]|x|s] h']; simpl in Hp; try discriminate.
    + exfalso. exact (Connect_session_no_panic w c h' msg Hp).
    + exact (proj2 Hsafe).
    + contradiction.
  - intros ->. exists nil_deref. reflexivity.
Qed.

(** X13 on the bastion alone. *)
Lemma Connect_panics_only_on_empty_chain_witness :
  (exists msg, fst (Connect Scenario.calm (map (EC2Endpoint_iface Scenario.calm) [bastion]) [])
               = Panic msg)
  <-> [bastion] = [].
Proof.
  apply (Connect_panics_only_on_empty_chain Scenario.calm [bastion] []).
  repeat constructor. discriminate.
Defined.

(** X14: when the auth configuration of an endpoint cannot be built,
    [Connect] returns nil at that endpoint, wherever it stands in the
    chain: the error is dropped, the endpoint is not resolved, and no
    endpoint after it is touched. *)
Theorem Connect_returns_nil_at_failed_config
  (w : World) (pre rest : list EndpointIface) (ep : EndpointIface)
  (client : option Client) (h h1 : trace) (cfg : option ClientConfig) (err : error) :
  Connect_loop w pre None h = (Ok (Next client), h1) ->
  ep_GetSSHConfig ep = (cfg, Some err) ->
  Connect w (pre ++ ep :: rest) h = (Ok None, h1).
Proof.
  intros Hpre Hcfg. unfold Connect, bind.
  rewrite Connect_loop_app, Hpre, Connect_loop_step, Hcfg. reflexivity.
Qed.

(** X14 where the key of the inner host does not parse: the bastion is
    connected, then [Connect] returns nil without a push for the inner
    host. *)
Lemma Connect_returns_nil_at_failed_config_witness :
  Connect inner_bad_key
    ([EC2Endpoint_iface inner_bad_key bastion] ++ EC2Endpoint_iface inner_bad_key inner :: []) []
  = (Ok None,
     [EvSendSSHPublicKey (push_input bastion (Scenario.inst "i-aaa" "10.0.0.1" "1.1.1.1"));
      EvLog LInfo "Attempting to connect to 1.1.1.1:22";
      EvSshDial "tcp" "1.1.1.1:22"
        {| cc_User := "ec2-user"; cc_Auth := [PublicKeys (SignerOf "PRIVATE-i-aaa")];
           cc_HostKeyCallback := InsecureIgnoreHostKey |} (inl (ClientH 2))]).
Proof.
  exact (Connect_returns_nil_at_failed_config inner_bad_key
           [EC2Endpoint_iface inner_bad_key bastion] []
           (EC2Endpoint_iface inner_bad_key inner) (Some (ClientH 2)) [] _
           None (ErrorString "ssh: no key found") eq_refl eq_refl).
Defined.

(** ** The session, path by path *)

(** X15: whenever the session part of [Connect] returns, with an error or
    without, the terminal is not left in raw mode: what [term.MakeRaw]
    changed, the deferred [term.Restore] has put back with the state
    [MakeRaw] returned. *)
Theorem Connect_return_restores_terminal
  (w : World) (client : option Client) (h : trace) :
  exists evs,
    snd (Connect_session w client h) = h ++ evs
    /\ forall r, fst (Connect_session w client h) = Ok r -> raw_after None evs = None.
Proof. exact (Connect_session_restores_on_return w client h). Qed.

(** X16: when standard input is a terminal, every end of the process
    inside the session part of [Connect] has status 1 and leaves the
    terminal in raw mode. *)
Theorem Connect_exit_leaves_terminal_raw
  (w : World) (client : Client) (h : trace) (code : Z) :
  w_IsTerminal w (h ++ [EvNewSession client]) (w_stdin w) = true ->
  fst (Connect_session w (Some client) h) = Exit code ->
  exists evs st,
    snd (Connect_session w (Some client) h) = h ++ evs
    /\ raw_after None evs = Some (w_stdin w, st)
    /\ code = 1%Z.
Proof. exact (Connect_session_exit_leaves_raw w client h code). Qed.

(** X16 where the remote side refuses the shell. *)
Lemma Connect_exit_leaves_terminal_raw_witness :
  exists evs st,
    snd (Connect_session no_shell (Some (ClientH 2)) []) = [] ++ evs
    /\ raw_after None evs = Some (w_stdin no_shell, st)
    /\ 1%Z = 1%Z.
Proof.
  exact (Connect_exit_leaves_terminal_raw no_shell (ClientH 2) [] 1 eq_refl eq_refl).
Defined.

(** X17: when standard input is not a terminal, the session part of
    [Connect] neither switches anything to raw mode nor requests a
    pseudo-terminal. *)
Theorem Connect_without_terminal_sets_up_no_tty
  (w : World) (client : Client) (h : trace) :
  w_IsTerminal w (h ++ [EvNewSession client]) (w_stdin w) = false ->
  exists evs,
    snd (Connect_session w (Some client) h) = h ++ evs
    /\ filter is_tty_setup evs = [].
Proof. exact (Connect_session_plain_without_terminal w client h). Qed.

(** X17 on a pipe. *)
Lemma Connect_without_terminal_sets_up_no_tty_witness :
  exists evs,
    snd (Connect_session Scenario.calm (Some (ClientH 2)) []) = [] ++ evs
    /\ filter is_tty_setup evs = [].
Proof.
  exact (Connect_without_terminal_sets_up_no_tty Scenario.calm (ClientH 2) [] eq_refl).
Defined.

(** X18: on a terminal where every call succeeds the order is: raw mode,
    size, pseudo-terminal xterm-256color with the height and the width
    just read (in that order) and the modes ECHO 1 and both speeds 14400,
    shell, wait; then the terminal state is restored, then the session is
    closed, and [Connect] returns what the wait returned. *)
Theorem Connect_on_terminal_runs_in_order
  (w : World) (client : Client) (h : trace) (sess : Session) (st : TermState)
  (width height : Z) :
  let fd := w_stdin w in
  let h1 := h ++ [EvNewSession client] in
  let h2 := h1 ++ [EvIsTerminal fd] in
  let h3 := h2 ++ [EvMakeRaw fd (inl st)] in
  let h4 := h3 ++ [EvGetSize fd] in
  let h5 := h4 ++ [EvRequestPty sess "xterm-256color" height width
                     [(ECHO, 1%Z); (TTY_OP_ISPEED, 14400%Z); (TTY_OP_OSPEED, 14400%Z)]] in
  let h6 := h5 ++ [EvShell sess] in
  w_NewSession w h client = inl sess ->
  w_IsTerminal w h1 fd = true ->
  w_MakeRaw w h2 fd = inl st ->
  w_GetSize w h3 fd = inl (width, height) ->
  w_RequestPty w h4 sess = None ->
  w_Shell w h5 sess = None ->
  Connect_session w (Some client) h
  = (Ok (w_Wait w h6 sess),
     h6 ++ [EvWait sess; EvRestore fd st; EvSessionClose sess]).
Proof. exact (Connect_session_on_terminal w client h sess st width height). Qed.

(** X18 where the remote shell ends with status 3: [Connect] returns that
    exit error. *)
Lemma Connect_on_terminal_runs_in_order_witness :
  fst (Connect_session shell_exits_3 (Some (ClientH 2)) [])
  = Ok (Some (ExitError 3 "Process exited with status 3")).
Proof.
  exact (f_equal fst
           (Connect_on_terminal_runs_in_order shell_exits_3 (ClientH 2) [] (SessionH 0)
              (TermStateH 7) 120 40 eq_refl eq_refl eq_refl eq_refl eq_refl eq_refl)).
Defined.

Section SessionPaths.
Variable w : World.

(** X19: once the session exists it is closed on every return path, as the
    last thing [Connect] does, and it is not closed when the process ends
    inside [Connect]. *)
Theorem Connect_closes_session_on_return
  (client : Client) (h : trace) (sess : Session) :
  w_NewSession w h client = inl sess ->
  exists evs,
    snd (Connect_session w (Some client) h) = h ++ evs
    /\ match fst (Connect_session w (Some client) h) with
       | Ok _ => exists pre, evs = pre ++ [EvSessionClose sess]
       | Exit _ => ~ In (EvSessionClose sess) evs
       | Panic _ => False
       end.
Proof.
  intros Hs.
  cbv beta iota zeta delta [Connect_session Connect_shell defer bind call callr
    emit slog os_Exit ret panic].
  rewrite Hs.
  repeat match goal with
         | |- context [match ?x with _ => _ end] =>
             lazymatch x with
             | context [match _ with _ => _ end] => fail
             | _ => destruct x eqn:?
             end
         end; simpl;
    (eexists; split; [rewrite <- ?app_assoc; reflexivity|]); simpl;
    try match goal with
        | H : fst _ = _ |- _ => simpl in H; discriminate H
        end;
    first [ match goal with
            | |- exists pre, ?l = pre ++ [_] => exists (removelast l); reflexivity
            end
          | let H := fresh in
            intros H; simpl in H;
            repeat (destruct H as [H|H]; [discriminate|]); exact H ].
Qed.

(** X20: without a terminal and with the shell started, [Connect] returns
    exactly what [sess.Wait] returned, the exit error of the remote shell
    included, and closes the session after the wait. *)
Theorem Connect_returns_what_wait_returned
  (client : Client) (h : trace) (sess : Session) :
  let fd := w_stdin w in
  let h1 := h ++ [EvNewSession client] in
  let h2 := h1 ++ [EvIsTerminal fd] in
  let h3 := h2 ++ [EvShell sess] in
  w_NewSession w h client = inl sess ->
  w_IsTerminal w h1 fd = false ->
  w_Shell w h2 sess = None ->
  Connect_session w (Some client) h
  = (Ok (w_Wait w h3 sess), h3 ++ [EvWait sess; EvSessionClose sess]).
Proof.
  intros fd h1 h2 h3 Hs Ht Hsh. subst fd h1 h2 h3.
  cbv beta iota zeta delta [Connect_session Connect_shell defer bind call callr
    emit slog os_Exit ret panic].
  rewrite Hs, Ht, Hsh. rewrite <- !app_assoc. reflexivity.
Qed.

(** X21: when the terminal cannot be switched to raw mode, [Connect] closes
    the session and returns nil: the error is dropped, and neither a
    pseudo-terminal nor a shell is requested. *)
Theorem Connect_returns_nil_when_raw_mode_fails
  (client : Client) (h : trace) (sess : Session) (err : error) :
  let fd := w_stdin w in
  let h1 := h ++ [EvNewSession client] in
  let h2 := h1 ++ [EvIsTerminal fd] in
  w_NewSession w h client = inl sess ->
  w_IsTerminal w h1 fd = true ->
  w_MakeRaw w h2 fd = inr err ->
  Connect_session w (Some client) h
  = (Ok None, h2 ++ [EvMakeRaw fd (inr err); EvSessionClose sess]).
Proof.
  intros fd h1 h2 Hs Ht Hm. subst fd h1 h2.
  cbv beta iota zeta delta [Connect_session Connect_shell defer bind call callr
    emit slog os_Exit ret panic].
  rewrite Hs, Ht, Hm. rewrite <- !app_assoc. reflexivity.
Qed.

End SessionPaths.

(** X19 on a pipe: the session is closed last. *)
Lemma Connect_closes_session_on_return_witness :
  exists evs,
    snd (Connect_session Scenario.calm (Some (ClientH 2)) []) = [] ++ evs
    /\ match fst (Connect_session Scenario.calm (Some (ClientH 2)) []) with
       | Ok _ => exists pre, evs = pre ++ [EvSessionClose (SessionH 0)]
       | Exit _ => ~ In (EvSessionClose (SessionH 0)) evs
       | Panic _ => False
       end.
Proof.
  exact (Connect_closes_session_on_return Scenario.calm (ClientH 2) [] (SessionH 0) eq_refl).
Defined.

(** X20 where the remote shell ends with status 3. *)
Lemma Connect_returns_what_wait_returned_witness :
  fst (Connect_session piped_exits_3 (Some (ClientH 2)) [])
  = Ok (Some (ExitError 3 "Process exited with status 3")).
Proof.
  exact (f_equal fst
           (Connect_returns_what_wait_returned piped_exits_3 (ClientH 2) [] (SessionH 0)
              eq_refl eq_refl eq_refl)).
Defined.

(** X21 on a terminal that refuses raw mode. *)
Lemma Connect_returns_nil_when_raw_mode_fails_witness :
  Connect_session raw_fails (Some (ClientH 2)) []
  = (Ok None,
     [EvNewSession (ClientH 2); EvIsTerminal 0;
      EvMakeRaw 0 (inr (ErrorString "inappropriate ioctl for device"));
      EvSessionClose (SessionH 0)]).
Proof.
  exact (Connect_returns_nil_when_raw_mode_fails raw_fails (ClientH 2) [] (SessionH 0)
           (ErrorString "inappropriate ioctl for device") eq_refl eq_refl eq_refl).
Defined.

(** X22: the exit status of the process, as its parent reads it, is
    decided by what [run] returned: 0 for nil, the low eight bits of the
    status of the remote shell for an [ssh.ExitError], 1 for every other
    error, which is logged first.  [main] passes the remote status to
    [os.Exit] as it is. *)
Theorem exit_status_follows_run
  (w : World) (NewEndpoint : string -> Endpoint) (fuel : nat) (c : Context)
  (h h' : trace) (err : option error) :
  run w NewEndpoint fuel c (h ++ [EvGo GoSignalHandler]) = (Ok (Returned err), h') ->
  exit_status w NewEndpoint fuel c h = Some (status_of err)
  /\ snd (main w NewEndpoint fuel c h)
     = match err with
       | None | Some (ExitError _ _) => h'
       | Some e => h' ++ [EvLog LError (Error e)]
       end.
Proof.
  intros Hrun. unfold exit_status.
  rewrite (main_after_run w NewEndpoint fuel c h h' _ Hrun).
  destruct err as [[m|m c0|m|st m]|]; split; reflexivity.
Qed.

(** X22 where the remote shell ends with status 3: so does the process. *)
Lemma exit_status_follows_run_witness :
  exit_status remote_exits_3 plain_endpoint 0 to_bastion [] = Some 3%Z.
Proof.
  exact (proj1 (exit_status_follows_run remote_exits_3 plain_endpoint 0 to_bastion []
                  (snd (run remote_exits_3 plain_endpoint 0 to_bastion
                          ([] ++ [EvGo GoSignalHandler])))
                  (Some (ExitError 3 "Process exited with status 3")) eq_refl)).
Defined.

(** A remote shell that ends with status 256 ends the process with
    status 0. *)
Example exit_status_wraps :
  fst (main remote_exits_256 plain_endpoint 0 to_bastion []) = Exit 256%Z
  /\ exit_status remote_exits_256 plain_endpoint 0 to_bastion [] = Some 0%Z.
Proof. split; reflexivity. Qed.

(** ** The tunnel and its accept loop *)

Section TunnelFacts.
Variable w : World.

Lemma accepts_app tr1 tr2 : accepts (tr1 ++ tr2) = accepts tr1 + accepts tr2.
Proof. unfold accepts. now rewrite filter_app, length_app. Qed.

(** One iteration of the accept loop, then the rest. *)
Lemma Tunnel_loop_S (fuel : nat) (l : Listener) (h : trace) :
  Tunnel_loop w (S fuel) l h
  = match w_Accept w h l with
    | inl conn =>
        Tunnel_loop w fuel l
          (h ++ [EvAccept l (inl conn); EvLog LDebug "accepted connection";
                 EvGo (GoForward conn)])
    | inr err => (Ok (Returned (Some err)), h ++ [EvAccept l (inr err)])
    end.
Proof.
  cbn [Tunnel_loop]. unfold bind, callr, slog, emit, ret.
  destruct (w_Accept w h l); [rewrite <- !app_assoc|]; reflexivity.
Qed.

Lemma Tunnel_loop_post (fuel : nat) (l : Listener) (h : trace) :
  exists evs,
    snd (Tunnel_loop w fuel l h) = h ++ evs
    /\ conns evs = [] /\ closes evs = []
    /\ forallb is_forward (spawned evs) = true
    /\ spawned evs = map GoForward (accepted_conns evs)
    /\ match fst (Tunnel_loop w fuel l h) with
       | Ok StillRunning => forwards evs = fuel /\ accepts evs = fuel
       | Ok (Returned err) =>
           err <> None /\ accepts evs = S (forwards evs) /\ forwards evs < fuel
           /\ exists pre e, evs = pre ++ [EvAccept l (inr e)] /\ err = Some e
       | _ => False
       end.
Proof.
  revert h. induction fuel as [|fuel IH]; intros h.
  - exists []. simpl. rewrite app_nil_r. repeat split; reflexivity.
  - rewrite Tunnel_loop_S. destruct (w_Accept w h l) as [conn|err].
    + set (round := [EvAccept l (inl conn); EvLog LDebug "accepted connection";
                     EvGo (GoForward conn)]).
      destruct (IH (h ++ round)) as (evs & Hext & Hc & Hcl & Hf & Hsp & Hres).
      exists (round ++ evs).
      split; [rewrite Hext, <- app_assoc; reflexivity|].
      rewrite conns_app, closes_app, spawned_app, accepted_conns_app, forwards_app,
        accepts_app, Hc, Hcl.
      split; [reflexivity|]. split; [reflexivity|].
      split; [exact Hf|]. split; [rewrite map_app, <- Hsp; reflexivity|].
      change (accepts round) with 1. change (forwards round) with 1.
      destruct (fst (Tunnel_loop w fuel l _)) as [[err|]| |]; try exact Hres.
      * destruct Hres as (He & Ha & Hlt & pre & e & Hev & Herr).
        split; [exact He|]. split; [lia|]. split; [lia|].
        exists (round ++ pre), e. split; [rewrite Hev, app_assoc; reflexivity|exact Herr].
      * destruct Hres as (Ha & Hb). split; lia.
    + exists [EvAccept l (inr err)]. unfold forwards, accepts. simpl.
      repeat split; try reflexivity; try discriminate; try lia.
      exists [], err. split; reflexivity.
Qed.

(** X23: the accept loop of [Tunnel] never ends the process and opens no
    connection itself; it starts goroutines of [forward] only, one per
    accepted connection and for that connection, in the order of
    acceptance; and it returns only with the error of a failed [Accept],
    its last call, which is then the one call of [Accept] more than
    connections were forwarded. *)
Theorem Tunnel_loop_forwards_every_accepted_connection
  (fuel : nat) (l : Listener) (h : trace) :
  exists evs,
    snd (Tunnel_loop w fuel l h) = h ++ evs
    /\ conns evs = []
    /\ forallb is_forward (spawned evs) = true
    /\ spawned evs = map GoForward (accepted_conns evs)
    /\ match fst (Tunnel_loop w fuel l h) with
       | Ok StillRunning => forwards evs = fuel /\ accepts evs = fuel
       | Ok (Returned err) =>
           err <> None /\ accepts evs = S (forwards evs) /\ forwards evs < fuel
           /\ exists pre e, evs = pre ++ [EvAccept l (inr e)] /\ err = Some e
       | _ => False
       end.
Proof.
  destruct (Tunnel_loop_post fuel l h) as (evs & Hext & Hc & _ & Hf & Hsp & Hres).
  exists evs. auto.
Qed.

(** X24: [Tunnel] listens on the local port of "localhost".  When listening
    fails it returns that error and has done nothing else.  Otherwise it
    closes the listener exactly once, as the last thing it does, and only
    when it returns, which it does only with an error; it never ends the
    process and opens no connection itself. *)
Theorem Tunnel_closes_its_listener_last
  (fuel : nat) (localPort : Z) (remoteHost bastionHost : EndpointIface) (h : trace) :
  let addr := ("localhost:" ++ itoa localPort)%string in
  let h0 := h ++ [EvLog LDebug "Opening tunnel"] in
  let out := Tunnel w fuel localPort remoteHost bastionHost h in
  exists evs,
    snd out = h0 ++ EvListen "tcp" addr :: evs
    /\ conns evs = []
    /\ match w_Listen w h0 addr with
       | inr e => fst out = Ok (Returned (Some e)) /\ evs = []
       | inl l =>
           match fst out with
           | Ok StillRunning => closes evs = [] /\ forwards evs = fuel
           | Ok (Returned err) =>
               err <> None
               /\ exists pre, evs = pre ++ [EvListenerClose l]
                    /\ closes pre = [] /\ accepts pre = S (forwards pre)
           | _ => False
           end
       end.
Proof.
  intros addr h0 out. subst out. unfold Tunnel.
  cbv beta iota zeta delta [bind call slog emit ret].
  change ("localhost" ++ ":" ++ itoa localPort)%string with addr.
  fold h0. destruct (w_Listen w h0 addr) as [l|e].
  - set (h1 := (h0 ++ [EvListen "tcp" addr])
               ++ [EvLog LInfo ("listening on " ++ match l with ListenerH _ a => a end)]).
    destruct (Tunnel_loop_post fuel l h1) as (evs & Hext & Hc & Hcl & Hf & _ & Hres).
    destruct (Tunnel_loop w fuel l h1) as [[[err|]| |] h2]; simpl in Hext, Hres;
      try contradiction; subst h2.
    + exists ((EvLog LInfo ("listening on " ++ match l with ListenerH _ a => a end) :: evs)
              ++ [EvListenerClose l]).
      split; [subst h1; simpl; rewrite <- !app_assoc; reflexivity|].
      split; [rewrite conns_app; simpl; rewrite Hc; reflexivity|].
      destruct Hres as (He & Ha & _ & _). split; [exact He|].
      exists (EvLog LInfo ("listening on " ++ match l with ListenerH _ a => a end) :: evs).
      split; [reflexivity|]. split.
      * simpl. exact Hcl.
      * unfold accepts, forwards in *. simpl. exact Ha.
    + exists (EvLog LInfo ("listening on " ++ match l with ListenerH _ a => a end) :: evs).
      split; [subst h1; simpl; rewrite <- !app_assoc; reflexivity|].
      split; [simpl; exact Hc|].
      simpl. split; [exact Hcl|]. unfold forwards in *. simpl. apply Hres.
  - exists []. repeat split; reflexivity.
Qed.

End TunnelFacts.

(** ** One forwarded connection *)

Ltac tidy :=
  repeat progress
    (rewrite ?spawned_app, ?conns_app, ?pushes_app;
     repeat match goal with
       | H : forallb passive ?e = true |- context [spawned ?e] =>
           rewrite (passive_spawned e H)
       | H : forallb passive ?e = true |- context [conns ?e] =>
           rewrite (passive_conns e H)
       end;
     simpl).

Section ForwardFacts.
Variable w : World.
Variables remoteHost bastionHost : EndpointIface.

(** X25: between quiet endpoints, [forward] starts either nothing or,
    having returned, exactly the two copies between the local connection
    and the remote one, one per direction; and then the remote connection
    is the one opened through the client this very run dialed, the only two
    connections it made. *)
Theorem forward_copies_both_ways (localConn : Conn) (h : trace) :
  quiet remoteHost -> quiet bastionHost ->
  exists evs,
    snd (forward w remoteHost bastionHost localConn h) = h ++ evs
    /\ (spawned evs = []
        \/ fst (forward w remoteHost bastionHost localConn h) = Ok tt
           /\ exists a c serverConn raddr remoteConn,
                spawned evs = [GoCopyConn localConn remoteConn;
                               GoCopyConn remoteConn localConn]
                /\ conns evs = [EvSshDial "tcp" a c (inl serverConn);
                                EvClientDial serverConn "tcp" raddr (inl remoteConn)]).
Proof.
  intros Hr Hb.
  destruct (forward_forwarded w remoteHost bastionHost localConn h Hr Hb)
    as (res & evs & Hrun & Hfw).
  rewrite Hrun. exists evs. split; [reflexivity|].
  pose proof (config_log_passive bastionHost) as Hp0.
  inversion Hfw as [e1 r1 res' h0 Hs1 Hp1 Hab
                   |e1 addr h0 Hs1 Hp1 Hcfg
                   |e1 addr c e h0 h1 Hs1 Hp1 Hcfg Hd
                   |e1 addr c serverConn res' evs' h0 h1 h2 Hs1 Hp1 Hcfg Hd Hrel];
    subst; try (left; tidy; reflexivity).
  inversion Hrel; subst; try (left; tidy; reflexivity).
  right. split; [reflexivity|].
  exists addr, c, serverConn, raddr, remoteConn. tidy. split; reflexivity.
Qed.

End ForwardFacts.

(** X25 in the calm world: both dials succeed and the two copies start. *)
Lemma forward_copies_both_ways_witness :
  exists evs,
    snd (forward Scenario.calm target_endpoint (EC2Endpoint_iface Scenario.calm bastion)
           (ConnH 100) []) = [] ++ evs
    /\ (spawned evs = []
        \/ fst (forward Scenario.calm target_endpoint
                  (EC2Endpoint_iface Scenario.calm bastion) (ConnH 100) []) = Ok tt
           /\ exists a c serverConn raddr remoteConn,
                spawned evs = [GoCopyConn (ConnH 100) remoteConn;
                               GoCopyConn remoteConn (ConnH 100)]
                /\ conns evs = [EvSshDial "tcp" a c (inl serverConn);
                                EvClientDial serverConn "tcp" raddr (inl remoteConn)]).
Proof.
  exact (forward_copies_both_ways Scenario.calm target_endpoint
           (EC2Endpoint_iface Scenario.calm bastion) (ConnH 100) []
           target_endpoint_quiet (ec2_quiet Scenario.calm bastion)).
Defined.

Section ForwardThroughInstance.
Variable w : World.

(** Reading the address of an endpoint that has its instance pushes the
    key exactly once, however the push ends. *)
Lemma String_pushes_once (e : EC2Endpoint) (i : Instance) (h : trace) :
  Instance_ e = Some i ->
  exists evs, snd (String_ w e h) = h ++ evs /\ pushes evs = 1.
Proof.
  intros Hi. rewrite (String_cases w e i h Hi), (sendPublicKey_cases w e i h).
  destruct (w_SendSSHPublicKey w h (push_input e i)) as [out|err].
  - destruct (Success out); simpl; eexists;
      (split; [rewrite <- ?app_assoc; reflexivity|reflexivity]).
  - destruct (errors_As_Throttling err); simpl; eexists;
      (split; [rewrite <- ?app_assoc; reflexivity|reflexivity]).
Qed.

Lemma effect_free_quiet (ep : EndpointIface) : effect_free ep -> quiet ep.
Proof. intros H h. exists []. rewrite app_nil_r. split; [apply H|reflexivity]. Qed.

Lemma config_log_pushes (ep : EndpointIface) : pushes (config_log ep) = 0.
Proof. unfold config_log. destruct (snd (ep_GetSSHConfig ep)); reflexivity. Qed.

(** X26: through a bastion that has its instance, towards a target whose
    address is read without effect, every run of [forward] pushes the key
    of the bastion once before it dials, and once more when the dial
    succeeded: the address is read again for the debug line. *)
Theorem forward_pushes_key_again_after_dial
  (e : EC2Endpoint) (i : Instance) (remoteHost : EndpointIface)
  (localConn : Conn) (h : trace) :
  Instance_ e = Some i ->
  effect_free remoteHost ->
  exists evs,
    snd (forward w remoteHost (EC2Endpoint_iface w e) localConn h) = h ++ evs
    /\ pushes evs = match conns evs with
                    | EvSshDial _ _ _ (inl _) :: _ => 2
                    | _ => 1
                    end.
Proof.
  intros Hi Hr.
  assert (Hpush : forall h0 r1 e1,
            ep_String (EC2Endpoint_iface w e) h0 = (r1, h0 ++ e1) -> pushes e1 = 1).
  { intros h0 r1 e1 Hs. destruct (String_pushes_once e i h0 Hi) as (evs & Hext & Hp).
    simpl in Hs. rewrite Hs in Hext. simpl in Hext.
    apply app_inv_head in Hext. now subst. }
  assert (Hfree : forall h0 r1 e1,
            ep_String remoteHost h0 = (r1, h0 ++ e1) -> e1 = []).
  { intros h0 r1 e1 Hs. pose proof (Hr h0) as Hh. rewrite Hs in Hh. simpl in Hh.
    rewrite <- (app_nil_r h0) in Hh at 2. now apply app_inv_head in Hh. }
  destruct (forward_forwarded w remoteHost (EC2Endpoint_iface w e) localConn h
              (effect_free_quiet _ Hr) (ec2_quiet w e)) as (res & evs & Hrun & Hfw).
  rewrite Hrun. exists evs. split; [reflexivity|].
  pose proof (config_log_passive (EC2Endpoint_iface w e)) as Hp0.
  pose proof (config_log_pushes (EC2Endpoint_iface w e)) as Hc0.
  inversion Hfw as [e1 r1 res' h0 Hs1 Hp1 Hab
                   |e1 addr h0 Hs1 Hp1 Hcfg
                   |e1 addr c err h0 h1 Hs1 Hp1 Hcfg Hd
                   |e1 addr c serverConn res' evs' h0 h1 h2 Hs1 Hp1 Hcfg Hd Hrel];
    subst; pose proof (Hpush _ _ _ Hs1) as H1; tidy; rewrite ?Hc0, ?H1;
    try reflexivity.
  inversion Hrel as [e3 r3 res2 Hs3 Hp3 Hab
                    |e3 addr' e5 r5 res2 log1 h4 Hs3 Hp3 Hs5 Hp5 Hab
                    |e3 addr' e5 raddr err log1 h4 h5 Hs3 Hp3 Hs5 Hp5 Hd2
                    |e3 addr' e5 raddr remoteConn e7 r7 res2 log1 h4 h5 h6
                       Hs3 Hp3 Hs5 Hp5 Hd2 Hs7 Hp7 Hab
                    |e3 addr' e5 raddr remoteConn e7 raddr' log1 h4 h5 h6
                       Hs3 Hp3 Hs5 Hp5 Hd2 Hs7 Hp7];
    subst; pose proof (Hpush _ _ _ Hs3) as H3;
    try (pose proof (Hfree _ _ _ Hs5) as H5; subst e5);
    try (pose proof (Hfree _ _ _ Hs7) as H7; subst e7);
    tidy; rewrite ?H3; reflexivity.
Qed.

(** X27: when the key of the bastion does not parse, [forward] logs the
    error and goes on: it reads the address, which pushes the key, and
    then hands the nil configuration to [ssh.Dial], where the goroutine
    panics before any connection is made. *)
Theorem forward_panics_without_auth_config
  (e : EC2Endpoint) (i : Instance) (remoteHost : EndpointIface)
  (localConn : Conn) (h : trace) (err : error) (out : SendSSHPublicKeyOutput) :
  let h0 := h ++ [EvLog LError (Error err)] in
  Instance_ e = Some i ->
  w_ParsePrivateKey w (PrivateKey e) = inr err ->
  w_SendSSHPublicKey w h0 (push_input e i) = inl out ->
  Success out = true ->
  forward w remoteHost (EC2Endpoint_iface w e) localConn h
  = (Panic nil_deref, h0 ++ [EvSendSSHPublicKey (push_input e i)]).
Proof.
  intros h0 Hi Hkey Hpush Hok. rewrite forward_step.
  cbn [ep_GetSSHConfig ep_String EC2Endpoint_iface]. unfold GetSSHConfig. rewrite Hkey.
  cbv zeta. fold h0.
  rewrite (String_cases w e i h0 Hi), (sendPublicKey_cases w e i h0), Hpush, Hok.
  reflexivity.
Qed.

End ForwardThroughInstance.

(** X26 in the calm world: the dial succeeds, the key is pushed twice. *)
Lemma forward_pushes_key_again_after_dial_witness :
  exists evs,
    snd (forward Scenario.calm target_endpoint (EC2Endpoint_iface Scenario.calm bastion)
           (ConnH 100) []) = [] ++ evs
    /\ pushes evs = match conns evs with
                    | EvSshDial _ _ _ (inl _) :: _ => 2
                    | _ => 1
                    end.
Proof.
  exact (forward_pushes_key_again_after_dial Scenario.calm bastion
           (Scenario.inst "i-aaa" "10.0.0.1" "1.1.1.1") target_endpoint (ConnH 100) []
           eq_refl (fun h => eq_refl)).
Defined.

(** X27 where no key parses. *)
Lemma forward_panics_without_auth_config_witness :
  forward bad_key target_endpoint (EC2Endpoint_iface bad_key bastion) (ConnH 100) []
  = (Panic nil_deref,
     [EvLog LError "ssh: no key found";
      EvSendSSHPublicKey (push_input bastion (Scenario.inst "i-aaa" "10.0.0.1" "1.1.1.1"))]).
Proof.
  exact (forward_panics_without_auth_config bad_key bastion
           (Scenario.inst "i-aaa" "10.0.0.1" "1.1.1.1") target_endpoint (ConnH 100) []
           (ErrorString "ssh: no key found") {| Success := true; RequestId := None |}
           eq_refl eq_refl eq_refl eq_refl).
Defined.

(** ** The command: tag, clients and destinations *)

(** [strings.Split] cuts at every separator: one part more than there are
    separators. *)
Lemma Split_aux_length (sep : ascii) (s cur : string) :
  length (Split_aux s sep cur) = S (count_byte sep s).
Proof.
  revert cur. induction s as [|c s IH]; intros cur; simpl; [reflexivity|].
  destruct (Ascii.eqb c sep); simpl; now rewrite IH.
Qed.

Lemma Split_length (sep : ascii) (s : string) :
  length (Split s sep) = S (count_byte sep s).
Proof. apply Split_aux_length. Qed.

Section Command.
Variable w : World.
Variable NewEndpoint : string -> Endpoint.

(** X28: a tag that does not hold exactly one colon is rejected: [run]
    returns the error that names the tag and has done nothing, not even
    loaded the SDK configuration.  A tag value that itself holds a colon is
    such a tag. *)
Theorem run_rejects_tag_without_single_colon (fuel : nat) (c : Context) (h : trace) :
  count_byte ":" (c_tag c) <> 1 ->
  run w NewEndpoint fuel c h
  = (Ok (Returned (Some (ErrorString
       (c_tag c ++ " is not a valid tag definition, use key:value")))), h).
Proof.
  intros Hn. unfold run. pose proof (Split_length ":" (c_tag c)) as Hl.
  destruct (Split (c_tag c) ":") as [|a [|b [|d l]]]; simpl in Hl;
    try reflexivity. congruence.
Qed.

(** X29: with a well-formed tag, a failure to load the SDK configuration
    ends the process with status 1 from inside [getClients]: the error is
    logged, nothing is resolved or dialed, and [main] never sees an error
    to report. *)
Theorem main_exits_when_sdk_config_fails
  (fuel : nat) (c : Context) (h : trace) (err : error) :
  count_byte ":" (c_tag c) = 1 ->
  w_LoadDefaultConfig w (h ++ [EvGo GoSignalHandler]) = Some err ->
  main w NewEndpoint fuel c h
  = (Exit 1%Z,
     h ++ [EvGo GoSignalHandler; EvLoadDefaultConfig (c_region c);
           EvLog LError ("unable to load SDK config err=" ++ Error err)%string]).
Proof.
  intros Hn Herr. unfold main, run. pose proof (Split_length ":" (c_tag c)) as Hl.
  rewrite Hn in Hl.
  destruct (Split (c_tag c) ":") as [|a [|b [|d l]]]; try discriminate Hl.
  unfold getClients.
  cbv beta iota zeta delta [bind call callr emit slog os_Exit ret].
  rewrite Herr. rewrite <- !app_assoc. reflexivity.
Qed.

(** Every destination is looked up, marked for its private address and
    appended, in the order of the arguments; the loop returns at the first
    lookup that fails. *)
Lemma run_chain_post (args : list string) :
  forall (chain : list EndpointIface) (h : trace),
    match fst (run_chain w args chain h) with
    | Ok (Next chain') =>
        exists es,
          chain' = chain ++ map (EC2Endpoint_iface w) es
          /\ Forall2 (fun arg e =>
                        exists hi h' e0,
                          NewEC2Endpoint w arg hi = (Ok (e0, None), h')
                          /\ e = set_UsePrivate e0 true) args es
    | Ok (Return err) => err <> None
    | _ => False
    end.
Proof.
  induction args as [|ep rest IH]; intros chain h.
  - simpl. exists []. split; [now rewrite app_nil_r|constructor].
  - destruct (NewEC2Endpoint_split ep) as (u & i1 & i2 & p & H1 & H2).
    destruct (NewEC2Endpoint_parsed w ep u i1 i2 p h H1 H2) as (e & err & h' & Hrun & _).
    cbn [run_chain]. rewrite (bind_ok _ _ _ _ _ Hrun).
    destruct err as [err|]; [simpl; discriminate|].
    specialize (IH (chain ++ [EC2Endpoint_iface w (set_UsePrivate e true)]) h').
    destruct (fst (run_chain w rest _ h')) as [[chain'|err]| |]; try exact IH.
    destruct IH as (es & -> & Hall).
    exists (set_UsePrivate e true :: es). split.
    + rewrite <- app_assoc. reflexivity.
    + constructor; [|exact Hall]. exists h, h', e. split; [exact Hrun|reflexivity].
Qed.

(** X30: the loop over the destinations of [run] never ends the process.
    Run to its end, it has appended one endpoint per argument, in order,
    each the endpoint [NewEC2Endpoint] returned for that argument without
    an error, marked to be reached by its private address and holding its
    instance; otherwise it returns an error. *)
Theorem run_chain_appends_private_endpoints
  (args : list string) (chain : list EndpointIface) (h : trace) :
  match fst (run_chain w args chain h) with
  | Ok (Next chain') =>
      exists es,
        chain' = chain ++ map (EC2Endpoint_iface w) es
        /\ Forall2 (fun arg e =>
                      exists hi h' e0,
                        NewEC2Endpoint w arg hi = (Ok (e0, None), h')
                        /\ e = set_UsePrivate e0 true) args es
        /\ Forall (fun e => UsePrivate e = true /\ Instance_ e <> None) es
  | Ok (Return err) => err <> None
  | _ => False
  end.
Proof.
  pose proof (run_chain_post args chain h) as H.
  destruct (fst (run_chain w args chain h)) as [[chain'|err]| |]; try exact H.
  destruct H as (es & Hc & Hall). exists es. split; [exact Hc|]. split; [exact Hall|].
  clear Hc. induction Hall as [|arg e args' es' (hi & h' & e0 & Hrun & ->) _ IH];
    constructor; [|exact IH].
  split; [reflexivity|]. simpl. exact (NewEC2Endpoint_has_instance w arg hi h' e0 Hrun).
Qed.

End Command.

(** X28 on a tag with two colons. *)
Lemma run_rejects_tag_without_single_colon_witness :
  run Scenario.calm plain_endpoint 0 two_colons []
  = (Ok (Returned (Some (ErrorString
       "zone:eu:west is not a valid tag definition, use key:value"))), []).
Proof.
  exact (run_rejects_tag_without_single_colon Scenario.calm plain_endpoint 0 two_colons []
           ltac:(discriminate)).
Defined.

(** X29 where the shared configuration cannot be loaded. *)
Lemma main_exits_when_sdk_config_fails_witness :
  main no_sdk_config plain_endpoint 0 to_bastion []
  = (Exit 1%Z,
     [EvGo GoSignalHandler; EvLoadDefaultConfig "";
      EvLog LError "unable to load SDK config err=failed to load shared config"]).
Proof.
  exact (main_exits_when_sdk_config_fails no_sdk_config plain_endpoint 0 to_bastion []
           (ErrorString "failed to load shared config") eq_refl eq_refl).
Defined.
